(* ===== verification/_CoqProject ===== *)
-Q . S2P
Prelude.v
Cell.v
Frame.v
ReadCsv.v
MissingData.v
Stats.v
BoxPlot.v
Distplot.v
Corr.v
Script.v
Warnings.v
Pyplot.v
Plots.v
Features.v
