(* ===== verification/Prelude.v ===== *)
(** * House-prices exploratory analysis: a verification development

    The program, [src/house_prices_eda.py], is a notebook-style script over
    pandas.  Its only live statement reads [train.csv] into a data frame
    (line 12); every other step is written out as a commented-out statement
    that the analyst runs by hand, in this order:

    - describe the target column, chart its distribution and compute its
      skewness (lines 15, 17, 28), with an interpretation rule for the
      skewness in a docstring (lines 30-34);
    - scatter plots of the target against GrLivArea and TotalBsmtSF
      (lines 46-54) and their Pearson correlations (lines 57-58);
    - box plots of the target grouped by OverallQual and by YearBuilt
      (lines 62-75);
    - the correlation matrix of all numeric columns and its heatmap
      (lines 97-99);
    - the missing-data audit (lines 131-134): per-column count of missing
      cells sorted descending, the same count divided by the row count, and
      their concatenation into a two-column table;
    - the cleaning (lines 164-166): drop every column whose missing count
      is greater than one, then drop the rows whose ['Electrical'] cell is
      missing, then print the largest remaining missing count.

    The plot blocks end in [plt.show()] (lines 18, 49, 54, 67, 75, 100)
    and run on pyplot's global figures; line 9 silences the warnings the
    plot calls emit.  The pandas, seaborn and matplotlib calls are the
    program's computation, so each of them is modelled from the code line
    that calls it, with the semantics the library gives that call.  What a
    plot is drawn from is modelled (the bars and the density curve of a
    histogram, the points of a scatter plot, the statistics of a box and
    its orientation, the shade of a heatmap cell), and so is the figure it
    lands in; the rasterised drawing is not.

    ** Library layout (dependency order of _CoqProject)

    - [Prelude] (this file): the exceptions the pandas calls raise
      ([pyerror]), the [result] type with its bind notation in [eda_scope],
      counting ([countb]), boolean masks ([select]), positional update
      ([set_nth]), duplicate tests ([nodupb]), the hint databases [eda] and
      [eda_rw] and the tactics [inv], [bind_inv] and [computed].
    - [Cell]: one cell of a frame: missing ([NaN]), a number (an exact
      rational) or a string; [isnull], value equality [cell_eqb],
      [pd.unique] ([unique_cells]) and the numeric-dtype test
      [float_column].
    - [Frame] (Module [Frame]): the DataFrame as an index of row labels and
      an ordered list of named columns; [getitem] (df['c'], KeyError when
      absent), [isnull_sum], [isnull_count], [loc_index], [concat_columns],
      [drop_columns] and [drop_rows] (KeyError naming the labels not found).
      Invariant [wf]: unique row and column labels, every column as long as
      the index; both drops and [concat_columns] preserve it.
    - [ReadCsv] (Module [ReadCsv]): line 12, pandas' C parser with its
      defaults.  The tokenizer's lines ([lines_of]: LF, CR and CRLF ends,
      empty and whitespace-only lines skipped), the fields, pandas 1.x's
      NA strings ([is_na]), the number syntax ([parse_number], exact
      values), the dtype of each column ([infer_column]), the header
      labels as [TextReader._get_header] of pandas 1.5 makes them unique
      ([dedup_names]: named columns first, a duplicate gets the first
      suffix [.k] not already in the header; the [while] loop [mangle] runs
      on fuel), EmptyDataError and ParserError.  [modelled_file] is the
      domain on which the model follows pandas (see below); [to_csv]
      writes a frame out for the round trip.
    - [MissingData] (Module [MissingData]): lines 131-166.  [total],
      [percent], [concat_md] (the outer join of line 133), [audit],
      [head_md], [sparse_labels], [drop_sparse], [drop_electrical],
      [max_missing], and [clean], the two drops composed as the script
      runs them; [clean_ref] states the cleaning on the frame.
    - [Stats] (Module [Stats]): lines 14-34.  [describe] (a numeric
      Series: count, mean, variance, min, the 25%/50%/75% rows by numpy's
      linear interpolation on the sorted values, max; an object Series:
      count, unique, top, freq from [value_counts]), pandas' [skew] as a
      real number [skew_R], and the docstring's reading of the skewness
      ([classify]).  [skew_sq] and [skew_sign], the exact square and sign
      of [skew_R], are proof devices that make the reading decidable.
    - [BoxPlot] (Module [BoxPlot]): lines 62-75.  seaborn 0.12's
      orientation ([infer_orient]: a numeric SalePrice gives vertical
      boxes of SalePrice by level, a string SalePrice with a numeric
      feature horizontal boxes of the feature by SalePrice value, neither
      numeric a TypeError), the order of the levels
      ([categorical_order]), the grouping ([group_values]), matplotlib's
      [boxplot_stats] with whis = 1.5 ([box_stats]) and the plots of the
      script ([boxplot_by], [boxplot_overallqual], [boxplot_yearbuilt]).
    - [Distplot] (Module [Distplot]): line 17.  The histogram of
      [sns.distplot] (the Freedman-Diaconis number of bins capped at 50,
      [np.histogram]'s equal bins, the density heights) and the kernel
      density curve ([kdeplot]: scipy's [gaussian_kde] with Scott's factor
      on seaborn's grid of 200 points, skipped on singular data).
    - [Corr] (Module [Corr]): lines 46-58 and 97-99.  [corr] (Series.corr:
      pairwise-complete rows, np.corrcoef with its clip), [corr_matrix]
      (DataFrame.corr over the numeric columns, as pandas' nancorr computes
      each entry), the scatter plots ([scatter_by]) and the heatmap
      ([heatmap]).
    - [Script] (Module [Script]): the notebook.  The cells of lines 12,
      131-134 and 164-166 as [exec] on a session holding [df_train],
      [missing_data] and the printed output ([NameError] for a variable not
      yet assigned); [step] and [reach] run any sequence of cells.  The
      cells call the frame through the class [FrameApi] with its laws
      [FrameApiLaws]; [frame_api] and [frame_api_laws] implement it with
      [ReadCsv], [Frame] and [MissingData], and the theorems are stated on
      that implementation.
    - [Warnings] (Module [Warnings]): line 9 and the warnings of line 17,
      as CPython's C [_warnings] module: the filters, the registry of
      [__main__], [filterwarnings] and [warn_explicit] with its actions.
    - [Pyplot] (Module [Pyplot]): pyplot's figure manager: [Figure]s with
      their [Axes] (artists, y limits, tick rotation), [figure], [gcf],
      [gca], [subplots], [on_axes], [show]; invariant [pwf].
    - [Plots] (Module [Plots]): the plot statements of lines 9-100 as
      [exec_plot] on a session of pyplot, warnings and the variable [fig],
      each returning the exception it raises with the state it leaves;
      the six plot blocks ([block_stmts], [script_blocks]) and what each
      is meant to show ([chart]); [pstep] and [preach] run any sequence.
    - [Features] (Module [Features]): the reading of the box plot at
      lines 86-88 ("sales prices increase with the overall quality"), as
      the medians of the boxes [BoxPlot.boxplot_by] draws.

    ** What the theorems show

    - Cleaning (C1-C7): [clean_refines] states lines 131-165 as a rule on
      the frame (keep the columns with at most one missing cell and the
      rows where Electrical is present; KeyError ['Electrical'] when
      Electrical is absent or missing more than once);
      [clean_no_missing_iff] and [clean_missing_count] say what line 166
      prints; [clean_wf] is the invariant; [audit_totals] and
      [audit_percent] describe the audit table (sorted, a permutation of
      the counts, shares in [0,1]); [clean_one_missing] is the
      specification's scenario for every frame: Electrical missing once
      and every other column complete give the frame with that row
      dropped, every column kept, and 0 printed.
    - Loading (C8-C12), on the files of [modelled_file]: every column has
      one dtype and holds a string exactly when some field at its position
      is neither NA nor a number ([read_csv_dtypes]); the frame is well
      formed, with a RangeIndex over the non-blank data lines and the
      header's labels ([read_csv_wf]); the two errors, exactly
      characterised ([read_csv_error]); a written frame is read back
      unchanged ([read_csv_to_csv]); the missing cells are the NA strings
      and absent fields ([read_csv_missing]).
    - Statistics (C13-C17): any arrangement of a symmetric sample has
      skewness 0 ([skew_symmetric]); [k] equal values and one above them
      have skewness exactly [sqrt (k + 1)], which pins pandas' bias
      adjustment ([skew_one_outlier]); describe()'s five order statistics
      are in order ([describe_quartiles]), its count, mean and variance
      are consistent ([describe_bounds]); describe() never raises, skew()
      raises exactly on a string ([describe_error]).
    - Correlation (C18-C24): |r| <= 1 by Cauchy-Schwarz, so np.corrcoef's
      clip is the identity ([corr_bounds]); symmetry; self-correlation 1
      or NaN; the matrix entries are Series.corr values; the heatmap
      saturates exactly at correlations of at least .8
      ([heatmap_white]); the scatter plots draw exactly the observations
      of the correlation ([scatter_corr]); the correlation does not change
      with the unit of SalePrice ([corr_rescale]).
    - Box plots (C25-C29): whiskers, quartiles and median in order inside
      the Tukey fences ([box_order]); the fliers are exactly the values
      outside the fences ([box_fliers_tukey]); the groups partition the
      rows with a present level ([boxes_partition]); the plot raises
      exactly when neither column is numeric ([boxplot_by_TypeError]);
      prices increasing with a numeric level give box medians increasing
      left to right ([boxes_medians_increase]).
    - Distribution chart (C30-C32): 1 to 50 bars, every value counted
      once, total area one ([distplot_histogram]); a change of units
      [k x + c] keeps the bars and maps the curve ([distplot_rescale]);
      the density curve has 200 points and bounded heights
      ([kdeplot_bounds]).
    - Plots (C33-C36): once line 9 has run no plot statement writes a
      warning ([filter_silences_warnings], by induction on [preach]); the
      plot blocks, in any order, each display one figure holding exactly
      their chart and leave none open ([run_blocks_refines]); the open
      figures keep distinct numbers and identities ([preach_pwf]); without
      line 9, line 17's warnings are shown once however often it runs
      ([distplot_warns_once]).
    - Notebook (C37, C38): every frame a session reaches by any sequence of
      cells is well formed ([notebook_wf]); re-running line 164 raises
      KeyError naming a column the first run dropped
      ([rerun_drop_sparse]).

    ** Not modelled

    The imports (lines 1-8) are modelled only by the state they leave for
    pyplot and warnings.  The rasterised drawing (colours, labels, ticks,
    layout, the axis limits seaborn sets, the inverted y axis of
    horizontal boxes) is not modelled: it changes no state the script
    reads.  Of the warnings machinery, the 'error' action and message
    patterns are left out: no filter of the program or of Python's
    defaults has them.  The docstrings that state a rule over what the
    code computes are modelled (the skewness reading of lines 30-34, the
    cleaning rule, the box-plot reading of lines 86-88); the other prose
    (the shape notes of lines 20-25, the features picked by intuition,
    constant prices, the twin features and which to keep, lines 36-42,
    77-84 and 102-116) is the analyst's judgement of charts of the real
    data: no code computes it, and it is not modelled.  Of
    [pd.read_csv], files outside [modelled_file] are not modelled: quoted
    fields, boolean and infinite columns (pandas would infer [bool] or
    [float64] where the model keeps strings), and a first data line wider
    than the header (pandas takes its leading fields as the index, which
    the frame's integer index cannot hold; the model raises ParserError
    there); 64-bit overflow is not modelled (values are exact).

    ** Library versions

    The script pins no version; the models follow one consistent set:
    pandas 1.5 (the C parser's header loop, [STR_NA_VALUES] without
    ["None"], DataFrame.corr leaving out string columns, the positional
    axis of [drop] at line 164), seaborn 0.12 ([infer_orient],
    [categorical_order], distplot's UserWarning, kdeplot's singular-data
    skip), matplotlib 3 and CPython 3 (the C [_warnings] module).

    ** Numbers and bounds

    Cells hold exact rationals: pandas computes in IEEE doubles, and the
    development states what the computation means on exact values;
    rounding is not modelled, and the round trip keeps to integers a
    double holds exactly (at most 2^53).  Square roots (std, skew, corr,
    the kernel bandwidth) are real numbers ([R]); every decision the
    script's reading depends on is also computed exactly on rationals.
    Counts are [nat].  Every function is structurally recursive but one:
    the [while] loop of the header ([ReadCsv.mangle]) runs on fuel
    [len(header) + 2], which [mangle_fresh] shows is enough: each round
    but the last two moves to a candidate [old.k] already in the header,
    the candidates are distinct, and there are more of them than labels,
    so the loop leaves with [cur_count = 0] and a label not yet assigned.
*)

From Stdlib Require Export String List Bool Arith Lia QArith Lqa.
From Stdlib Require Export Sorting.Permutation Sorting.Sorted.
Export ListNotations.

Declare Scope eda_scope.
Delimit Scope eda_scope with eda.

(** ** Exceptions raised by the pandas calls of the script *)

Inductive pyerror :=
| KeyError (keys : list string)        (** column labels not found *)
| KeyErrorRows (labels : list nat)     (** row labels not found in the index *)
| ParserError (line expected saw : nat) (** a CSV row with too many fields *)
| EmptyDataError                       (** no header line to parse *)
| TypeError                            (** arithmetic on a string value *)
| ValueError (msg : string)            (** a plot of a non-numeric column *)
| NameError (name : string).           (** a variable read before it is assigned *)

(** The outcome of a call: a value, or the exception it raises. *)
Inductive result (A : Type) : Type :=
| Ok (a : A)
| Err (e : pyerror).
Arguments Ok {A} a.
Arguments Err {A} e.

Definition bind {A B : Type} (r : result A) (k : A -> result B) : result B :=
  match r with
  | Ok a => k a
  | Err e => Err e
  end.

Notation "x <- c ;; k" := (bind c (fun x => k))
  (at level 60, c at next level, right associativity) : eda_scope.

Open Scope nat_scope.
Open Scope eda_scope.

Lemma bind_Ok {A B} (r : result A) (k : A -> result B) (b : B) :
  bind r k = Ok b <-> exists a, r = Ok a /\ k a = Ok b.
Proof.
  destruct r as [a|e]; simpl; split.
  - intros H; eauto.
  - intros (a' & H1 & H2); congruence.
  - discriminate.
  - intros (a' & H1 & _); discriminate.
Qed.

Lemma bind_Err {A B} (r : result A) (k : A -> result B) e :
  r = Err e -> bind r k = Err e.
Proof. intros ->; reflexivity. Qed.

(** ** Counting with a boolean test *)

Definition countb {A : Type} (p : A -> bool) (l : list A) : nat :=
  length (filter p l).

Lemma countb_nil {A} (p : A -> bool) : countb p [] = 0.
Proof. reflexivity. Qed.

Lemma countb_cons {A} (p : A -> bool) x l :
  countb p (x :: l) = (if p x then 1 else 0) + countb p l.
Proof. unfold countb; simpl; destruct (p x); reflexivity. Qed.

Lemma countb_le_length {A} (p : A -> bool) l : countb p l <= length l.
Proof.
  induction l as [|x l IH]; [apply Nat.le_0_l|].
  rewrite countb_cons; cbn [length]; destruct (p x); lia.
Qed.

Lemma countb_zero_iff {A} (p : A -> bool) l :
  countb p l = 0 <-> Forall (fun x => p x = false) l.
Proof.
  induction l as [|x l IH]; [split; auto|].
  rewrite countb_cons, Forall_cons_iff, <- IH.
  destruct (p x); split; intros H; try lia; intuition congruence.
Qed.

Lemma countb_app {A} (p : A -> bool) l1 l2 :
  countb p (l1 ++ l2) = countb p l1 + countb p l2.
Proof. unfold countb; rewrite filter_app, length_app; reflexivity. Qed.

Lemma countb_perm {A} (p : A -> bool) l1 l2 :
  Permutation l1 l2 -> countb p l1 = countb p l2.
Proof.
  induction 1; rewrite ?countb_cons; [reflexivity|lia|destruct (p x), (p y); lia|lia].
Qed.

Lemma countb_ext_in {A} (p q : A -> bool) l :
  (forall x, In x l -> p x = q x) -> countb p l = countb q l.
Proof. intros H; unfold countb; rewrite (filter_ext_in p q l H); reflexivity. Qed.

Lemma countb_filter {A} (p q : A -> bool) l :
  countb p (filter q l) = countb (fun x => q x && p x) l.
Proof.
  induction l as [|x l IH]; [reflexivity|]; simpl; rewrite (countb_cons _ x).
  destruct (q x); simpl; rewrite ?countb_cons, IH; reflexivity.
Qed.

Lemma countb_In_pos {A} (p : A -> bool) l x :
  In x l -> p x = true -> 1 <= countb p l.
Proof.
  induction l as [|y l IH]; [intros []|]; intros [->|Hx] Hp; rewrite countb_cons;
    [rewrite Hp; lia|specialize (IH Hx Hp); lia].
Qed.

Lemma countb_filter_le {A} (p q : A -> bool) l : countb p (filter q l) <= countb p l.
Proof.
  induction l as [|x l IH]; [reflexivity|]; simpl.
  destruct (q x); rewrite ?countb_cons; lia.
Qed.

Lemma countb_map_id {A} (f : A -> bool) l : countb (fun b => b) (map f l) = countb f l.
Proof. induction l as [|x l IH]; [reflexivity|]; simpl; rewrite !countb_cons, IH; reflexivity. Qed.

Lemma countb_negb {A} (p : A -> bool) l : countb (fun x => negb (p x)) l = length l - countb p l.
Proof.
  induction l as [|x l IH]; [reflexivity|]; rewrite !countb_cons, IH; cbn [length].
  pose proof (countb_le_length p l); destruct (p x); cbn [negb]; lia.
Qed.

Lemma filter_all {A} (p : A -> bool) l : Forall (fun x => p x = true) l -> filter p l = l.
Proof. induction 1 as [|x l Hx _ IH]; [reflexivity|]; cbn; rewrite Hx, IH; reflexivity. Qed.

Lemma in_combine_same {A} (l : list A) x : In x (combine l l) -> fst x = snd x.
Proof.
  revert x; induction l as [|a l IH]; intros x; [intros []|].
  intros [<-|Hx]; [reflexivity|apply IH, Hx].
Qed.

Lemma list_sum_indicator {A} (p : A -> bool) l :
  list_sum (map (fun x => if p x then 1 else 0) l) = countb p l.
Proof. induction l as [|x l IH]; [reflexivity|]; simpl; rewrite countb_cons, IH; reflexivity. Qed.

Lemma countb_le_mono {A} (p q : A -> bool) l :
  (forall x, In x l -> p x = true -> q x = true) -> countb p l <= countb q l.
Proof.
  induction l as [|y l IH]; intros H; [apply Nat.le_refl|]; rewrite !countb_cons.
  specialize (IH (fun x Hx => H x (or_intror Hx))).
  destruct (p y) eqn:Ep; [rewrite (H y (or_introl eq_refl) Ep)|destruct (q y)]; lia.
Qed.

(** A test implied by another, and failing where the other holds, counts
    strictly fewer elements. *)
Lemma countb_lt_mono {A} (p q : A -> bool) l x :
  (forall y, In y l -> p y = true -> q y = true) -> In x l -> p x = false -> q x = true ->
  countb p l < countb q l.
Proof.
  induction l as [|y l IH]; intros H Hx Hp Hq; [destruct Hx|]; rewrite !countb_cons.
  destruct Hx as [->|Hx].
  - rewrite Hp, Hq; pose proof (countb_le_mono p q l (fun z Hz => H z (or_intror Hz))); lia.
  - specialize (IH (fun z Hz => H z (or_intror Hz)) Hx Hp Hq).
    destruct (p y) eqn:Ep; [rewrite (H y (or_introl eq_refl) Ep)|destruct (q y)]; lia.
Qed.

Lemma string_length_append (s t : string) :
  String.length (s ++ t) = String.length s + String.length t.
Proof. induction s as [|c s IH]; simpl; [reflexivity|rewrite IH; reflexivity]. Qed.

Lemma map_fst_combine {A B} (l1 : list A) (l2 : list B) :
  length l1 = length l2 -> map fst (combine l1 l2) = l1.
Proof.
  revert l2; induction l1 as [|x l1 IH]; intros [|y l2] H; simpl in *; try lia; [reflexivity|].
  rewrite IH by lia; reflexivity.
Qed.

Lemma map_snd_combine {A B} (l1 : list A) (l2 : list B) :
  length l1 = length l2 -> map snd (combine l1 l2) = l2.
Proof.
  revert l2; induction l1 as [|x l1 IH]; intros [|y l2] H; simpl in *; try lia; [reflexivity|].
  rewrite IH by lia; reflexivity.
Qed.

Lemma combine_fst_snd {A B} (l : list (A * B)) : combine (map fst l) (map snd l) = l.
Proof. induction l as [|[a b] l IH]; simpl; [reflexivity|rewrite IH; reflexivity]. Qed.

Lemma map_nth_seq {A B} (f : A -> B) (l : list A) d :
  map (fun j => f (nth j l d)) (seq 0 (length l)) = map f l.
Proof.
  induction l as [|x l IH]; [reflexivity|]; simpl; f_equal.
  rewrite <- seq_shift, map_map; exact IH.
Qed.

Lemma countb_map {A B} (p : B -> bool) (f : A -> B) l :
  countb p (map f l) = countb (fun x => p (f x)) l.
Proof. induction l as [|x l IH]; [reflexivity|]; simpl; rewrite !countb_cons, IH; reflexivity. Qed.

Lemma nth_map_seq {A} (f : nat -> A) n j d : j < n -> nth j (map f (seq 0 n)) d = f j.
Proof.
  intros Hj; rewrite (nth_indep _ d (f 0)) by (rewrite length_map, length_seq; exact Hj).
  rewrite map_nth, seq_nth by exact Hj; reflexivity.
Qed.

(** Counting the pairs [(g, c)] of [K] x [l] with [f g c] by rows or by
    columns gives the same sum. *)
Lemma forallb_false_In {A} (p : A -> bool) l : forallb p l = false -> exists x, In x l /\ p x = false.
Proof.
  induction l as [|x l IH]; simpl; [discriminate|].
  destruct (p x) eqn:E; simpl; [intros H; destruct (IH H) as (y & ? & ?)|]; eauto.
Qed.

Lemma sum_countb_swap {A B} (f : A -> B -> bool) (K : list A) (l : list B) :
  list_sum (map (fun g => countb (f g) l) K) =
  list_sum (map (fun c => countb (fun g => f g c) K) l).
Proof.
  induction l as [|c l IH]; simpl.
  - induction K; simpl; auto.
  - rewrite <- IH; clear IH; induction K as [|g K IHK]; simpl; [reflexivity|].
    rewrite countb_cons, IHK, countb_cons; lia.
Qed.

(** ** Automation *)

Create HintDb eda.
Create Rewrite HintDb eda_rw.
#[export] Hint Resolve countb_le_length : eda.
#[export] Hint Rewrite @countb_nil @countb_cons @countb_app : eda_rw.

(** [inv H]: invert [H], substitute, and drop it. *)
(** [E : t = v] for the value [v] of the closed term [t]. *)
Ltac computed E t :=
  let v := eval vm_compute in t in
  assert (E : t = v) by (vm_compute; reflexivity).

Ltac inv H := inversion H; subst; clear H.

(** Split an equation [bind r k = Ok b] into its two halves. *)
Ltac bind_inv H :=
  let a := fresh "a" in
  let Ha := fresh "Ha" in
  apply bind_Ok in H; destruct H as (a & Ha & H).

(** The labels of [labels] that [axis] lacks, as [drop] reports them. *)
Section Missing.
Context {A : Type} (eqb : A -> A -> bool).
Hypothesis eqb_eq : forall x y, eqb x y = true <-> x = y.

Lemma existsb_eqb_In (x : A) l : existsb (eqb x) l = true <-> In x l.
Proof.
  rewrite existsb_exists; split.
  - intros (y & Hy & E); apply eqb_eq in E; subst; exact Hy.
  - intros H; exists x; split; [exact H | apply eqb_eq; reflexivity].
Qed.

Lemma missing_nil (labels axis : list A) :
  filter (fun l => negb (existsb (eqb l) axis)) labels = [] <-> incl labels axis.
Proof.
  induction labels as [|l ls IH]; simpl; [split; auto; intros _ x []|].
  destruct (existsb (eqb l) axis) eqn:E; simpl.
  - rewrite IH; apply existsb_eqb_In in E; split.
    + intros H; apply incl_cons; auto.
    + intros H; eapply incl_cons_inv, H.
  - split; [discriminate|]; intros H.
    assert (In l axis) as Hin by (apply H; left; auto).
    apply existsb_eqb_In in Hin; congruence.
Qed.
(** A boolean test for the absence of duplicates. *)
Fixpoint nodupb (l : list A) : bool :=
  match l with
  | [] => true
  | x :: l' => negb (existsb (eqb x) l') && nodupb l'
  end.

Lemma nodupb_NoDup (l : list A) : nodupb l = true <-> NoDup l.
Proof.
  induction l as [|x l IH]; simpl; [split; constructor|].
  rewrite andb_true_iff, negb_true_iff, IH, NoDup_cons_iff.
  destruct (existsb (eqb x) l) eqn:E.
  - apply existsb_eqb_In in E; intuition discriminate.
  - split; intros [H1 H2]; split; auto.
    intros Hin; apply existsb_eqb_In in Hin; congruence.
Qed.
End Missing.

(** ** Membership tests on labels *)

Lemma existsb_eqb_string_In (x : string) (l : list string) :
  existsb (String.eqb x) l = true <-> In x l.
Proof. apply existsb_eqb_In, String.eqb_eq. Qed.

Lemma existsb_eqb_nat_In (x : nat) (l : list nat) :
  existsb (Nat.eqb x) l = true <-> In x l.
Proof. apply existsb_eqb_In, Nat.eqb_eq. Qed.

(** ** Selecting the positions a boolean mask keeps *)

(** [select keep v]: the elements of [v] at the positions where [keep] is
    true; a boolean mask applied to a column. *)
Fixpoint select {A : Type} (keep : list bool) (v : list A) : list A :=
  match keep, v with
  | true :: k, x :: v' => x :: select k v'
  | false :: k, _ :: v' => select k v'
  | _, _ => []
  end.

Lemma length_select {A} (keep : list bool) (v : list A) :
  length keep = length v -> length (select keep v) = countb (fun b => b) keep.
Proof.
  revert v; induction keep as [|b k IH]; intros [|x v] H;
    cbn [length select] in *; try reflexivity; try lia.
  rewrite countb_cons; destruct b; cbn [length]; rewrite IH by lia; reflexivity.
Qed.

Lemma select_incl {A} (keep : list bool) (v : list A) x :
  In x (select keep v) -> In x v.
Proof.
  revert v; induction keep as [|[] k IH]; intros [|y v]; simpl; try tauto.
  - intros [<-|H]; [left|right]; auto.
  - intros H; right; auto.
Qed.

Lemma NoDup_select {A} (keep : list bool) (v : list A) :
  NoDup v -> NoDup (select keep v).
Proof.
  revert v; induction keep as [|[] k IH]; intros [|y v] H; simpl; try constructor;
    inv H; eauto using select_incl.
Qed.

Lemma select_map {A B} (f : A -> B) keep (v : list A) :
  select keep (map f v) = map f (select keep v).
Proof.
  revert v; induction keep as [|[] k IH]; intros [|y v]; simpl; auto.
  rewrite IH; reflexivity.
Qed.

Lemma select_map_self {A} (p : A -> bool) (l : list A) :
  select (map p l) l = filter p l.
Proof. induction l as [|x l IH]; simpl; auto; destruct (p x); rewrite IH; auto. Qed.

(** Keeping the positions where a test on a parallel list holds. *)
Lemma select_combine_filter {A B} (p : A -> bool) (u : list A) (v : list B) :
  length u = length v ->
  select (map p u) v = map snd (filter (fun ab => p (fst ab)) (combine u v)).
Proof.
  revert v; induction u as [|a u IH]; intros [|b v] H; simpl in *; try lia; auto.
  destruct (p a); simpl; rewrite IH by lia; reflexivity.
Qed.

#[export] Hint Resolve NoDup_select select_incl : eda.

Lemma map_filter_key {A B} (f : A -> B) (p : B -> bool) (l : list A) :
  map f (filter (fun x => p (f x)) l) = filter p (map f l).
Proof.
  induction l as [|x l IH]; simpl; auto.
  destruct (p (f x)); simpl; rewrite IH; reflexivity.
Qed.

Lemma Forall_filter_of {A} (P : A -> Prop) (p : A -> bool) l :
  Forall P l -> Forall P (filter p l).
Proof.
  rewrite !Forall_forall; intros H x Hx; apply filter_In in Hx; apply H, Hx.
Qed.

#[export] Hint Resolve Forall_filter_of NoDup_filter : eda.

(** ** Updating a list by position *)

(** [l[i] = x]; out of range the list is unchanged. *)
Fixpoint set_nth {A : Type} (i : nat) (x : A) (l : list A) : list A :=
  match l, i with
  | [], _ => []
  | _ :: l', O => x :: l'
  | y :: l', S i' => y :: set_nth i' x l'
  end.

Lemma length_set_nth {A} i (x : A) l : length (set_nth i x l) = length l.
Proof. revert i; induction l as [|y l IH]; intros [|i]; simpl; auto. Qed.

Lemma nth_set_nth_eq {A} i (x d : A) l : i < length l -> nth i (set_nth i x l) d = x.
Proof. revert i; induction l as [|y l IH]; intros [|i] H; simpl in *; try lia; auto; apply IH; lia. Qed.

Lemma nth_set_nth_neq {A} i j (x d : A) l : i <> j -> nth j (set_nth i x l) d = nth j l d.
Proof. revert i j; induction l as [|y l IH]; intros [|i] [|j] H; simpl; auto; try congruence. Qed.

Lemma set_nth_same {A} i (d : A) l : set_nth i (nth i l d) l = l.
Proof. revert i; induction l as [|y l IH]; intros [|i]; simpl; f_equal; auto. Qed.

(** The least position where a test fails, below a bound. *)
Lemma least_false (p : nat -> bool) n :
  (exists k, k <= n /\ p k = false) ->
  exists j, j <= n /\ (forall k, k < j -> p k = true) /\ p j = false.
Proof.
  induction n as [|n IH]; intros (k & Hk & Hp).
  - exists 0; split; [lia|split; [intros; lia|]]; replace 0 with k by lia; exact Hp.
  - destruct (existsb (fun i => negb (p i)) (seq 0 (S n))) eqn:E.
    + apply existsb_exists in E as (i & Hi%in_seq & Hpi); apply negb_true_iff in Hpi.
      assert (Hi2 : i <= n) by lia; destruct (IH (ex_intro _ i (conj Hi2 Hpi))) as (j & ? & ? & ?); exists j; split; [lia|auto].
    + exists (S n); split; [lia|split].
      * intros i Hi; destruct (p i) eqn:Pi; [reflexivity|].
        assert (existsb (fun i => negb (p i)) (seq 0 (S n)) = true) by
          (apply existsb_exists; exists i; rewrite in_seq, Pi; split; [lia|reflexivity]).
        congruence.
      * assert (k = S n); [|subst; exact Hp].
        destruct (Nat.eq_dec k (S n)); [assumption|exfalso].
        assert (existsb (fun i => negb (p i)) (seq 0 (S n)) = true) by
          (apply existsb_exists; exists k; rewrite in_seq, Hp; split; [lia|reflexivity]).
        congruence.
Qed.

Lemma perm_filter_split {A} (p : A -> bool) l :
  Permutation l (filter p l ++ filter (fun x => negb (p x)) l).
Proof.
  induction l as [|x l IH]; [reflexivity|]; cbn [filter].
  destruct (p x); cbn [negb]; [constructor; exact IH|].
  apply Permutation_cons_app, IH.
Qed.

(** ** Association lists with unique keys *)

Lemma NoDup_fst_unique {K V} (l : list (K * V)) k a b :
  NoDup (map fst l) -> In (k, a) l -> In (k, b) l -> a = b.
Proof.
  induction l as [|[k' v] l IH]; simpl; [tauto|].
  intros Hnd; inv Hnd; intros [E1|I1] [E2|I2]; try congruence;
    [inv E1 | inv E2 | auto]; exfalso;
    match goal with H : In (_, _) l |- _ => apply (in_map fst) in H end; auto.
Qed.

(** Counting over the positions a mask on a parallel list keeps. *)
Lemma countb_select_map {A B} (p : A -> bool) (q : B -> bool) (v : list A) (e : list B) :
  length v = length e ->
  countb p (select (map q e) v) = countb (fun x => q (snd x) && p (fst x)) (combine v e).
Proof.
  revert e; induction v as [|x v IH]; intros [|y e] H; cbn [length] in H; try lia;
    [reflexivity|].
  cbn [map combine]; rewrite countb_cons; cbn [fst snd].
  destruct (q y); cbn -[countb]; rewrite ?countb_cons, IH by lia; reflexivity.
Qed.

(** ** Sortedness under a weaker order *)

Lemma Sorted_weaken {A} (R S : A -> A -> Prop) (l : list A) :
  (forall a b, R a b -> S a b) -> Sorted R l -> Sorted S l.
Proof.
  intros HRS HR; induction HR as [|a l HR IH Hd]; constructor; auto.
  destruct Hd; constructor; auto.
Qed.

(** The labels a mask selects from a list without duplicates are exactly
    those at the positions the mask marks. *)
Lemma select_labels_mask (m : list bool) (l : list nat) :
  NoDup l -> length m = length l ->
  map (fun i => negb (existsb (Nat.eqb i) (select m l))) l = map negb m.
Proof.
  revert m; induction l as [|i l IH]; intros [|b m] Hnd Hlen; simpl in *; try lia; auto.
  inv Hnd.
  assert (Hnot : existsb (Nat.eqb i) (select m l) = false).
  { destruct (existsb (Nat.eqb i) (select m l)) eqn:E; auto.
    apply existsb_eqb_nat_In, select_incl in E; contradiction. }
  assert (Htl : map (fun j => negb (existsb (Nat.eqb j) (if b then i :: select m l else select m l))) l
                = map (fun j => negb (existsb (Nat.eqb j) (select m l))) l).
  { apply map_ext_in; intros j Hj; destruct b; simpl; auto.
    destruct (Nat.eqb_spec j i); [subst; contradiction | reflexivity]. }
  destruct b; simpl in *; rewrite ?Nat.eqb_refl, ?Hnot; simpl; f_equal;
    rewrite <- (IH m) by (auto; lia); exact Htl.
Qed.

(** ** The maximum of a list of counts *)

Lemma fold_left_max_zero (l : list nat) (n : nat) :
  fold_left Nat.max l n = 0 <-> n = 0 /\ Forall (fun k => k = 0) l.
Proof.
  revert n; induction l as [|k l IH]; intros n; simpl.
  - split; [auto | tauto].
  - rewrite IH, Forall_cons_iff; split.
    + intros (H1 & H2); repeat split; auto; lia.
    + intros (H1 & H2 & H3); split; auto; lia.
Qed.

Lemma fold_left_max_ge (l : list nat) (n : nat) :
  n <= fold_left Nat.max l n /\ Forall (fun k => k <= fold_left Nat.max l n) l.
Proof.
  revert n; induction l as [|k l IH]; intros n; simpl; [auto|].
  destruct (IH (Nat.max n k)) as [H1 H2]; split; [lia|constructor; [lia|exact H2]].
Qed.
