(* ===== verification/Cell.v ===== *)
(** * Cells of a data frame

    A cell of the frame [pd.read_csv] builds from [train.csv]
    ([src/house_prices_eda.py], line 12): a missing value, a number, or a
    string of an object column.  pandas stores a missing value as the float
    NaN in a numeric column and in an object column alike; [isnull] is the
    test [DataFrame.isnull] applies cell by cell (lines 131, 132, 165,
    166); [cell_eqb] is value equality as pandas' hashing compares keys,
    [unique_cells] is [pd.unique], and [float_column] tells a column
    without a string (a numeric dtype) from an object column. *)

From S2P Require Import Prelude.

Inductive cell :=
| NaN                 (** a missing value *)
| Num (q : Q)         (** a number of a numeric column *)
| Str (s : string).   (** a value of an object (string) column *)

(** [pd.isnull] on one cell. *)
Definition isnull (c : cell) : bool :=
  match c with
  | NaN => true
  | _ => false
  end.

(** The numeric value of a cell, when it has one. *)
Definition num_of (c : cell) : option Q :=
  match c with
  | Num q => Some q
  | _ => None
  end.

(** A change of unit of SalePrice, [k * price + c] (a uniform deflator
    when [c = 0]), applied to the cells of a column. *)
Definition rescale (k c : Q) (v : list cell) : list cell :=
  map (fun x => match x with Num q => Num (k * q + c) | _ => x end) v.

(** Value equality of two cells, as [pd.unique] and [groupby] compare
    keys: numbers by value, strings by content, NaN equal to NaN. *)
Definition cell_eqb (a b : cell) : bool :=
  match a, b with
  | NaN, NaN => true
  | Num p, Num q => Qeq_bool p q
  | Str s, Str t => String.eqb s t
  | _, _ => false
  end.

(** [pd.unique]: the first occurrence of each value, in order. *)
Fixpoint unique_cells (seen : list cell) (l : list cell) : list cell :=
  match l with
  | [] => []
  | c :: l' =>
      if existsb (cell_eqb c) seen then unique_cells seen l'
      else c :: unique_cells (c :: seen) l'
  end.

(** [np.asarray(values).astype(float)] succeeds: no string in the column. *)
Definition float_column (l : list cell) : bool :=
  forallb (fun c => match c with Str _ => false | _ => true end) l.

Definition cell_eq_dec (a b : cell) : {a = b} + {a <> b}.
Proof.
  decide equality; [|apply string_dec].
  destruct q as [n d], q0 as [n' d'].
  destruct (Z.eq_dec n n'), (Pos.eq_dec d d'); subst;
    [left; reflexivity | right; congruence ..].
Defined.

Lemma float_column_false (l : list cell) : float_column l = false <-> exists t, In (Str t) l.
Proof.
  unfold float_column; split.
  - intros (c & Hc & Hf)%forallb_false_In; destruct c; try discriminate; eauto.
  - intros [t Ht]; apply not_true_iff_false; intros H.
    rewrite forallb_forall in H; specialize (H _ Ht); discriminate.
Qed.

Lemma isnull_true (c : cell) : isnull c = true <-> c = NaN.
Proof. destruct c; simpl; split; congruence. Qed.

Lemma num_of_not_null (c : cell) q : num_of c = Some q -> isnull c = false.
Proof. destruct c; simpl; congruence. Qed.

#[export] Hint Resolve num_of_not_null : eda.
