(* ===== verification/Frame.v ===== *)
(** * The pandas DataFrame the script manipulates

    [df_train] ([src/house_prices_eda.py], line 12) is an index of row
    labels (the [RangeIndex] 0..n-1 that [read_csv] gives it) and an ordered
    list of named columns of cells.  This file models the DataFrame
    operations the script calls, each as pandas defines it:
    - [getitem]: [df['c']] (lines 15, 28, 57, 58, 165), a KeyError when
      the label is absent;
    - [isnull_sum], [isnull_count]: [df.isnull().sum()] and
      [df.isnull().count()] (lines 131, 132, 166);
    - [loc_index]: [df.loc[mask].index] for a boolean mask aligned with the
      index (line 165);
    - [drop_columns]: [df.drop(labels, 1)] (line 164) and [drop_rows]:
      [df.drop(labels)] (line 165); both raise a KeyError naming the labels
      that are not found, and otherwise delete the labelled columns or rows.
    The invariant [wf] (unique row and column labels, every column as long
    as the index) holds of every frame [read_csv] builds and is preserved by
    both drops. *)

From S2P Require Import Prelude Cell.

Module Frame.

Record frame := mkFrame {
  index : list nat;                      (** row labels *)
  columns : list (string * list cell)    (** (label, cells) in column order *)
}.

Definition col_labels (df : frame) : list string := map fst (columns df).

Definition nrows (df : frame) : nat := length (index df).

(** The well-formedness invariant of a frame. *)
Definition wf (df : frame) : Prop :=
  NoDup (index df) /\ NoDup (col_labels df) /\
  Forall (fun c => length (snd c) = nrows df) (columns df).

(** The invariant as a boolean test, to check it on a concrete frame. *)
Definition wfb (df : frame) : bool :=
  nodupb Nat.eqb (index df) && nodupb String.eqb (col_labels df) &&
  forallb (fun c => Nat.eqb (length (snd c)) (nrows df)) (columns df).

Lemma wfb_wf (df : frame) : wfb df = true <-> wf df.
Proof.
  unfold wfb, wf; rewrite !andb_true_iff, forallb_forall, Forall_forall.
  rewrite (nodupb_NoDup Nat.eqb Nat.eqb_eq), (nodupb_NoDup String.eqb String.eqb_eq).
  setoid_rewrite Nat.eqb_eq; tauto.
Qed.

Definition wf_dec (df : frame) : {wf df} + {~ wf df}.
Proof.
  destruct (wfb df) eqn:E; [left | right]; rewrite <- wfb_wf; congruence.
Defined.

(** The column labelled [c], the first one when several share it. *)
Fixpoint find_col (c : string) (cols : list (string * list cell))
  : option (list cell) :=
  match cols with
  | [] => None
  | (l, v) :: cols' => if String.eqb c l then Some v else find_col c cols'
  end.

(** [df[c]] *)
Definition getitem (df : frame) (c : string) : result (list cell) :=
  match find_col c (columns df) with
  | Some v => Ok v
  | None => Err (KeyError [c])
  end.

(** [df.isnull().sum()]: the number of missing cells of each column,
    indexed by the column labels. *)
Definition isnull_sum (df : frame) : list (string * nat) :=
  map (fun lv => (fst lv, countb isnull (snd lv))) (columns df).

(** [df.isnull().count()]: [count] counts the non-missing cells of the
    boolean frame [isnull()], which has none: the length of each column. *)
Definition isnull_count (df : frame) : list (string * nat) :=
  map (fun lv => (fst lv, length (snd lv))) (columns df).

(** [df.loc[mask].index]: the labels of the rows the mask selects. *)
Definition loc_index (df : frame) (mask : list bool) : list nat :=
  select mask (index df).

(** [df.drop(labels, 1)] *)
Definition drop_columns (df : frame) (labels : list string) : result frame :=
  match filter (fun l => negb (existsb (String.eqb l) (col_labels df))) labels with
  | [] =>
      Ok (mkFrame (index df)
            (filter (fun lv => negb (existsb (String.eqb (fst lv)) labels))
               (columns df)))
  | missing => Err (KeyError missing)
  end.

(** The rows [drop_rows] keeps: those whose label is not listed. *)
Definition keep_rows (df : frame) (labels : list nat) : list bool :=
  map (fun i => negb (existsb (Nat.eqb i) labels)) (index df).

(** [df.drop(labels)] along the index *)
Definition drop_rows (df : frame) (labels : list nat) : result frame :=
  match filter (fun l => negb (existsb (Nat.eqb l) (index df))) labels with
  | [] =>
      let keep := keep_rows df labels in
      Ok (mkFrame (select keep (index df))
            (map (fun lv => (fst lv, select keep (snd lv))) (columns df)))
  | missing => Err (KeyErrorRows missing)
  end.

(** [pd.concat([df[l1], df[l2], ...], axis=1)] (lines 47, 52, 63, 70): the
    named columns side by side, the first absent label raising KeyError. *)
Definition concat_columns (df : frame) (labels : list string) : result frame :=
  cols <- fold_right (fun l acc => v <- getitem df l ;; vs <- acc ;; Ok ((l, v) :: vs))
                     (Ok []) labels ;;
  Ok (mkFrame (index df) cols).

(** ** Lemmas on column lookup *)

Lemma find_col_In (c : string) cols v :
  find_col c cols = Some v -> In (c, v) cols.
Proof.
  induction cols as [|[l w] cols IH]; simpl; [discriminate|].
  destruct (String.eqb_spec c l); [intros [= <-]; subst; auto | auto].
Qed.

Lemma find_col_None (c : string) cols :
  find_col c cols = None <-> ~ In c (map fst cols).
Proof.
  induction cols as [|[l w] cols IH]; simpl; [tauto|].
  destruct (String.eqb_spec c l); [subst; split; [discriminate|tauto]|].
  rewrite IH; intuition.
Qed.

(** Looking up a label the drop keeps finds the same column. *)
Lemma find_col_filter (c : string) (p : string -> bool) cols :
  p c = true -> find_col c (filter (fun lv => p (fst lv)) cols) = find_col c cols.
Proof.
  intros Hp; induction cols as [|[l w] cols IH]; simpl; auto.
  destruct (String.eqb_spec c l) as [<-|Hne]; [rewrite Hp; simpl; rewrite String.eqb_refl; auto|].
  destruct (p l); simpl; [apply String.eqb_neq in Hne; rewrite Hne|]; auto.
Qed.

Lemma missing_labels_nil (labels axis : list string) :
  filter (fun l => negb (existsb (String.eqb l) axis)) labels = [] <-> incl labels axis.
Proof. apply missing_nil, String.eqb_eq. Qed.

Lemma missing_rows_nil (labels axis : list nat) :
  filter (fun l => negb (existsb (Nat.eqb l) axis)) labels = [] <-> incl labels axis.
Proof. apply missing_nil, Nat.eqb_eq. Qed.

(** ** Column selection *)

(** [df[c]] returns a column exactly when [c] labels one. *)
Lemma getitem_Ok_iff (df : frame) (c : string) :
  (exists v, getitem df c = Ok v) <-> In c (col_labels df).
Proof.
  unfold getitem, col_labels; destruct (find_col c (columns df)) eqn:E.
  - split; [intros _ | eauto]; apply find_col_In in E.
    apply in_map_iff; exists (c, l); auto.
  - apply find_col_None in E; split; [intros [v Hv]; discriminate | tauto].
Qed.

Lemma getitem_length (df : frame) (c : string) v :
  wf df -> getitem df c = Ok v -> length v = nrows df.
Proof.
  intros (_ & _ & Hlen) H; unfold getitem in H.
  destruct (find_col c (columns df)) eqn:E; inv H.
  apply find_col_In in E; rewrite Forall_forall in Hlen; apply (Hlen _ E).
Qed.

(** ** Dropping columns *)

Lemma drop_columns_Ok (df : frame) (labels : list string) :
  incl labels (col_labels df) ->
  drop_columns df labels =
  Ok (mkFrame (index df)
        (filter (fun lv => negb (existsb (String.eqb (fst lv)) labels)) (columns df))).
Proof. intros H; unfold drop_columns; apply missing_labels_nil in H; rewrite H; auto. Qed.

Lemma drop_columns_Ok_inv (df df' : frame) (labels : list string) :
  drop_columns df labels = Ok df' ->
  incl labels (col_labels df) /\ index df' = index df /\
  columns df' = filter (fun lv => negb (existsb (String.eqb (fst lv)) labels)) (columns df).
Proof.
  unfold drop_columns; destruct (filter _ labels) eqn:E; [|discriminate].
  intros H; inv H; apply missing_labels_nil in E; auto.
Qed.

(** The labels a frame keeps after [drop_columns]. *)
Lemma drop_columns_labels (df df' : frame) (labels : list string) :
  drop_columns df labels = Ok df' ->
  col_labels df' = filter (fun l => negb (existsb (String.eqb l) labels)) (col_labels df).
Proof.
  intros (_ & _ & Hc)%drop_columns_Ok_inv; unfold col_labels; rewrite Hc.
  apply (map_filter_key fst (fun l => negb (existsb (String.eqb l) labels))).
Qed.

Lemma drop_columns_wf (df df' : frame) (labels : list string) :
  wf df -> drop_columns df labels = Ok df' -> wf df'.
Proof.
  intros Hwf H; pose proof (drop_columns_labels _ _ _ H) as Hl.
  apply drop_columns_Ok_inv in H as (_ & Hi & Hc).
  destruct Hwf as (H1 & H2 & H3); unfold wf, nrows in *.
  rewrite Hi, Hl, Hc; auto with eda.
Qed.

(** A column the drop does not name is found unchanged. *)
Lemma drop_columns_find (df df' : frame) (labels : list string) c :
  drop_columns df labels = Ok df' -> ~ In c labels ->
  find_col c (columns df') = find_col c (columns df).
Proof.
  intros (_ & _ & Hcols)%drop_columns_Ok_inv Hc; rewrite Hcols.
  apply (find_col_filter c (fun l => negb (existsb (String.eqb l) labels))).
  destruct (existsb (String.eqb c) labels) eqn:E; auto.
  apply existsb_eqb_string_In in E; contradiction.
Qed.

(** ** Dropping rows *)

Lemma drop_rows_Ok_inv (df df' : frame) (labels : list nat) :
  drop_rows df labels = Ok df' ->
  incl labels (index df) /\ index df' = select (keep_rows df labels) (index df) /\
  columns df' = map (fun lv => (fst lv, select (keep_rows df labels) (snd lv))) (columns df).
Proof.
  unfold drop_rows; destruct (filter _ labels) eqn:E; [|discriminate].
  intros H; inv H; apply missing_rows_nil in E; auto.
Qed.

(** The index after [drop_rows]: the labels not listed, in order. *)
Lemma drop_rows_index (df df' : frame) (labels : list nat) :
  drop_rows df labels = Ok df' ->
  index df' = filter (fun i => negb (existsb (Nat.eqb i) labels)) (index df).
Proof.
  intros (_ & Hi & _)%drop_rows_Ok_inv; rewrite Hi; apply select_map_self.
Qed.

Lemma drop_rows_wf (df df' : frame) (labels : list nat) :
  wf df -> drop_rows df labels = Ok df' -> wf df'.
Proof.
  intros (H1 & H2 & H3) H; apply drop_rows_Ok_inv in H as (_ & Hi & Hc).
  assert (Hk : length (keep_rows df labels) = nrows df)
    by (unfold keep_rows, nrows; apply length_map).
  unfold wf, nrows, col_labels in *; rewrite Hi, Hc, map_map; simpl.
  repeat split; auto with eda.
  rewrite Forall_map; rewrite Forall_forall in *; intros lv Hlv; simpl.
  rewrite !length_select; [reflexivity | ..];
    rewrite Hk; try rewrite (H3 lv Hlv); reflexivity.
Qed.

(** Looking a label up in the columns a filter keeps, labels unique. *)
Lemma find_col_filter_nodup (c : string) (p : string * list cell -> bool) cols :
  NoDup (map fst cols) ->
  find_col c (filter p cols) =
  match find_col c cols with
  | Some v => if p (c, v) then Some v else None
  | None => None
  end.
Proof.
  induction cols as [|[l w] cols IH]; simpl; intros Hnd; auto; inv Hnd.
  destruct (String.eqb_spec c l) as [->|Hne].
  - assert (find_col l cols = None) as Hn by (apply find_col_None; auto).
    destruct (p (l, w)); simpl; [rewrite String.eqb_refl; auto|].
    rewrite IH, Hn; auto.
  - destruct (p (l, w)); simpl; [apply String.eqb_neq in Hne; rewrite Hne|]; auto.
Qed.

(** Dropping the rows a mask on the frame's own index selects. *)
Lemma drop_rows_loc (df : frame) (mask : list bool) :
  NoDup (index df) -> length mask = nrows df ->
  drop_rows df (loc_index df mask) =
  Ok (mkFrame (select (map negb mask) (index df))
        (map (fun lv => (fst lv, select (map negb mask) (snd lv))) (columns df))).
Proof.
  intros Hnd Hlen; unfold drop_rows.
  assert (incl (loc_index df mask) (index df)) as Hincl
    by (intros x; apply select_incl).
  apply missing_rows_nil in Hincl; rewrite Hincl.
  unfold keep_rows, loc_index; rewrite select_labels_mask; auto.
Qed.

(** ** Selecting columns side by side *)

Lemma concat_columns_Ok_inv (df df' : frame) (labels : list string) :
  concat_columns df labels = Ok df' ->
  index df' = index df /\ map fst (columns df') = labels /\
  Forall (fun lv => getitem df (fst lv) = Ok (snd lv)) (columns df').
Proof.
  unfold concat_columns; intros H; bind_inv H; inv H; simpl.
  revert a Ha; induction labels as [|l ls IH]; intros cols Hc; simpl in Hc.
  - inv Hc; auto.
  - bind_inv Hc; bind_inv Hc; inv Hc.
    destruct (IH _ Ha0) as (_ & H1 & H2); simpl; rewrite H1; auto.
Qed.

(** The frame built for a scatter or box plot is well formed when its
    labels are distinct. *)
Lemma concat_columns_wf (df df' : frame) (labels : list string) :
  wf df -> NoDup labels -> concat_columns df labels = Ok df' -> wf df'.
Proof.
  intros Hwf Hnd H; destruct (concat_columns_Ok_inv _ _ _ H) as (Hi & Hl & Hc).
  pose proof Hwf as (H1 & _ & _); unfold wf, col_labels, nrows; rewrite Hi, Hl.
  repeat split; auto; rewrite Forall_forall in *; intros lv Hlv.
  exact (getitem_length df _ _ Hwf (Hc lv Hlv)).
Qed.

End Frame.
