(* ===== verification/ReadCsv.v ===== *)
(** * Loading the training table: [pd.read_csv('train.csv')] (line 12)

    The only live statement of [src/house_prices_eda.py] reads the
    training table with pandas' C parser and its defaults: comma
    separator, the first line as header, a [RangeIndex], blank lines
    skipped, the default NA strings, and the type of each column inferred
    from its fields.  This file models that call on the text of the file
    (pandas 1.5):
    - [normalize_eol], [lines_of]: the tokenizer's lines, ended by LF, CR
      or CRLF, with their 1-based numbers; empty lines and lines of spaces
      and tabs are skipped ([blank_line]);
    - [split_on]: the fields of a line;
    - [is_na]: pandas 1.x's default NA strings ([STR_NA_VALUES]);
    - [parse_number]: the C parser's number syntax ([xstrtod]): blanks
      around, an optional sign, digits with an optional decimal point, an
      optional exponent; the value is an exact rational;
    - [infer_column]: a column of numbers (and NaN) when every present
      field is a number, a column of strings (and NaN) otherwise;
    - [dedup_names]: the header labels as [TextReader._get_header] makes
      them: an empty field named ["Unnamed: i"], then, the named columns
      first ([col_loop_order]), a label already assigned gets the first
      suffix [.k] that is not in the header ([mangle], the [while] loop,
      on fuel), so ["a"; "a"; "a.1"] gives ["a"; "a.2"; "a.1"];
    - [read_csv]: the frame, [EmptyDataError] on a file without a line,
      [ParserError] on the first row with more fields than the header;
      shorter rows are padded with NaN.
    [modelled_file] is the domain of the theorems: no quote character, no
    field [True]/[False] (pandas' boolean literals) or infinity spelling,
    and a first data line no wider than the header.  Outside it pandas
    parses quotes, infers [bool] and [inf] columns, and takes the leading
    fields of a wider first line as the index; the model does none of
    these.  [to_csv] writes a frame out for the round trip. *)

From Stdlib Require Import Ascii ZArith Decimal DecimalString DecimalZ DecimalNat.
From S2P Require Import Prelude Cell Frame.

Module ReadCsv.
Import Frame.

(** ** Lines and fields *)

(** [s.split(sep)]: every separator splits, an empty string gives one
    empty field. *)
Fixpoint split_on (sep : Ascii.ascii) (s : string) : list string :=
  match s with
  | EmptyString => [EmptyString]
  | String c s' =>
      let ws := split_on sep s' in
      if Ascii.eqb c sep then EmptyString :: ws
      else match ws with
           | w :: ws' => String c w :: ws'
           | [] => [String c EmptyString]
           end
  end.

Definition newline : Ascii.ascii := Ascii.ascii_of_nat 10.
Definition cr : Ascii.ascii := Ascii.ascii_of_nat 13.
Definition comma : Ascii.ascii := ","%char.

Definition is_blank (c : Ascii.ascii) : bool :=
  Ascii.eqb c " "%char || Ascii.eqb c (Ascii.ascii_of_nat 9).

(** The C tokenizer's line terminators: LF, CR, or CR followed by LF, each
    read as one LF. *)
Fixpoint normalize_eol (s : string) : string :=
  match s with
  | EmptyString => EmptyString
  | String c s' =>
      if Ascii.eqb c cr then
        match s' with
        | String d s'' =>
            if Ascii.eqb d newline then String newline (normalize_eol s'')
            else String newline (normalize_eol s')
        | EmptyString => String newline EmptyString
        end
      else String c (normalize_eol s')
  end.

(** A line the tokenizer skips with [skip_blank_lines=True]: empty, or
    spaces and tabs only (its [WHITESPACE_LINE] state). *)
Definition blank_line (s : string) : bool := forallb is_blank (list_ascii_of_string s).

(** The lines of the file that are not blank, with their line numbers. *)
Definition lines_of (text : string) : list (nat * string) :=
  filter (fun p => negb (blank_line (snd p)))
    (let ls := split_on newline (normalize_eol text) in combine (seq 1 (length ls)) ls).

(** ** Fields as values *)

(** pandas 1.x's [STR_NA_VALUES] (["None"] joined them in pandas 2.0). *)
Definition na_values : list string :=
  ["-1.#IND"; "1.#QNAN"; "1.#IND"; "-1.#QNAN"; "#N/A N/A"; "#N/A"; "N/A"; "n/a";
   "NA"; "<NA>"; "#NA"; "NULL"; "null"; "NaN"; "-NaN"; "nan"; "-nan"; ""]%string.

Definition is_na (s : string) : bool := existsb (String.eqb s) na_values.

Fixpoint trim_left (s : string) : string :=
  match s with
  | String c s' => if is_blank c then trim_left s' else s
  | EmptyString => EmptyString
  end.

Definition trim (s : string) : string :=
  string_of_list_ascii (rev (list_ascii_of_string (trim_left
    (string_of_list_ascii (rev (list_ascii_of_string (trim_left s))))))).

Definition is_digit (c : Ascii.ascii) : bool :=
  let n := Ascii.nat_of_ascii c in Nat.leb 48 n && Nat.leb n 57.

(** The longest prefix of digits and the rest. *)
Fixpoint span_digits (s : string) : string * string :=
  match s with
  | String c s' =>
      if is_digit c then let '(d, r) := span_digits s' in (String c d, r)
      else (EmptyString, s)
  | EmptyString => (EmptyString, EmptyString)
  end.

(** The value of a string of digits (empty: 0). *)
Definition digits_value (d : string) : Z :=
  match NilEmpty.uint_of_string d with Some u => Z.of_uint u | None => 0%Z end.

(** [m * 10^(e - nfrac)] as a fraction. *)
Definition decimal_value (neg : bool) (digits : string) (nfrac : nat) (e : Z) : Q :=
  let m := digits_value digits in
  let m := if neg then Z.opp m else m in
  match (Z.of_nat nfrac - e)%Z with
  | Z0 => Qmake m 1
  | Zpos p => Qmake m (Pos.pow 10 p)
  | Zneg p => Qmake (m * Z.pow 10 (Zpos p)) 1
  end.

(** An optional sign. *)
Definition sign_of (s : string) : bool * string :=
  match s with
  | String c r =>
      if Ascii.eqb c "-"%char then (true, r)
      else if Ascii.eqb c "+"%char then (false, r) else (false, s)
  | EmptyString => (false, EmptyString)
  end.

(** The exponent part: empty, or [e]/[E], a sign and at least one digit. *)
Definition parse_exp (s : string) : option Z :=
  match s with
  | EmptyString => Some 0%Z
  | String c r =>
      if Ascii.eqb c "e"%char || Ascii.eqb c "E"%char then
        let '(neg, r1) := sign_of r in
        let '(d, r2) := span_digits r1 in
        if String.eqb d EmptyString || negb (String.eqb r2 EmptyString) then None
        else Some (if neg then Z.opp (digits_value d) else digits_value d)
      else None
  end.

(** The C parser's [xstrtod] on a whole field. *)
Definition parse_number (field : string) : option Q :=
  let '(neg, s1) := sign_of (trim field) in
  let '(ip, s2) := span_digits s1 in
  let '(fp, s3) :=
    match s2 with
    | String c r => if Ascii.eqb c "."%char then span_digits r else (EmptyString, s2)
    | EmptyString => (EmptyString, EmptyString)
    end in
  if String.eqb ip EmptyString && String.eqb fp EmptyString then None
  else match parse_exp s3 with
       | Some e => Some (decimal_value neg (ip ++ fp) (String.length fp) e)
       | None => None
       end.

(** A field of a row: [None] where a short row is padded. *)
Definition numeric_field (f : option string) : bool :=
  match f with
  | None => true
  | Some s => is_na s || match parse_number s with Some _ => true | None => false end
  end.

(** The dtype inference of the C parser for one column. *)
Definition infer_column (fs : list (option string)) : list cell :=
  if forallb numeric_field fs then
    map (fun f => match f with
                  | Some s => if is_na s then NaN
                              else match parse_number s with Some q => Num q | None => NaN end
                  | None => NaN
                  end) fs
  else
    map (fun f => match f with
                  | Some s => if is_na s then NaN else Str s
                  | None => NaN
                  end) fs.

(** ** Column labels *)

Definition string_of_nat (n : nat) : string := NilZero.string_of_uint (Nat.to_uint n).

(** An empty header field is named ["Unnamed: i"]. *)
Definition unnamed (names : list string) : list string :=
  map (fun p => if String.eqb (snd p) EmptyString
                then ("Unnamed: " ++ string_of_nat (fst p))%string else snd p)
      (combine (seq 0 (length names)) names).

(** [counts.get(c, 0)] of the header loop, a dict kept as an association
    list, the newest binding first. *)
Fixpoint count_of (c : string) (counts : list (string * nat)) : nat :=
  match counts with
  | [] => 0
  | (k, v) :: r => if String.eqb k c then v else count_of c r
  end.

(** [col in this_header] *)
Definition mem (c : string) (l : list string) : bool := existsb (String.eqb c) l.

(** [f"{old_col}.{cur_count}"] *)
Definition suffixed (old : string) (k : nat) : string := (old ++ "." ++ string_of_nat k)%string.

(** The [while cur_count > 0] loop of the C parser's header (pandas 1.5,
    [TextReader._get_header]): [counts[old_col] = cur_count + 1], the
    candidate [old_col.cur_count], then [cur_count += 1] when the candidate
    is in [this_header], [counts.get(col, 0)] otherwise.  [fuel] bounds the
    iterations; [length header + 2] is enough ([mangle_fresh]). *)
Fixpoint mangle (fuel : nat) (header : list string) (old col : string) (cur : nat)
  (counts : list (string * nat)) : string * nat * list (string * nat) :=
  match fuel with
  | O => (col, cur, counts)
  | S f =>
      if Nat.eqb cur 0 then (col, cur, counts)
      else
        let counts := (old, S cur) :: counts in
        let col := suffixed old cur in
        if mem col header then mangle f header old col (S cur) counts
        else mangle f header old col (count_of col counts) counts
  end.

(** [for i in col_loop_order]: the label at [i] is mangled against the
    header as it stands, [this_header[i] = col], [counts[col] = cur_count + 1]. *)
Fixpoint dedup_order (fuel : nat) (order : list nat) (header : list string)
  (counts : list (string * nat)) : list string :=
  match order with
  | [] => header
  | i :: rest =>
      let old := nth i header EmptyString in
      let '(col, cur, counts') := mangle fuel header old old (count_of old counts) counts in
      dedup_order fuel rest (set_nth i col header) ((col, S cur) :: counts')
  end.

(** [col_loop_order]: the named columns first, then the unnamed ones, so
    that given names are kept and unnamed columns mangled. *)
Definition col_loop_order (fields : list string) : list nat :=
  let ix := seq 0 (length fields) in
  filter (fun i => negb (String.eqb (nth i fields EmptyString) EmptyString)) ix ++
  filter (fun i => String.eqb (nth i fields EmptyString) EmptyString) ix.

(** The column labels pandas' C parser makes of the header fields. *)
Definition dedup_names (fields : list string) : list string :=
  dedup_order (length fields + 2) (col_loop_order fields) (unnamed fields) [].

(** ** Printing a frame back (the oracle of the round trip) *)

(** An integer as [str(int)] prints it. *)
Definition print_int (z : Z) : string := NilZero.string_of_int (Z.to_int z).

(** A cell as [DataFrame.to_csv] writes it: NaN as an empty field; a
    number is printed by its numerator, so only integral values are meant. *)
Definition print_cell (c : cell) : string :=
  match c with
  | NaN => EmptyString
  | Num q => print_int (Qnum q)
  | Str s => s
  end.

Fixpoint join (sep : Ascii.ascii) (ws : list string) : string :=
  match ws with
  | [] => EmptyString
  | [w] => w
  | w :: ws' => (w ++ String sep (join sep ws'))%string
  end.

Definition row_fields (df : frame) (i : nat) : list string :=
  map (fun c => print_cell (nth i (snd c) NaN)) (columns df).

Definition file_of (ls : list string) : string :=
  fold_right (fun l acc => (l ++ String newline acc)%string) EmptyString ls.

(** The file a frame is written to, as [df.to_csv(index=False)] writes it:
    the header, one line per row, each line ended by a newline, fields
    unquoted; an integral number is printed as an integer ([to_csv]
    prints [1.0] in a float64 column, which reads back to the same value). *)
Definition to_csv (df : frame) : string :=
  file_of (join comma (col_labels df) ::
           map (fun i => join comma (row_fields df i)) (seq 0 (nrows df))).

Definition has_char (c : Ascii.ascii) (s : string) : bool :=
  existsb (Ascii.eqb c) (list_ascii_of_string s).

(** The quote character of the tokenizer, the double quote. *)
Definition quote : Ascii.ascii := Ascii.ascii_of_nat 34.

(** The default [true_values] and [false_values] of the C parser. *)
Definition bool_literal (s : string) : bool :=
  existsb (String.eqb s) ["True"; "TRUE"; "true"; "False"; "FALSE"; "false"]%string.

Definition lower (c : Ascii.ascii) : Ascii.ascii :=
  let n := Ascii.nat_of_ascii c in
  if Nat.leb 65 n && Nat.leb n 90 then Ascii.ascii_of_nat (n + 32) else c.

(** The spellings of an infinite float [_try_double] accepts, compared
    ignoring case. *)
Definition inf_spelling (s : string) : bool :=
  existsb (String.eqb (string_of_list_ascii (map lower (list_ascii_of_string s))))
    ["inf"; "+inf"; "-inf"; "infinity"; "+infinity"; "-infinity"]%string.

(** What the round trip needs of a frame: labels and strings that the
    printer writes without a separator, a line end, a quote or an NA
    string; integral numbers a float64 holds exactly (at most 2^53 in
    absolute value); a column of strings holds one that pandas reads as
    neither a number, an infinity nor a boolean (else it would not be read
    back as strings). *)
Definition plain (s : string) : bool :=
  negb (has_char comma s) && negb (has_char newline s) && negb (has_char cr s) &&
  negb (has_char quote s).

Definition int_cell (c : cell) : bool :=
  match c with
  | NaN => true
  | Num q => Pos.eqb (Qden q) 1 && Z.leb (Z.abs (Qnum q)) (2 ^ 53)
  | Str _ => false
  end.

Definition text_cell (c : cell) : bool :=
  match c with NaN => true | Num _ => false | Str s => negb (is_na s) && plain s end.

Definition printable_column (v : list cell) : bool :=
  forallb int_cell v ||
  (forallb text_cell v &&
   existsb (fun c => match c with
                     | Str s => negb (numeric_field (Some s)) && negb (bool_literal s) && negb (inf_spelling s)
                     | _ => false
                     end) v).

Definition printable_label (l : string) : bool := negb (String.eqb l EmptyString) && plain l.

(** ** The parser *)

(** A row padded to [n] fields. *)
Definition pad (n : nat) (fields : list string) : list (option string) :=
  map Some fields ++ repeat None (n - length fields).

(** The first row with more fields than the header. *)
Fixpoint find_long (n : nat) (rows : list (nat * string)) : option (nat * nat) :=
  match rows with
  | [] => None
  | (ln, r) :: rows' =>
      let m := length (split_on comma r) in
      if Nat.ltb n m then Some (ln, m) else find_long n rows'
  end.

(** Field [j] of a line is missing: an NA string, or absent from a short
    line. *)
Definition field_missing (j : nat) (line : string) : bool :=
  match nth_error (split_on comma line) j with
  | None => true
  | Some s => is_na s
  end.

(** ** The dtype of a column *)

(** The dtypes the C parser gives a column: [float64] (or [int64]) when
    every field is a number or missing, [object] otherwise. *)
Inductive dtype := Float64 | Object.

(** A cell a column of dtype [t] holds: NaN in either. *)
Definition cell_fits (t : dtype) (c : cell) : bool :=
  match t, c with
  | _, NaN => true
  | Float64, Num _ => true
  | Object, Str _ => true
  | _, _ => false
  end.

(** Field [j] of a line is numeric for the parser: absent, an NA string
    or a number. *)
Definition field_numeric (j : nat) (line : string) : bool :=
  numeric_field (nth_error (split_on comma line) j).

(** The dtype [infer_column] gives column [j] of the data lines. *)
Definition column_dtype (j : nat) (rows : list (nat * string)) : dtype :=
  if forallb (fun r => field_numeric j (snd r)) rows then Float64 else Object.

Definition read_csv (text : string) : result frame :=
  match lines_of text with
  | [] => Err EmptyDataError
  | (_, header) :: rows =>
      let names := dedup_names (split_on comma header) in
      let n := length names in
      match find_long n rows with
      | Some (ln, m) => Err (ParserError ln n m)
      | None =>
          let recs := map (fun r => pad n (split_on comma (snd r))) rows in
          let cols := map (fun j => infer_column (map (fun r => nth j r None) recs))
                          (seq 0 n) in
          Ok (mkFrame (seq 0 (length rows)) (combine names cols))
      end
  end.

(** The files whose reading by [pd.read_csv] the model follows: no quote
    character (the tokenizer would parse quoted fields, which may hold a
    separator or a line end), no data field pandas reads as a boolean or an
    infinite float ([_try_bool_flex], the infinities of [_try_double]), and
    a first data line no wider than the header (a wider one makes pandas
    take its leading fields as the index). *)
Definition modelled_file (text : string) : bool :=
  negb (has_char quote text) &&
  match lines_of text with
  | [] => true
  | (_, header) :: rows =>
      match rows with
      | [] => true
      | (_, r) :: _ => Nat.leb (length (split_on comma r)) (length (split_on comma header))
      end &&
      forallb (fun r => forallb (fun f => negb (bool_literal f || inf_spelling f))
                                (split_on comma (snd r))) rows
  end.

(** ** Unique labels: the header loop ends and its labels are distinct *)

Lemma mem_In c l : mem c l = true <-> In c l.
Proof. apply existsb_eqb_string_In. Qed.

Lemma append_cancel (s a b : string) : (s ++ a)%string = (s ++ b)%string -> a = b.
Proof. induction s as [|c s IH]; simpl; [auto|]; intros [= E]; auto. Qed.

Lemma revapp_Nil (d d' : uint) : revapp d d' = Nil -> d = Nil /\ d' = Nil.
Proof. revert d'; induction d; intros d' H; simpl in H; auto; apply IHd in H as [_ H]; discriminate. Qed.

Lemma little_succ_nonnil (d : uint) : Little.succ d <> Nil.
Proof. induction d; simpl; congruence. Qed.

Lemma to_little_uint_nonnil (n : nat) acc : acc <> Nil -> Nat.to_little_uint n acc <> Nil.
Proof. revert acc; induction n as [|n IH]; intros acc Ha; simpl; [exact Ha|apply IH, little_succ_nonnil]. Qed.

Lemma to_uint_nonnil (n : nat) : Nat.to_uint n <> Nil.
Proof.
  unfold Nat.to_uint, rev; intros E%revapp_Nil; destruct E as [E _].
  exact (to_little_uint_nonnil n zero ltac:(discriminate) E).
Qed.

Lemma string_of_nat_inj (a b : nat) : string_of_nat a = string_of_nat b -> a = b.
Proof.
  unfold string_of_nat; intros E.
  assert (Ea := NilZero.usu _ (to_uint_nonnil a)); assert (Eb := NilZero.usu _ (to_uint_nonnil b)).
  rewrite E, Eb in Ea; injection Ea as Ea.
  rewrite <- (Unsigned.of_to a), <- (Unsigned.of_to b), Ea; reflexivity.
Qed.

Lemma suffixed_inj (old : string) a b : suffixed old a = suffixed old b -> a = b.
Proof. unfold suffixed; intros E%append_cancel; injection E as E; apply string_of_nat_inj, E. Qed.

Lemma suffixed_neq (old : string) k : suffixed old k <> old.
Proof.
  unfold suffixed; intros E; apply (f_equal String.length) in E.
  rewrite string_length_append in E; simpl in E; lia.
Qed.

Definition counts_for (A : list string) (counts : list (string * nat)) : Prop :=
  forall c, 0 < count_of c counts <-> In c A.

Lemma counts_for_bump A counts old n :
  counts_for A counts -> In old A -> 0 < n -> counts_for A ((old, n) :: counts).
Proof.
  intros H Ho Hn c; simpl; destruct (String.eqb_spec old c) as [<-|_]; [split; auto|apply H].
Qed.

Lemma counts_for_add A counts col :
  counts_for A counts -> counts_for (A ++ [col]) ((col, 1) :: counts).
Proof.
  intros H c; simpl; rewrite in_app_iff; simpl.
  destruct (String.eqb_spec col c) as [<-|Hne]; [split; auto; lia|].
  rewrite (H c); split; [auto|intros [Hc|[E|[]]]; [exact Hc|congruence]].
Qed.

Section Mangle.
Variables (h A : list string) (old : string).
Hypothesis HA : incl A h.

(** Some suffix [old.k], [k] from [cur] on, is not a label of the header:
    there are more candidates than labels. *)
Lemma first_absent cur :
  exists j, j <= length h /\ (forall k, k < j -> mem (suffixed old (cur + k)) h = true) /\
    mem (suffixed old (cur + j)) h = false.
Proof.
  apply (least_false (fun k => mem (suffixed old (cur + k)) h)).
  destruct (forallb (fun k => mem (suffixed old (cur + k)) h) (seq 0 (S (length h)))) eqn:F.
  - exfalso; rewrite forallb_forall in F.
    assert (Hnd : NoDup (map (fun k => suffixed old (cur + k)) (seq 0 (S (length h))))).
    { apply Finite.Injective_map_NoDup; [|apply seq_NoDup].
      intros a b E%suffixed_inj; lia. }
    assert (Hi : incl (map (fun k => suffixed old (cur + k)) (seq 0 (S (length h)))) h)
      by (intros x (k & <- & Hk)%in_map_iff; apply mem_In, F, Hk).
    pose proof (NoDup_incl_length Hnd Hi) as Hl; rewrite length_map, length_seq in Hl; lia.
  - apply forallb_false_In in F as (k & Hk%in_seq & Hm); exists k; split; [lia|exact Hm].
Qed.

Hypothesis Hold : In old A.

Lemma mangle_steps j : forall cur counts f col,
  counts_for A counts -> 0 < cur ->
  (forall k, k < j -> mem (suffixed old (cur + k)) h = true) ->
  mem (suffixed old (cur + j)) h = false -> j + 2 <= f ->
  exists counts', mangle f h old col cur counts = (suffixed old (cur + j), 0, counts') /\
    counts_for A counts'.
Proof.
  induction j as [|j IH]; intros cur counts [|f] col Hc Hcur Hin Hout Hf; try lia; cbn [mangle];
    destruct (Nat.eqb_spec cur 0) as [|_]; try lia;
    pose proof (counts_for_bump A counts old (S cur) Hc Hold ltac:(lia)) as Hc1.
  - rewrite Nat.add_0_r in Hout |- *; rewrite Hout.
    assert (E : count_of (suffixed old cur) ((old, S cur) :: counts) = 0).
    { destruct (count_of _ _) eqn:E; [reflexivity|].
      assert (Hi : In (suffixed old cur) A) by (apply Hc1; lia).
      apply HA, mem_In in Hi; congruence. }
    rewrite E; destruct f as [|f]; [lia|]; cbn [mangle Nat.eqb]; eauto.
  - pose proof (Hin 0 ltac:(lia)) as H0; rewrite Nat.add_0_r in H0; rewrite H0.
    destruct (IH (S cur) _ f (suffixed old cur) Hc1 ltac:(lia)) as (counts' & E & H');
      [intros k Hk; replace (S cur + k) with (cur + S k) by lia; apply Hin; lia
      |replace (S cur + j) with (cur + S j) by lia; exact Hout|lia|].
    exists counts'; rewrite E; replace (S cur + j) with (cur + S j) by lia; auto.
Qed.

End Mangle.

(** The label a duplicate receives is new, and the counts still record the
    labels assigned. *)
Lemma mangle_fresh (h A : list string) old counts f :
  incl A h -> counts_for A counts -> length h + 2 <= f ->
  let '(col, cur, counts') := mangle f h old old (count_of old counts) counts in
  ~ In col A /\ cur = 0 /\ counts_for A counts'.
Proof.
  intros HA Hc Hf.
  destruct (count_of old counts) as [|n] eqn:E.
  - destruct f as [|f]; [lia|]; cbn; split; [|auto].
    intros Hin; apply Hc in Hin; lia.
  - assert (Hold : In old A) by (apply Hc; lia).
    destruct (first_absent h old (S n)) as (j & Hj & Hin & Hout).
    destruct (mangle_steps h A old HA Hold j (S n) counts f old Hc ltac:(lia) Hin Hout ltac:(lia))
      as (counts' & -> & Hc').
    split; [|auto]; intros Hi; apply HA, mem_In in Hi; congruence.
Qed.

Definition pnames (h : list string) (P : list nat) : list string :=
  map (fun i => nth i h EmptyString) P.

Lemma pnames_set_nth h P i x : ~ In i P -> pnames (set_nth i x h) P = pnames h P.
Proof.
  intros Hi; apply map_ext_in; intros j Hj; apply nth_set_nth_neq; congruence.
Qed.

Lemma pnames_incl h P : (forall i, In i P -> i < length h) -> incl (pnames h P) h.
Proof. intros H x (i & <- & Hi)%in_map_iff; apply nth_In, H, Hi. Qed.

Lemma dedup_order_spec f order : forall h P counts,
  NoDup (pnames h P) -> counts_for (pnames h P) counts ->
  NoDup (P ++ order) -> (forall i, In i (P ++ order) -> i < length h) -> length h + 2 <= f ->
  length (dedup_order f order h counts) = length h /\
  NoDup (pnames (dedup_order f order h counts) (P ++ order)).
Proof.
  induction order as [|i rest IH]; intros h P counts Hnd Hc HP Hb Hf; cbn [dedup_order];
    [rewrite app_nil_r in *; auto|].
  assert (HiP : ~ In i P) by (intros Hi; apply NoDup_remove_2 in HP; apply HP, in_app_iff; left; exact Hi).
  assert (Hi : i < length h) by (apply Hb, in_app_iff; right; left; reflexivity).
  pose proof (mangle_fresh h (pnames h P) (nth i h EmptyString) counts f
                (pnames_incl h P (fun j Hj => Hb j (in_or_app _ _ _ (or_introl Hj)))) Hc Hf) as Hm.
  destruct (mangle f h _ _ _ counts) as [[col cur] counts'] eqn:E.
  destruct Hm as (Hnew & -> & Hc').
  assert (Hp : pnames (set_nth i col h) (P ++ [i]) = pnames h P ++ [col]).
  { unfold pnames; rewrite map_app; cbn [map]; fold (pnames (set_nth i col h) P).
    rewrite pnames_set_nth, nth_set_nth_eq by assumption; reflexivity. }
  replace (P ++ i :: rest) with ((P ++ [i]) ++ rest) in * by (rewrite <- app_assoc; reflexivity).
  assert (Hnd1 : NoDup (pnames (set_nth i col h) (P ++ [i])))
    by (rewrite Hp; apply (Permutation_NoDup (Permutation_cons_append _ _)); constructor; assumption).
  assert (Hc1 : counts_for (pnames (set_nth i col h) (P ++ [i])) ((col, 1) :: counts'))
    by (rewrite Hp; apply counts_for_add, Hc').
  destruct (IH _ _ _ Hnd1 Hc1 HP ltac:(intros j Hj; rewrite length_set_nth; auto)
              ltac:(rewrite length_set_nth; exact Hf)) as [Hl Hr].
  rewrite length_set_nth in Hl; auto.
Qed.

Lemma dedup_order_id f order : forall h P counts,
  NoDup h -> counts_for (pnames h P) counts ->
  NoDup (P ++ order) -> (forall i, In i (P ++ order) -> i < length h) -> 1 <= f ->
  dedup_order f order h counts = h.
Proof.
  induction order as [|i rest IH]; intros h P counts Hnd Hc HP Hb Hf; cbn [dedup_order]; [reflexivity|].
  assert (HiP : ~ In i P) by (intros Hi; apply NoDup_remove_2 in HP; apply HP, in_app_iff; left; exact Hi).
  assert (Hi : i < length h) by (apply Hb, in_app_iff; right; left; reflexivity).
  assert (E0 : count_of (nth i h EmptyString) counts = 0).
  { destruct (count_of _ counts) eqn:E; [reflexivity|exfalso].
    assert (Hin : In (nth i h EmptyString) (pnames h P)) by (apply Hc; lia).
    apply in_map_iff in Hin as (j & Ej & Hj).
    apply HiP; rewrite <- (proj1 (NoDup_nth h EmptyString) Hnd j i); auto.
    apply Hb, in_app_iff; left; exact Hj. }
  rewrite E0; destruct f as [|f]; [lia|]; cbn [mangle Nat.eqb].
  rewrite set_nth_same; replace (P ++ i :: rest) with ((P ++ [i]) ++ rest) in * by (rewrite <- app_assoc; reflexivity).
  apply (IH h (P ++ [i])); auto.
  unfold pnames; rewrite map_app; apply counts_for_add, Hc.
Qed.

Lemma col_loop_order_perm fields : Permutation (seq 0 (length fields)) (col_loop_order fields).
Proof.
  unfold col_loop_order; rewrite (perm_filter_split (fun i => negb (String.eqb (nth i fields EmptyString) EmptyString))) at 1.
  apply Permutation_app_head; erewrite filter_ext; [reflexivity|]; intros i; apply negb_involutive.
Qed.

Lemma unnamed_length names : length (unnamed names) = length names.
Proof. unfold unnamed; rewrite length_map, length_combine, length_seq; lia. Qed.

Lemma unnamed_id (names : list string) :
  Forall (fun l => l <> EmptyString) names -> unnamed names = names.
Proof.
  intros H; unfold unnamed.
  transitivity (map snd (combine (seq 0 (length names)) names));
    [|apply map_snd_combine; rewrite length_seq; reflexivity].
  apply map_ext_in; intros [i l] Hin; simpl.
  apply in_combine_r in Hin; rewrite Forall_forall in H.
  destruct (String.eqb_spec l EmptyString); [exfalso; apply (H l Hin); assumption|reflexivity].
Qed.

Lemma dedup_names_spec (fields : list string) :
  NoDup (dedup_names fields) /\ length (dedup_names fields) = length fields /\
  (NoDup (unnamed fields) -> dedup_names fields = unnamed fields).
Proof.
  pose proof (col_loop_order_perm fields) as Hperm.
  assert (Hc0 : counts_for (pnames (unnamed fields) []) []) by (intros c; simpl; split; [lia|intros []]).
  assert (Hnd : NoDup ([] ++ col_loop_order fields))
    by (apply (Permutation_NoDup Hperm), seq_NoDup).
  assert (Hb : forall i, In i ([] ++ col_loop_order fields) -> i < length (unnamed fields)).
  { intros i Hi; apply (Permutation_in _ (Permutation_sym Hperm)), in_seq in Hi.
    rewrite unnamed_length; lia. }
  destruct (dedup_order_spec (length fields + 2) (col_loop_order fields) (unnamed fields) [] []
              ltac:(constructor) Hc0 Hnd Hb ltac:(rewrite unnamed_length; lia)) as [Hl Hr].
  fold (dedup_names fields) in Hl, Hr; rewrite unnamed_length in Hl.
  split; [|split; [exact Hl|intros Hu; apply (dedup_order_id _ _ _ []); auto; lia]].
  cbn [app] in Hr; unfold pnames in Hr.
  apply (Permutation_NoDup (Permutation_map _ (Permutation_sym Hperm))) in Hr.
  rewrite <- Hl in Hr.
  pose proof (map_nth_seq (fun x => x) (dedup_names fields) EmptyString) as E; rewrite map_id in E.
  cbv beta in E; rewrite E in Hr; exact Hr.
Qed.

(** ** The frame read_csv builds *)

Lemma infer_column_length fs : length (infer_column fs) = length fs.
Proof. unfold infer_column; destruct forallb; apply length_map. Qed.

Lemma read_csv_Ok_inv (text : string) df :
  read_csv text = Ok df ->
  exists ln header rows,
    lines_of text = (ln, header) :: rows /\
    find_long (length (dedup_names (split_on comma header))) rows = None /\
    index df = seq 0 (length rows) /\
    col_labels df = dedup_names (split_on comma header) /\
    Forall (fun c => length (snd c) = length rows) (columns df).
Proof.
  unfold read_csv; destruct (lines_of text) as [|[ln header] rows]; [discriminate|].
  destruct find_long as [[l m]|] eqn:F; [discriminate|]; intros [= <-].
  exists ln, header, rows; repeat split; auto; simpl.
  - unfold col_labels; simpl; apply map_fst_combine; rewrite length_map, length_seq; reflexivity.
  - apply Forall_forall; intros [l c] Hin; simpl.
    apply in_combine_r, in_map_iff in Hin as (j & <- & _).
    rewrite infer_column_length, !length_map; reflexivity.
Qed.


Lemma header_width header :
  length (dedup_names (split_on comma header)) = length (split_on comma header).
Proof. apply dedup_names_spec. Qed.

(** [find_long] finds the first row wider than the header. *)
Lemma find_long_Some n rows ln m :
  find_long n rows = Some (ln, m) <->
  exists pre r post, rows = pre ++ (ln, r) :: post /\
    Forall (fun p => length (split_on comma (snd p)) <= n) pre /\
    n < m /\ length (split_on comma r) = m.
Proof.
  induction rows as [|[l r] rows IH]; simpl.
  - split; [discriminate|intros ([|] & ? & ? & ? & _); discriminate].
  - destruct (Nat.ltb_spec n (length (split_on comma r))) as [Hlt|Hge].
    + split; [intros [= <- <-]; exists [], r, rows; auto|].
      intros ([|[l' r'] pre] & r0 & post & E & Hpre & Hnm & Hm); [inv E; auto|].
      inv E; inv Hpre; simpl in *; lia.
    + rewrite IH; split.
      * intros (pre & r0 & post & -> & Hpre & Hnm & Hm).
        exists ((l, r) :: pre), r0, post; simpl; auto.
      * intros ([|[l' r'] pre] & r0 & post & E & Hpre & Hnm & Hm); inv E; [lia|].
        inv Hpre; exists pre, r0, post; auto.
Qed.

Lemma find_long_None n rows :
  find_long n rows = None <-> Forall (fun p => length (split_on comma (snd p)) <= n) rows.
Proof.
  induction rows as [|[l r] rows IH]; simpl; [split; auto|].
  rewrite Forall_cons_iff, <- IH; simpl.
  destruct (Nat.ltb_spec n (length (split_on comma r))); split; intros Hf; try discriminate; try lia; tauto.
Qed.

(** The frame read from any text is well formed. *)
Lemma read_csv_Ok_wf (text : string) df : read_csv text = Ok df -> wf df.
Proof.
  intros H; destruct (read_csv_Ok_inv text df H) as (ln & header & rows & _ & _ & Ei & El2 & Ec).
  split; [rewrite Ei; apply seq_NoDup|split; [rewrite El2; apply dedup_names_spec|]].
  unfold nrows; rewrite Ei, length_seq; exact Ec.
Qed.

(** C9 (invariant). On a file the model reads as pandas does, the frame
    [pd.read_csv] returns (line 12) is well formed, with a [RangeIndex]
    over the data lines (blank and whitespace-only lines skipped) and one
    distinct label per header field, the header's own fields when they are
    distinct and non-empty. *)
Theorem read_csv_wf (text : string) df :
  modelled_file text = true -> read_csv text = Ok df ->
  wf df /\ index df = seq 0 (length (lines_of text) - 1) /\
  exists ln header, hd_error (lines_of text) = Some (ln, header) /\
    length (col_labels df) = length (split_on comma header) /\
    (NoDup (split_on comma header) -> Forall (fun l => l <> EmptyString) (split_on comma header) ->
     col_labels df = split_on comma header).
Proof.
  intros _ H; destruct (read_csv_Ok_inv text df H) as (ln & header & rows & El & _ & Ei & El2 & _).
  split; [exact (read_csv_Ok_wf text df H)|]; rewrite El; simpl; rewrite Nat.sub_0_r.
  split; [exact Ei|exists ln, header; split; [reflexivity|split; [rewrite El2; apply header_width|]]].
  intros Hnd Hne; rewrite El2; destruct (dedup_names_spec (split_on comma header)) as (_ & _ & Hid).
  rewrite unnamed_id in Hid by exact Hne; exact (Hid Hnd).
Qed.

(** C10 (error). On a file the model reads as pandas does,
    [pd.read_csv] raises exactly in two cases: the file has no non-blank
    line (EmptyDataError), or a data line has more fields than the header,
    and then the error names the first such line, the header's width and
    the line's width (ParserError). *)
Theorem read_csv_error (text : string) e :
  modelled_file text = true ->
  read_csv text = Err e <->
  (lines_of text = [] /\ e = EmptyDataError) \/
  exists ln0 header pre ln r post,
    lines_of text = (ln0, header) :: pre ++ (ln, r) :: post /\ pre <> [] /\
    Forall (fun p => length (split_on comma (snd p)) <= length (split_on comma header)) pre /\
    length (split_on comma header) < length (split_on comma r) /\
    e = ParserError ln (length (split_on comma header)) (length (split_on comma r)).
Proof.
  intros Hm; unfold modelled_file in Hm; apply andb_true_iff in Hm as [_ Hm].
  unfold read_csv; destruct (lines_of text) as [|[ln0 header] rows].
  - split; [intros [= <-]; left; auto|intros [[_ ->]|(? & ? & ? & ? & ? & ? & E & _)]; [reflexivity|discriminate]].
  - rewrite header_width; split.
    + destruct find_long as [[ln m]|] eqn:F; intros H; inv H.
      apply find_long_Some in F as (pre & r & post & -> & Hpre & Hnm & <-).
      right; exists ln0, header, pre, ln, r, post; repeat split; auto.
      intros ->; apply andb_true_iff in Hm as [Hw _]; apply Nat.leb_le in Hw; cbn [app] in Hw; lia.
    + intros [[E _]|(l0 & h & pre & ln & r & post & E & _ & Hpre & Hlt & ->)]; [discriminate|].
      inv E; rewrite (proj2 (find_long_Some _ _ ln _) (ex_intro _ pre (ex_intro _ r
        (ex_intro _ post (conj eq_refl (conj Hpre (conj Hlt eq_refl))))))); reflexivity.
Qed.

(** ** Numbers printed and read back *)

Lemma string_app_nil (s : string) : (s ++ EmptyString)%string = s.
Proof. induction s as [|c s IH]; simpl; [reflexivity|rewrite IH; reflexivity]. Qed.

Lemma trim_left_id (s : string) :
  forallb (fun c => negb (is_blank c)) (list_ascii_of_string s) = true -> trim_left s = s.
Proof. destruct s as [|c s]; simpl; [reflexivity|]; destruct (is_blank c); [discriminate|reflexivity]. Qed.

Lemma trim_id (s : string) :
  forallb (fun c => negb (is_blank c)) (list_ascii_of_string s) = true -> trim s = s.
Proof.
  intros H; unfold trim; rewrite (trim_left_id s H).
  rewrite trim_left_id; [rewrite list_ascii_of_string_of_list_ascii, rev_involutive;
    apply string_of_list_ascii_of_string|].
  rewrite list_ascii_of_string_of_list_ascii, forallb_forall in *.
  intros c Hc%in_rev; auto.
Qed.

(** The digits [NilZero.string_of_uint] prints. *)
Lemma digits_uint (u : uint) :
  let s := NilZero.string_of_uint u in
  s <> EmptyString /\ span_digits s = (s, EmptyString) /\
  forallb (fun c => negb (is_blank c)) (list_ascii_of_string s) = true /\
  (forall c r, s = String c r -> is_digit c = true) /\
  digits_value s = Z.of_uint u.
Proof.
  assert (Hsp : forall u, span_digits (NilEmpty.string_of_uint u) = (NilEmpty.string_of_uint u, EmptyString) /\
            forallb (fun c => negb (is_blank c)) (list_ascii_of_string (NilEmpty.string_of_uint u)) = true).
  { intros u0; induction u0; simpl; [auto|..];
      match goal with IH : _ /\ _ |- _ => destruct IH as [IH1 IH2]; rewrite IH1; auto end. }
  destruct (uint_eq_dec u Nil) as [->|Hu].
  { simpl; repeat split; try discriminate; try reflexivity; intros c r [= <- _]; reflexivity. }
  assert (E : NilZero.string_of_uint u = NilEmpty.string_of_uint u) by (destruct u; [congruence|reflexivity..]).
  cbv zeta; rewrite E; destruct (Hsp u) as [H1 H2]; rewrite H1.
  repeat split; auto.
  - destruct u; simpl; congruence.
  - destruct u; simpl; try congruence; intros c r [= <- _]; reflexivity.
  - unfold digits_value; rewrite NilEmpty.usu; reflexivity.
Qed.

Lemma sign_of_digit (c : Ascii.ascii) r :
  is_digit c = true -> sign_of (String c r) = (false, String c r).
Proof.
  intros H; unfold sign_of.
  destruct (Ascii.eqb_spec c "-"%char) as [->|]; [discriminate|].
  destruct (Ascii.eqb_spec c "+"%char) as [->|]; [discriminate|reflexivity].
Qed.

Lemma parse_number_int (f s1 ip : string) (neg : bool) :
  trim f = f -> sign_of f = (neg, s1) -> span_digits s1 = (ip, EmptyString) -> ip <> EmptyString ->
  parse_number f = Some (decimal_value neg ip 0 0).
Proof.
  intros Ht Hs Hsp Hip; unfold parse_number; rewrite Ht, Hs; cbv beta iota.
  rewrite Hsp; cbv beta iota.
  destruct ip as [|c r]; [congruence|]; simpl; rewrite string_app_nil; reflexivity.
Qed.

Lemma parse_digits (u : uint) (neg : bool) :
  let s := NilZero.string_of_uint u in
  parse_number (if neg then String "-"%char s else s) =
  Some (Qmake (if neg then Z.opp (Z.of_uint u) else Z.of_uint u) 1).
Proof.
  destruct (digits_uint u) as (Hne & Hsp & Hbl & Hd & Hv); cbv zeta in *.
  set (s := NilZero.string_of_uint u) in *.
  destruct neg.
  - rewrite (parse_number_int _ s s true) by (try apply trim_id; auto).
    unfold decimal_value; rewrite Hv; reflexivity.
  - destruct s as [|c r] eqn:Es; [congruence|].
    rewrite (parse_number_int _ (String c r) (String c r) false);
      [|apply trim_id; exact Hbl|apply sign_of_digit, (Hd c r eq_refl)|exact Hsp|exact Hne].
    unfold decimal_value; rewrite Hv; reflexivity.
Qed.

(** Reading back a printed integer gives the integer. *)
Lemma parse_print_int (z : Z) : parse_number (print_int z) = Some (Qmake z 1).
Proof.
  rewrite <- (DecimalZ.of_to z) at 2; unfold print_int.
  destruct (Z.to_int z) as [u|u]; simpl.
  - apply (parse_digits u false).
  - apply (parse_digits u true).
Qed.

(** A default NA string is never a number, so a printed number is never
    read as missing. *)
Lemma na_not_number (s : string) : is_na s = true -> parse_number s = None.
Proof.
  unfold is_na; intros (t & Ht & E)%existsb_exists; apply String.eqb_eq in E; subst t.
  repeat (destruct Ht as [<-|Ht]; [vm_compute; reflexivity|]); destruct Ht.
Qed.

Lemma print_int_not_na (z : Z) : is_na (print_int z) = false.
Proof.
  destruct (is_na (print_int z)) eqn:E; [|reflexivity].
  apply na_not_number in E; rewrite parse_print_int in E; discriminate.
Qed.

(** ** Fields and lines printed and split back *)

Lemma split_on_nonnil sep s : split_on sep s <> [].
Proof.
  destruct s as [|c s]; simpl; [discriminate|].
  destruct (Ascii.eqb c sep); [discriminate|destruct (split_on sep s); discriminate].
Qed.

Lemma split_on_sep sep (t : string) : split_on sep (String sep t) = EmptyString :: split_on sep t.
Proof. simpl; rewrite Ascii.eqb_refl; reflexivity. Qed.

Lemma split_on_app sep (w t : string) :
  has_char sep w = false ->
  split_on sep (w ++ t) = (w ++ hd EmptyString (split_on sep t))%string :: tl (split_on sep t).
Proof.
  induction w as [|c w IH]; simpl; intros H.
  - pose proof (split_on_nonnil sep t); destruct (split_on sep t); [congruence|reflexivity].
  - apply orb_false_iff in H as [Hc Hw]; rewrite IH by exact Hw.
    rewrite Ascii.eqb_sym, Hc; reflexivity.
Qed.

Lemma split_join sep (ws : list string) :
  ws <> [] -> Forall (fun w => has_char sep w = false) ws -> split_on sep (join sep ws) = ws.
Proof.
  induction ws as [|w ws IH]; intros Hne Hw; [congruence|]; inv Hw.
  destruct ws as [|w' ws].
  - simpl join; rewrite <- (string_app_nil w), split_on_app by assumption; reflexivity.
  - change (join sep (w :: w' :: ws)) with (w ++ String sep (join sep (w' :: ws)))%string.
    rewrite split_on_app, split_on_sep by assumption; cbn [hd tl].
    rewrite string_app_nil, IH; [reflexivity|discriminate|assumption].
Qed.

Lemma split_file (ls : list string) :
  Forall (fun l => has_char newline l = false) ls -> split_on newline (file_of ls) = ls ++ [EmptyString].
Proof.
  induction 1 as [|l ls Hl _ IH]; [reflexivity|]; simpl file_of.
  rewrite split_on_app, split_on_sep by exact Hl; cbn [hd tl].
  rewrite string_app_nil, IH; reflexivity.
Qed.

Lemma list_ascii_of_string_app (s t : string) :
  list_ascii_of_string (s ++ t) = list_ascii_of_string s ++ list_ascii_of_string t.
Proof. induction s as [|c s IH]; simpl; [reflexivity|rewrite IH; reflexivity]. Qed.

Lemma normalize_eol_id (s : string) : has_char cr s = false -> normalize_eol s = s.
Proof.
  induction s as [|c s IH]; simpl; [reflexivity|]; intros H; apply orb_false_iff in H as [Hc Hs].
  rewrite Ascii.eqb_sym, Hc, IH by exact Hs; reflexivity.
Qed.

Lemma has_char_file c (ls : list string) :
  Ascii.eqb c newline = false -> Forall (fun l => has_char c l = false) ls -> has_char c (file_of ls) = false.
Proof.
  intros Hc; induction 1 as [|l ls Hl _ IH]; [reflexivity|]; simpl file_of.
  unfold has_char in *; rewrite list_ascii_of_string_app, existsb_app; simpl.
  rewrite Hl, Hc, IH; reflexivity.
Qed.

Lemma filter_lines k (ls : list string) :
  Forall (fun l => blank_line l = false) ls ->
  filter (fun p => negb (blank_line (snd p)))
    (combine (seq k (length (ls ++ [EmptyString]))) (ls ++ [EmptyString])) =
  combine (seq k (length ls)) ls.
Proof.
  intros H; revert k; induction H as [|l ls Hl _ IH]; intros k; [reflexivity|].
  simpl; rewrite Hl; simpl; rewrite IH; reflexivity.
Qed.

(** The numbered non-blank lines of a file written line by line. *)
Lemma lines_of_file (ls : list string) :
  Forall (fun l => has_char newline l = false /\ has_char cr l = false /\ blank_line l = false) ls ->
  lines_of (file_of ls) = combine (seq 1 (length ls)) ls.
Proof.
  intros H; unfold lines_of.
  rewrite normalize_eol_id by (apply has_char_file; [reflexivity|]; eapply Forall_impl; [|exact H]; simpl; tauto).
  rewrite split_file by (eapply Forall_impl; [|exact H]; simpl; tauto).
  apply filter_lines; eapply Forall_impl; [|exact H]; simpl; tauto.
Qed.

(** ** A printed column is inferred back as it was *)

Lemma int_cell_printed (c : cell) :
  int_cell c = true ->
  numeric_field (Some (print_cell c)) = true /\
  (if is_na (print_cell c) then NaN
   else match parse_number (print_cell c) with Some q => Num q | None => NaN end) = c.
Proof.
  destruct c as [|[n d]|t]; simpl; intros H; try discriminate; [split; reflexivity|].
  destruct d; try discriminate.
  rewrite print_int_not_na, parse_print_int; split; reflexivity.
Qed.

Lemma text_cell_printed (c : cell) :
  text_cell c = true -> (match Some (print_cell c) with
                         | Some s => if is_na s then NaN else Str s | None => NaN end) = c.
Proof.
  destruct c as [|q|t]; simpl; intros H; try discriminate; [reflexivity|].
  apply andb_true_iff in H as [H _]; apply negb_true_iff in H; rewrite H; reflexivity.
Qed.

Lemma infer_printed (v : list cell) :
  printable_column v = true -> infer_column (map (fun c => Some (print_cell c)) v) = v.
Proof.
  unfold printable_column, infer_column; intros [Hi|[Ht Hx]%andb_true_iff]%orb_true_iff;
    rewrite forallb_forall in *.
  - replace (forallb _ _) with true.
    + rewrite map_map; rewrite <- (map_id v) at 2; apply map_ext_in.
      intros c Hc; apply (int_cell_printed c (Hi c Hc)).
    + symmetry; apply forallb_forall; intros f (c & <- & Hc)%in_map_iff.
      apply (int_cell_printed c (Hi c Hc)).
  - replace (forallb _ _) with false.
    + rewrite map_map; rewrite <- (map_id v) at 2; apply map_ext_in.
      intros c Hc; apply (text_cell_printed c (Ht c Hc)).
    + symmetry; apply existsb_exists in Hx as ([|q|t] & Hc & Hn); try discriminate.
      apply not_true_iff_false; rewrite forallb_forall; intros Hall.
      specialize (Hall (Some t) (in_map (fun c => Some (print_cell c)) _ _ Hc)).
      simpl in Hall, Hn; rewrite Hall in Hn; discriminate.
Qed.

(** ** The lines of a printed frame *)

Lemma has_char_cons c a (s : string) : has_char c (String a s) = Ascii.eqb c a || has_char c s.
Proof. reflexivity. Qed.

Lemma has_char_app c (s t : string) : has_char c (s ++ t) = has_char c s || has_char c t.
Proof. induction s as [|a s IH]; [reflexivity|]; unfold has_char in *; simpl; rewrite IH, orb_assoc; reflexivity. Qed.

Lemma has_char_join c sep (ws : list string) :
  Ascii.eqb c sep = false -> Forall (fun w => has_char c w = false) ws -> has_char c (join sep ws) = false.
Proof.
  intros Hc; induction 1 as [|w ws Hw _ IH]; [reflexivity|].
  destruct ws as [|w' ws]; [exact Hw|].
  change (join sep (w :: w' :: ws)) with (w ++ String sep (join sep (w' :: ws)))%string.
  rewrite has_char_app, Hw, has_char_cons, Hc, IH; reflexivity.
Qed.

(** A line holding a separator that is not a blank is not blank. *)
Lemma join_not_blank sep (ws : list string) :
  is_blank sep = false -> 2 <= length ws -> blank_line (join sep ws) = false.
Proof.
  intros Hs; destruct ws as [|w [|w' ws]]; simpl; try lia; intros _.
  unfold blank_line; rewrite list_ascii_of_string_app, forallb_app; simpl; rewrite Hs.
  rewrite !andb_false_r; reflexivity.
Qed.

Lemma digits_only (u : uint) :
  forallb is_digit (list_ascii_of_string (NilZero.string_of_uint u)) = true.
Proof.
  assert (H : forall u, forallb is_digit (list_ascii_of_string (NilEmpty.string_of_uint u)) = true)
    by (intros u0; induction u0; simpl; auto).
  destruct u; simpl; auto; apply H.
Qed.

Lemma has_char_digits c (s : string) :
  is_digit c = false -> forallb is_digit (list_ascii_of_string s) = true -> has_char c s = false.
Proof.
  intros Hc Hs; unfold has_char; apply not_true_iff_false; intros (a & Ha & E)%existsb_exists.
  apply Ascii.eqb_eq in E; subst a; rewrite forallb_forall in Hs; rewrite (Hs c Ha) in Hc; discriminate.
Qed.

(** A printed integer is a minus sign and digits: no separator, newline or
    CR in it. *)
Lemma print_int_plain (z : Z) : plain (print_int z) = true.
Proof.
  assert (Hd : forall u, plain (NilZero.string_of_uint u) = true).
  { intros u; unfold plain; rewrite !has_char_digits by (reflexivity || apply digits_only); reflexivity. }
  unfold print_int; destruct (Z.to_int z) as [u|u]; simpl; [apply Hd|].
  specialize (Hd u); unfold plain, has_char in *; simpl; exact Hd.
Qed.

Lemma print_cell_plain (v : list cell) c :
  printable_column v = true -> In c v -> plain (print_cell c) = true.
Proof.
  unfold printable_column; intros [Hi|[Ht _]%andb_true_iff]%orb_true_iff Hc;
    rewrite forallb_forall in *; [specialize (Hi c Hc)|specialize (Ht c Hc)];
    destruct c as [|q|t]; simpl in *; try discriminate; try reflexivity.
  - apply print_int_plain.
  - apply andb_true_iff in Ht; tauto.
Qed.

Lemma plain_chars (s : string) :
  plain s = true -> has_char comma s = false /\ has_char newline s = false /\ has_char cr s = false.
Proof. unfold plain; rewrite !andb_true_iff, !negb_true_iff; tauto. Qed.


Lemma line_ok (ws : list string) :
  2 <= length ws -> Forall (fun w => plain w = true) ws ->
  has_char newline (join comma ws) = false /\ has_char cr (join comma ws) = false /\
  blank_line (join comma ws) = false.
Proof.
  intros Hl Hp; split; [|split; [|apply join_not_blank; [reflexivity|exact Hl]]];
    apply has_char_join; try reflexivity; eapply Forall_impl; try exact Hp;
    intros w Hw; apply plain_chars in Hw; tauto.
Qed.

Lemma split_line (ws : list string) :
  2 <= length ws -> Forall (fun w => plain w = true) ws -> split_on comma (join comma ws) = ws.
Proof.
  intros Hl Hp; apply split_join; [destruct ws; simpl in Hl; [lia|discriminate]|].
  eapply Forall_impl; [|exact Hp]; intros w Hw; apply plain_chars in Hw; tauto.
Qed.

Section RoundTrip.
Variable df : frame.
Hypothesis Hwf : wf df.
Hypothesis Hwide : 2 <= length (columns df).
Hypothesis Hlabels : Forall (fun l => printable_label l = true) (col_labels df).
Hypothesis Hcols : Forall (fun c => printable_column (snd c) = true) (columns df).

Lemma row_fields_plain i : Forall (fun w => plain w = true) (row_fields df i).
Proof.
  apply Forall_forall; intros w (c & <- & Hc)%in_map_iff.
  rewrite Forall_forall in Hcols.
  destruct (Nat.lt_ge_cases i (length (snd c))).
  - apply (print_cell_plain (snd c)); [apply Hcols, Hc|apply nth_In; assumption].
  - rewrite nth_overflow by assumption; reflexivity.
Qed.

Lemma row_fields_length i : length (row_fields df i) = length (columns df).
Proof. apply length_map. Qed.

Lemma labels_plain : Forall (fun w => plain w = true) (col_labels df).
Proof. eapply Forall_impl; [|exact Hlabels]; intros l Hl; apply andb_true_iff in Hl; tauto. Qed.

Lemma to_csv_lines :
  lines_of (to_csv df) =
  (1, join comma (col_labels df)) ::
  combine (seq 2 (nrows df)) (map (fun i => join comma (row_fields df i)) (seq 0 (nrows df))).
Proof.
  unfold to_csv; rewrite lines_of_file; [simpl; rewrite length_map, length_seq; reflexivity|].
  constructor.
  - apply line_ok; [unfold col_labels; rewrite length_map; exact Hwide|exact labels_plain].
  - apply Forall_forall; intros l (i & <- & _)%in_map_iff.
    apply line_ok; [rewrite row_fields_length; exact Hwide|apply row_fields_plain].
Qed.

Lemma rows_read :
  map (fun r => pad (length (columns df)) (split_on comma (snd r)))
      (combine (seq 2 (nrows df)) (map (fun i => join comma (row_fields df i)) (seq 0 (nrows df)))) =
  map (fun i => map Some (row_fields df i)) (seq 0 (nrows df)).
Proof.
  rewrite <- (map_map snd (fun l => pad _ (split_on comma l))).
  rewrite map_snd_combine by (rewrite length_map, !length_seq; reflexivity).
  rewrite map_map; apply map_ext; intros i.
  rewrite split_line by (rewrite ?row_fields_length; auto using row_fields_plain).
  unfold pad; rewrite row_fields_length, Nat.sub_diag, app_nil_r; reflexivity.
Qed.

Lemma column_read j :
  j < length (columns df) ->
  map (fun r => nth j r None) (map (fun i => map Some (row_fields df i)) (seq 0 (nrows df))) =
  map (fun c => Some (print_cell c)) (snd (nth j (columns df) (EmptyString, []))).
Proof.
  intros Hj; destruct Hwf as (_ & _ & Hlen); rewrite Forall_forall in Hlen.
  assert (Hv : length (snd (nth j (columns df) (EmptyString, []))) = nrows df) by (apply Hlen, nth_In, Hj).
  rewrite map_map, <- Hv, <- map_nth_seq with (d := NaN), Hv.
  apply map_ext; intros i; unfold row_fields; rewrite map_map.
  rewrite (nth_indep _ None (Some (print_cell (nth i (snd (EmptyString, [])) NaN))))
    by (rewrite length_map; exact Hj).
  rewrite (map_nth (fun c => Some (print_cell (nth i (snd c) NaN)))); reflexivity.
Qed.

End RoundTrip.


(** ** Missing cells and the fields of the file *)

Definition na_opt (f : option string) : bool :=
  match f with None => true | Some s => is_na s end.

Lemma infer_column_isnull (fs : list (option string)) :
  countb isnull (infer_column fs) = countb na_opt fs.
Proof.
  unfold infer_column; destruct (forallb numeric_field fs) eqn:F;
    rewrite countb_map; apply countb_ext_in; intros [s|] Hf; try reflexivity.
  - rewrite forallb_forall in F; specialize (F _ Hf); simpl in F |- *.
    destruct (is_na s) eqn:Na; [reflexivity|].
    destruct (parse_number s); [reflexivity|discriminate].
  - simpl; destruct (is_na s); reflexivity.
Qed.

Lemma nth_pad n (fields : list string) j :
  j < n -> nth j (pad n fields) None = nth_error fields j.
Proof.
  intros Hj; unfold pad; destruct (Nat.lt_ge_cases j (length fields)) as [H|H].
  - rewrite app_nth1 by (rewrite length_map; exact H).
    rewrite (nth_indep _ None (Some EmptyString)) by (rewrite length_map; exact H).
    rewrite map_nth; symmetry; apply nth_error_nth'; exact H.
  - rewrite app_nth2 by (rewrite length_map; exact H).
    rewrite nth_repeat_lt by (rewrite length_map; lia).
    symmetry; apply nth_error_None, H.
Qed.

Lemma forallb_numeric_pad n j (rows : list (nat * string)) :
  j < n ->
  forallb numeric_field (map (fun r => nth j r None) (map (fun r => pad n (split_on comma (snd r))) rows)) =
  forallb (fun r => field_numeric j (snd r)) rows.
Proof.
  intros Hj; induction rows as [|r rows IH]; [reflexivity|]; cbn [map forallb].
  rewrite IH, nth_pad by exact Hj; reflexivity.
Qed.

(** [infer_column] gives a column of one dtype; an object column holds a
    string. *)
Lemma infer_column_typed (fs : list (option string)) :
  let t := if forallb numeric_field fs then Float64 else Object in
  forallb (cell_fits t) (infer_column fs) = true /\
  (t = Object -> exists s, In (Str s) (infer_column fs)).
Proof.
  cbv zeta; unfold infer_column; destruct (forallb numeric_field fs) eqn:F.
  - split; [|discriminate]; apply forallb_forall; intros c (f & <- & _)%in_map_iff.
    destruct f as [s|]; [destruct (is_na s); [|destruct (parse_number s)]|]; reflexivity.
  - split.
    + apply forallb_forall; intros c (f & <- & _)%in_map_iff.
      destruct f as [s|]; [destruct (is_na s)|]; reflexivity.
    + intros _; destruct (forallb_false_In _ _ F) as ([s|] & Hin & Hn); [|discriminate].
      simpl in Hn; apply orb_false_iff in Hn as [Na Hp].
      exists s; apply in_map_iff; exists (Some s); rewrite Na; auto.
Qed.

Lemma field_numeric_false j (line : string) :
  field_numeric j line = false <->
  exists s, nth_error (split_on comma line) j = Some s /\ is_na s = false /\ parse_number s = None.
Proof.
  unfold field_numeric, numeric_field; destruct (nth_error _ j) as [s|].
  - split.
    + intros H; apply orb_false_iff in H as [Hn Hp]; exists s; split; [reflexivity|split; [exact Hn|]].
      destruct (parse_number s); [discriminate|reflexivity].
    + intros (t & [= <-] & Hn & Hp); rewrite Hn, Hp; reflexivity.
  - split; [discriminate|intros (? & ? & _); discriminate].
Qed.


(** C12 (functional). On a file the model reads as pandas does, the
    missing cells of a column [pd.read_csv] returns (line 12), which lines
    131-132 count, are exactly the data lines whose field at that position
    is one of pandas 1.x's default NA strings or absent. *)
Theorem read_csv_missing (text : string) df :
  modelled_file text = true -> read_csv text = Ok df ->
  exists ln header rows, lines_of text = (ln, header) :: rows /\
    forall j, j < length (columns df) ->
      countb isnull (snd (nth j (columns df) (EmptyString, []))) =
      countb (fun r => field_missing j (snd r)) rows.
Proof.
  intros _; unfold read_csv; destruct (lines_of text) as [|[ln header] rows]; [discriminate|].
  destruct find_long as [[l m]|]; [discriminate|]; intros [= <-].
  exists ln, header, rows; split; [reflexivity|]; intros j Hj; cbn [columns] in *.
  set (names := dedup_names (split_on comma header)) in *.
  set (n := length names) in *.
  rewrite length_combine, length_map, length_seq, Nat.min_id in Hj.
  rewrite combine_nth by (rewrite length_map, length_seq; reflexivity); cbn [snd].
  rewrite nth_map_seq by exact Hj.
  rewrite infer_column_isnull, map_map, countb_map; apply countb_ext_in; intros [l s] _.
  cbn [snd]; rewrite nth_pad by exact Hj; unfold field_missing, na_opt.
  destruct (nth_error (split_on comma s) j); reflexivity.
Qed.

(** ** Concrete runs *)

Section Samples.
Local Open Scope string_scope.

(** The first rows of the training file, cut to three columns: house 1 has
    the category ["NA"] (no alley access) in Alley. *)
Definition train_head : string :=
  file_of ["Id,Alley,SalePrice"; "1,NA,208500"; "2,Pave,181500"; "3,Grvl,223500"].

(** The same file with CRLF line ends, a line of spaces and an empty
    line between the rows. *)
Definition train_head_crlf : string :=
  let crlf l := (l ++ String cr (String newline EmptyString))%string in
  (crlf "Id,Alley,SalePrice" ++ crlf "1,NA,208500" ++ crlf "   " ++ crlf "2,Pave,181500" ++
   crlf "" ++ crlf "3,Grvl,223500")%string.

(** A data line wider than the header, after the first data line. *)
Definition wide_row : string := file_of ["Id,SalePrice"; "1,208500"; "2,181500,x"].

(** A frame in the shape of the training table. *)
Definition small_train : frame :=
  mkFrame [0; 1; 2]%nat
    [("Id", [Num 1; Num 2; Num 3]);
     ("Street", [Str "Pave"; NaN; Str "Grvl"]);
     ("SalePrice", [Num 208500; Num 181500; NaN])].

End Samples.

(** Example. [pd.read_csv] with its default NA strings reads the
    Alley category ["NA"] (no alley access) as a missing value, so the
    missing-data audit of lines 131-134 counts it. *)
Example read_csv_na_category :
  read_csv train_head =
  Ok (mkFrame [0; 1; 2]
        [("Id"%string, [Num 1; Num 2; Num 3]);
         ("Alley"%string, [NaN; Str "Pave"; Str "Grvl"]);
         ("SalePrice"%string, [Num 208500; Num 181500; Num 223500])]).
Proof. vm_compute; reflexivity. Qed.

(** Line ends and blank lines: the CRLF file with a line of spaces reads
    as the LF file. *)
Example read_csv_crlf_blank : read_csv train_head_crlf = read_csv train_head.
Proof. vm_compute; reflexivity. Qed.

Lemma read_csv_wf_witness :
  modelled_file train_head_crlf = true /\
  exists df, read_csv train_head_crlf = Ok df /\
  (wf df /\ index df = seq 0 (length (lines_of train_head_crlf) - 1) /\
   exists ln header, hd_error (lines_of train_head_crlf) = Some (ln, header) /\
     length (col_labels df) = length (split_on comma header) /\
     (NoDup (split_on comma header) -> Forall (fun l => l <> EmptyString) (split_on comma header) ->
      col_labels df = split_on comma header)).
Proof.
  assert (Hm : modelled_file train_head_crlf = true) by (vm_compute; reflexivity).
  split; [exact Hm|].
  destruct (read_csv train_head_crlf) as [df|e] eqn:E; [|vm_compute in E; discriminate].
  exists df; split; [reflexivity|exact (read_csv_wf _ _ Hm E)].
Defined.

Lemma read_csv_error_witness :
  modelled_file wide_row = true /\ read_csv wide_row = Err (ParserError 3 2 3).
Proof.
  assert (Hm : modelled_file wide_row = true) by (vm_compute; reflexivity).
  split; [exact Hm|apply (proj2 (read_csv_error wide_row _ Hm))].
  right; exists 1, "Id,SalePrice"%string, [(2, "1,208500"%string)], 3, "2,181500,x"%string, [].
  split; [vm_compute; reflexivity|split; [discriminate|split; [repeat constructor; simpl; lia|]]].
  split; [simpl; lia|reflexivity].
Defined.



Lemma read_csv_missing_witness :
  modelled_file train_head = true /\
  exists df, read_csv train_head = Ok df /\
  exists ln header rows, lines_of train_head = (ln, header) :: rows /\
    forall j, j < length (columns df) ->
      countb isnull (snd (nth j (columns df) (EmptyString, []))) =
      countb (fun r => field_missing j (snd r)) rows.
Proof.
  assert (Hm : modelled_file train_head = true) by (vm_compute; reflexivity).
  split; [exact Hm|].
  destruct (read_csv train_head) as [df|e] eqn:E; [|vm_compute in E; discriminate].
  exists df; split; [reflexivity|exact (read_csv_missing _ _ Hm E)].
Defined.

(** The C parser's header loop: a duplicate label skips the suffixes
    already in the header, and an empty field named [Unnamed: 0] is mangled
    after the given label [Unnamed: 0]. *)
Example dedup_names_mangle :
  dedup_names ["a"; "a"; "a.1"]%string = ["a"; "a.2"; "a.1"]%string /\
  dedup_names [""; "Unnamed: 0"]%string = ["Unnamed: 0.1"; "Unnamed: 0"]%string.
Proof. split; reflexivity. Qed.

End ReadCsv.
