(* ===== verification/MissingData.v ===== *)
(** * The missing-data audit and the cleaning (lines 131-166)

    [src/house_prices_eda.py] audits missing values and then cleans the
    frame in three statements:
    - line 131: [total = df.isnull().sum().sort_values(ascending=False)]
      is [total];
    - line 132: [percent = (df.isnull().sum()/df.isnull().count())
      .sort_values(ascending=False)] is [percent];
    - line 133: [pd.concat([total, percent], axis=1, keys=['Total',
      'Percent'])] is [concat_md], an outer join on the column labels in
      the order of [total]; [audit] composes lines 131-133;
    - line 134: [missing_data.head(20)] is [head_md];
    - line 164: [df.drop((missing_data[missing_data['Total'] > 1]).index, 1)]
      is [drop_sparse], with [sparse_labels] the selected index;
    - line 165: [df.drop(df.loc[df['Electrical'].isnull()].index)] is
      [drop_electrical];
    - line 166: [df.isnull().sum().max()] is [max_missing];
    [clean] is lines 131-133 and 164-165 run on the frame as the script
    runs them, and [clean_ref] the frame it computes, stated on the frame
    ([clean_refines]).
    The sorts are Stdlib's stable merge sort on a descending key; pandas'
    default quicksort leaves the order of equal counts unspecified, and no
    theorem depends on it. *)

From Stdlib Require Import Sorting.Mergesort Orders.
From S2P Require Import Prelude Cell Frame.

Module MissingData.
Import Frame.

(** ** Line 131: the missing counts, largest first *)

(** Descending order on missing counts. *)
Definition count_desc (a b : string * nat) : bool := Nat.leb (snd b) (snd a).

Lemma count_desc_total : forall a b, count_desc a b = true \/ count_desc b a = true.
Proof.
  intros [x n] [y m]; unfold count_desc; simpl.
  destruct (Nat.leb_spec m n); [left | right; apply Nat.leb_le]; auto with arith.
Qed.

Module CountDesc <: TotalLeBool.
Definition t := (string * nat)%type.
Definition leb := count_desc.
Definition leb_total := count_desc_total.
End CountDesc.
Module CountSort := Sort CountDesc.

Definition total (df : frame) : list (string * nat) :=
  CountSort.sort (isnull_sum df).

(** ** Line 132: the missing share of each column, largest first *)

(** Division of two counts as floats: [0/0] is NaN. *)
Definition ratio (n d : nat) : option Q :=
  if Nat.eqb d 0 then None else Some (inject_Z (Z.of_nat n) / inject_Z (Z.of_nat d))%Q.

(** [a / b] on two Series with the same index, element by element. *)
Definition series_div (a b : list (string * nat)) : list (string * option Q) :=
  map (fun p => (fst (fst p), ratio (snd (fst p)) (snd (snd p)))) (combine a b).

(** Descending order on floats that may be NaN, NaN last. *)
Definition share_desc (a b : string * option Q) : bool :=
  match snd a, snd b with
  | Some x, Some y => Qle_bool y x
  | Some _, None => true
  | None, Some _ => false
  | None, None => true
  end.

Lemma share_desc_total : forall a b, share_desc a b = true \/ share_desc b a = true.
Proof.
  intros [x [p|]] [y [q|]]; unfold share_desc; simpl; auto.
  destruct (Qlt_le_dec p q) as [H|H]; [right | left]; apply Qle_bool_iff;
    [apply Qlt_le_weak|]; exact H.
Qed.

Module ShareDesc <: TotalLeBool.
Definition t := (string * option Q)%type.
Definition leb := share_desc.
Definition leb_total := share_desc_total.
End ShareDesc.
Module ShareSort := Sort ShareDesc.

Definition percent (df : frame) : list (string * option Q) :=
  ShareSort.sort (series_div (isnull_sum df) (isnull_count df)).

(** ** Line 133: the audit table *)

Record md_row := mkRow {
  md_label : string;
  md_total : option nat;      (** NaN for a label of [percent] only *)
  md_percent : option Q
}.

Fixpoint lookup_label {A : Type} (l : string) (s : list (string * A)) : option A :=
  match s with
  | [] => None
  | (k, a) :: s' => if String.eqb l k then Some a else lookup_label l s'
  end.

(** [pd.concat([total, percent], axis=1)]: the union of the two indexes,
    [total]'s labels first and in its order, then the labels only
    [percent] has; a value missing on one side is NaN. *)
Definition concat_md (tot : list (string * nat)) (pct : list (string * option Q))
  : list md_row :=
  map (fun p => mkRow (fst p) (Some (snd p))
                  (match lookup_label (fst p) pct with Some x => x | None => None end))
      tot ++
  map (fun p => mkRow (fst p) None (snd p))
      (filter (fun p => negb (existsb (String.eqb (fst p)) (map fst tot))) pct).

Definition audit (df : frame) : list md_row := concat_md (total df) (percent df).

(** Line 134: [missing_data.head(20)] *)
Definition head_md (md : list md_row) : list md_row := firstn 20 md.

(** ** Lines 164-166: the cleaning *)

(** [missing_data[missing_data['Total'] > 1].index]; NaN > 1 is false. *)
Definition sparse_labels (md : list md_row) : list string :=
  map md_label
    (filter (fun r => match md_total r with Some t => Nat.ltb 1 t | None => false end) md).

(** Line 164 *)
Definition drop_sparse (df : frame) (md : list md_row) : result frame :=
  drop_columns df (sparse_labels md).

(** The column whose missing row line 165 drops. *)
Definition electrical : string := "Electrical".

(** Line 165 *)
Definition drop_electrical (df : frame) : result frame :=
  e <- getitem df electrical ;;
  drop_rows df (loc_index df (map isnull e)).

(** Line 166: [Series.max] of the missing counts; NaN for no column. *)
Definition max_missing (df : frame) : option nat :=
  match isnull_sum df with
  | [] => None
  | (_, n) :: rest => Some (fold_left Nat.max (map snd rest) n)
  end.

(** Lines 131-133 then 164-165, on the frame the script holds. *)
Definition clean (df : frame) : result frame :=
  df1 <- drop_sparse df (audit df) ;;
  drop_electrical df1.

(** ** What the cleaning computes, stated on the frame *)

(** The columns the threshold rule keeps: at most one missing cell. *)
Definition dense_columns (df : frame) : list (string * list cell) :=
  filter (fun lv => Nat.leb (countb isnull (snd lv)) 1) (columns df).

(** The rows with a present value in the column [e]. *)
Definition present (e : list cell) : list bool := map (fun c => negb (isnull c)) e.

(** The frame lines 164-165 leave when the Electrical column is [e]: the
    dense columns, restricted to the rows where Electrical is present. *)
Definition clean_ref (df : frame) (e : list cell) : frame :=
  mkFrame (select (present e) (index df))
    (map (fun lv => (fst lv, select (present e) (snd lv))) (dense_columns df)).

(** ** Sample frames *)

Section Samples.
Local Open Scope string_scope.

(** The end-to-end scenario of the specification: ten rows, every column
    complete except Electrical, which misses its value on row 4. *)
Definition scenario : frame := mkFrame (seq 0 10)
  [("Id", map (fun i => Num (inject_Z (Z.of_nat (S i)))) (seq 0 10));
   ("Electrical", map (fun i => if Nat.eqb i 4 then NaN else Str "SBrkr") (seq 0 10));
   ("SalePrice", map (fun i => Num (inject_Z (208500 + Z.of_nat i))) (seq 0 10))].

(** Four rows shaped like train.csv: PoolQC mostly missing, Electrical and
    Alley each missing once, on different rows. *)
Definition train_sample : frame := mkFrame [0; 1; 2; 3]
  [("Id", [Num 1; Num 2; Num 3; Num 4]);
   ("PoolQC", [NaN; NaN; Str "Ex"; NaN]);
   ("Electrical", [Str "SBrkr"; NaN; Str "FuseA"; Str "SBrkr"]);
   ("Alley", [NaN; Str "Grvl"; Str "Pave"; Str "Pave"])].

(** What lines 164-165 leave of [train_sample]: PoolQC dropped, row 1
    dropped, and Alley's missing cell (row 0) still there. *)
Definition train_sample_clean : frame := mkFrame [0; 2; 3]
  [("Id", [Num 1; Num 3; Num 4]);
   ("Electrical", [Str "SBrkr"; Str "FuseA"; Str "SBrkr"]);
   ("Alley", [NaN; Str "Pave"; Str "Pave"])].

(** Electrical missing twice: line 164 drops it before line 165 reads it. *)
Definition electrical_sparse : frame := mkFrame [0; 1; 2]
  [("Id", [Num 1; Num 2; Num 3]);
   ("Electrical", [NaN; NaN; Str "SBrkr"])].
End Samples.

(** ** The audit table (lines 131-133) *)

Lemma total_perm (df : frame) : Permutation (isnull_sum df) (total df).
Proof. apply CountSort.Permuted_sort. Qed.

Lemma map_fst_isnull_sum (df : frame) : map fst (isnull_sum df) = col_labels df.
Proof. unfold isnull_sum, col_labels; rewrite map_map; reflexivity. Qed.

Lemma map_fst_series_div (a b : list (string * nat)) :
  length a = length b -> map fst (series_div a b) = map fst a.
Proof.
  unfold series_div; rewrite map_map; simpl.
  revert b; induction a as [|x a IH]; intros [|y b] H; simpl in *; try lia; auto.
  rewrite IH by lia; reflexivity.
Qed.

(** [percent] has the labels of [total]: the outer join adds no row. *)
Lemma percent_labels (df : frame) l : In l (map fst (percent df)) -> In l (map fst (total df)).
Proof.
  unfold percent; intros Hl.
  apply (Permutation_in _ (Permutation_map fst (Permutation_sym (ShareSort.Permuted_sort _)))) in Hl.
  unfold ShareDesc.t in Hl; rewrite map_fst_series_div in Hl
    by (unfold isnull_sum, isnull_count; rewrite !length_map; reflexivity).
  exact (Permutation_in _ (Permutation_map fst (total_perm df)) Hl).
Qed.

Lemma audit_rows (df : frame) :
  audit df = map (fun p => mkRow (fst p) (Some (snd p))
                   (match lookup_label (fst p) (percent df) with Some x => x | None => None end))
               (total df).
Proof.
  unfold audit, concat_md; rewrite <- app_nil_r; f_equal.
  match goal with |- map _ ?l = [] => enough (l = []) as -> by reflexivity end.
  apply (map_eq_nil fst).
  rewrite (map_filter_key fst (fun l => negb (existsb (String.eqb l) (map fst (total df))))).
  apply missing_labels_nil; intros l Hl; apply percent_labels; exact Hl.
Qed.

(** The labels line 164 selects: the columns with more than one missing cell. *)
Lemma sparse_labels_In (df : frame) l :
  In l (sparse_labels (audit df)) <->
  exists v, In (l, v) (columns df) /\ 1 < countb isnull v.
Proof.
  unfold sparse_labels; rewrite audit_rows, in_map_iff; split.
  - intros (r & <- & Hr); apply filter_In in Hr as (Hr & Ht).
    apply in_map_iff in Hr as ((l', t) & <- & Hin); simpl in *.
    apply Nat.ltb_lt in Ht.
    apply (Permutation_in _ (Permutation_sym (total_perm df))) in Hin.
    unfold isnull_sum in Hin; apply in_map_iff in Hin as ((l'', v) & E & Hv).
    simpl in E; inv E; eauto.
  - intros (v & Hv & Ht).
    assert (Hin : In (l, countb isnull v) (total df)).
    { apply (Permutation_in _ (total_perm df)); unfold isnull_sum.
      apply in_map_iff; exists (l, v); auto. }
    eexists; split; [|apply filter_In; split; [apply in_map_iff; eexists; split; [reflexivity|exact Hin]|]];
      simpl; [reflexivity | apply Nat.ltb_lt; exact Ht].
Qed.

(** Line 164 run on the audit table of lines 131-133 drops exactly the
    columns with more than one missing cell, and never raises. *)
Lemma drop_sparse_audit (df : frame) :
  wf df -> drop_sparse df (audit df) = Ok (mkFrame (index df) (dense_columns df)).
Proof.
  intros (_ & Hnd & _); unfold drop_sparse.
  rewrite drop_columns_Ok.
  2:{ intros l (v & Hv & _)%sparse_labels_In.
      apply in_map_iff; exists (l, v); auto. }
  f_equal; f_equal; apply filter_ext_in; intros [l v] Hlv; simpl.
  destruct (existsb (String.eqb l) (sparse_labels (audit df))) eqn:E;
    [apply existsb_eqb_string_In, sparse_labels_In in E as (v' & Hv' & Hc)|].
  - rewrite (NoDup_fst_unique _ l v v' Hnd Hlv Hv').
    symmetry; apply Nat.leb_gt; exact Hc.
  - symmetry; apply Nat.leb_le; destruct (Nat.le_gt_cases (countb isnull v) 1); auto.
    assert (In l (sparse_labels (audit df))) as Hin by (apply sparse_labels_In; eauto).
    apply existsb_eqb_string_In in Hin; congruence.
Qed.

(** The cleaning, computed on the frame. *)
Lemma clean_eq_ref (df : frame) :
  wf df ->
  clean df =
  match find_col electrical (columns df) with
  | Some e => if Nat.leb (countb isnull e) 1 then Ok (clean_ref df e)
              else Err (KeyError [electrical])
  | None => Err (KeyError [electrical])
  end.
Proof.
  intros Hwf; pose proof Hwf as (Hi & Hl & Hlen).
  unfold clean; rewrite drop_sparse_audit by exact Hwf; simpl.
  unfold drop_electrical, getitem; simpl; unfold dense_columns.
  rewrite find_col_filter_nodup by exact Hl; simpl.
  destruct (find_col electrical (columns df)) as [e|] eqn:E; [|reflexivity].
  destruct (Nat.leb (countb isnull e) 1); [|reflexivity]; simpl.
  rewrite drop_rows_loc; simpl; auto.
  - unfold clean_ref, present; rewrite map_map; reflexivity.
  - apply find_col_In in E; rewrite Forall_forall in Hlen.
    unfold nrows; simpl; rewrite length_map; apply (Hlen _ E).
Qed.

(** C1 (refinement). Lines 131-133 and 164-165, run on a well-formed frame,
    keep exactly the columns with at most one missing cell and exactly the
    rows whose Electrical value is present; they raise KeyError
    ['Electrical'] when the frame has no Electrical column or when that
    column has more than one missing cell (line 164 has dropped it). *)
Theorem clean_refines (df : frame) :
  wf df ->
  clean df =
  match find_col electrical (columns df) with
  | Some e => if Nat.leb (countb isnull e) 1 then Ok (clean_ref df e)
              else Err (KeyError [electrical])
  | None => Err (KeyError [electrical])
  end.
Proof. apply clean_eq_ref. Qed.

Lemma clean_Ok_inv (df df' : frame) :
  wf df -> clean df = Ok df' ->
  exists e, find_col electrical (columns df) = Some e /\
            countb isnull e <= 1 /\ df' = clean_ref df e.
Proof.
  intros Hwf H; rewrite clean_eq_ref in H by exact Hwf.
  destruct (find_col electrical (columns df)) as [e|]; [|discriminate].
  destruct (Nat.leb_spec (countb isnull e) 1); inv H; eauto.
Qed.

(** C4 (invariant). The cleaning preserves the frame invariant: both drops
    of lines 164-165 do. *)
Theorem clean_wf (df df' : frame) : wf df -> clean df = Ok df' -> wf df'.
Proof.
  intros Hwf H; unfold clean in H; bind_inv H.
  unfold drop_electrical in H; bind_inv H.
  eauto using drop_columns_wf, drop_rows_wf.
Qed.

(** ** Line 166: the largest remaining missing count *)

(** Line 166 prints 0 exactly when the frame has a column and none of its
    columns has a missing cell. *)
Lemma max_missing_zero (df : frame) :
  max_missing df = Some 0 <->
  columns df <> [] /\ Forall (fun lv => countb isnull (snd lv) = 0) (columns df).
Proof.
  unfold max_missing, isnull_sum.
  destruct (columns df) as [|[l v] cols]; simpl; [split; [discriminate | tauto]|].
  rewrite Forall_cons_iff; split.
  - intros [= H]; apply fold_left_max_zero in H as (H1 & H2).
    rewrite map_map, Forall_map in H2; simpl in H2; split; [discriminate | auto].
  - intros (_ & H1 & H2); f_equal; apply fold_left_max_zero.
    rewrite map_map, Forall_map; auto.
Qed.

(** C3 (functional). After the cleaning, every column comes from a column of
    the frame with at most one missing cell, and its missing count is the
    number of rows where that column is missing and Electrical is not. *)
Theorem clean_missing_count (df df' : frame) l v' :
  wf df -> clean df = Ok df' -> In (l, v') (columns df') ->
  exists v e,
    In (l, v) (columns df) /\ countb isnull v <= 1 /\
    find_col electrical (columns df) = Some e /\
    countb isnull v' =
    countb (fun x => negb (isnull (snd x)) && isnull (fst x)) (combine v e).
Proof.
  intros Hwf H Hin; apply clean_Ok_inv in H as (e & He & _ & ->); auto.
  unfold clean_ref, dense_columns in Hin; simpl in Hin.
  apply in_map_iff in Hin as ([l0 v] & E & Hv); inv E.
  apply filter_In in Hv as (Hv & Hc).
  exists v, e; repeat split; auto; [apply Nat.leb_le; exact Hc|].
  unfold present; apply (countb_select_map isnull (fun c => negb (isnull c))).
  destruct Hwf as (_ & _ & Hlen); rewrite Forall_forall in Hlen.
  apply find_col_In in He; pose proof (Hlen _ Hv) as L1; pose proof (Hlen _ He) as L2.
  simpl in L1, L2; congruence.
Qed.

(** A column of the frame keeps no missing cell on the rows where
    Electrical is present exactly when its missing cells are on rows
    where Electrical is missing. *)
Lemma select_present_no_missing (v e : list cell) :
  length v = length e ->
  countb isnull (select (present e) v) = 0 <->
  (forall x, In x (combine v e) -> isnull (fst x) = true -> isnull (snd x) = true).
Proof.
  intros Hlen; unfold present.
  rewrite (countb_select_map isnull (fun c => negb (isnull c))) by exact Hlen.
  rewrite countb_zero_iff, Forall_forall; split; intros H x Hx; specialize (H x Hx).
  - destruct (isnull (snd x)), (isnull (fst x)); simpl in *; congruence.
  - destruct (isnull (snd x)), (isnull (fst x)); simpl in *; auto.
    specialize (H eq_refl); discriminate.
Qed.

(** C2 (functional). Line 166 prints 0 after the cleaning exactly when
    every column kept by line 164 has its missing cells only on rows where
    Electrical is missing: the cleaning alone does not guarantee it. *)
Theorem clean_no_missing_iff (df df' : frame) e :
  wf df -> clean df = Ok df' -> find_col electrical (columns df) = Some e ->
  (max_missing df' = Some 0 <->
   Forall (fun lv => forall x, In x (combine (snd lv) e) ->
                     isnull (fst x) = true -> isnull (snd x) = true)
          (dense_columns df)).
Proof.
  intros Hwf H He; apply clean_Ok_inv in H as (e' & He' & Hc & ->); auto.
  rewrite He in He'; inv He'.
  rewrite max_missing_zero; unfold clean_ref; simpl.
  pose proof Hwf as (_ & _ & Hlen); rewrite Forall_forall in Hlen.
  assert (Hd : In (electrical, e') (dense_columns df)).
  { apply filter_In; split; [apply find_col_In; exact He | apply Nat.leb_le; exact Hc]. }
  rewrite Forall_map, !Forall_forall; split.
  - intros [_ H] lv Hlv; apply select_present_no_missing; [|exact (H lv Hlv)].
    apply filter_In in Hlv as (Hlv & _); apply filter_In in Hd as (Hd & _).
    rewrite (Hlen _ Hlv); exact (eq_sym (Hlen _ Hd)).
  - intros H; split; [destruct (dense_columns df); [contradiction | discriminate]|].
    intros lv Hlv; simpl; apply select_present_no_missing; [|exact (H lv Hlv)].
    apply filter_In in Hlv as (Hlv & _); apply filter_In in Hd as (Hd & _).
    rewrite (Hlen _ Hlv); exact (eq_sym (Hlen _ Hd)).
Qed.

(** C7 (functional). The scenario of the specification, on any
    well-formed frame: when Electrical misses exactly one value and every
    other column is complete, the cleaning succeeds, keeps every column,
    drops exactly the row where Electrical is missing, and line 166
    prints 0. *)
Theorem clean_one_missing (df : frame) e :
  wf df -> find_col electrical (columns df) = Some e -> countb isnull e = 1 ->
  (forall l v, In (l, v) (columns df) -> l <> electrical -> countb isnull v = 0) ->
  exists df', clean df = Ok df' /\ col_labels df' = col_labels df /\
    index df' = select (present e) (index df) /\ nrows df' = nrows df - 1 /\
    max_missing df' = Some 0.
Proof.
  intros Hwf He H1 H0; pose proof Hwf as (_ & Hnd & Hlen); rewrite Forall_forall in Hlen.
  pose proof (find_col_In _ _ _ He) as HeIn; pose proof (Hlen _ HeIn) as Hne; cbn [snd] in Hne.
  (* a column is Electrical itself or has no missing cell *)
  assert (Hcol : forall l v, In (l, v) (columns df) -> v = e \/ countb isnull v = 0).
  { intros l v Hlv; destruct (String.eqb_spec l electrical) as [->|Hl]; [left|right; eauto].
    exact (NoDup_fst_unique _ _ _ _ Hnd Hlv HeIn). }
  assert (Hdense : dense_columns df = columns df).
  { apply filter_all, Forall_forall; intros [l v] Hlv; apply Nat.leb_le; cbn [snd].
    destruct (Hcol l v Hlv) as [-> | ->]; lia. }
  rewrite clean_eq_ref, He, H1 by exact Hwf; cbn [Nat.leb].
  eexists; split; [reflexivity|]; unfold clean_ref, col_labels, nrows; cbn [columns index].
  rewrite Hdense, map_map; split; [reflexivity|split; [reflexivity|split]].
  - rewrite length_select by (unfold present; rewrite length_map; exact Hne).
    unfold present; rewrite countb_map_id, countb_negb, H1, Hne; reflexivity.
  - apply max_missing_zero; cbn [columns]; split.
    + destruct (columns df); [destruct HeIn|discriminate].
    + apply Forall_map, Forall_forall; intros [l v] Hlv; cbn [snd].
      apply select_present_no_missing; [exact (eq_trans (Hlen _ Hlv) (eq_sym Hne))|].
      intros x Hx Hn; destruct (Hcol l v Hlv) as [->|Hv].
      * rewrite <- (in_combine_same e x Hx); exact Hn.
      * pose proof (countb_In_pos isnull v (fst x) (in_combine_l _ _ _ _ (eq_rect _ (fun y => In y _) Hx _ (surjective_pairing x))) Hn); lia.
Qed.

(** ** The audit table *)

(** C5 (invariant). The Total column of the table line 133 builds lists
    every column of the frame once with its missing count, largest first. *)
Theorem audit_totals (df : frame) :
  map (fun r => (md_label r, md_total r)) (audit df) =
  map (fun p => (fst p, Some (snd p))) (total df) /\
  Sorted (fun a b => snd b <= snd a) (total df) /\
  Permutation (isnull_sum df) (total df).
Proof.
  split; [rewrite audit_rows, map_map; reflexivity|split; [|apply total_perm]].
  apply (Sorted_weaken _ _ _ (fun a b H => proj1 (Nat.leb_le _ _) H)).
  apply CountSort.Sorted_sort.
Qed.

Lemma ratio_bounds (t n : nat) :
  t <= n -> 0 < n -> exists q, ratio t n = Some q /\ (0 <= q <= 1)%Q.
Proof.
  intros Htn Hn; unfold ratio; destruct (Nat.eqb_spec n 0); [lia|].
  eexists; split; [reflexivity|].
  assert (Hpos : (0 < inject_Z (Z.of_nat n))%Q)
    by (change 0%Q with (inject_Z 0); rewrite <- Zlt_Qlt; lia).
  split; [apply Qle_shift_div_l | apply Qle_shift_div_r]; auto.
  - rewrite Qmult_0_l; change 0%Q with (inject_Z 0); rewrite <- Zle_Qle; lia.
  - rewrite Qmult_1_l, <- Zle_Qle; lia.
Qed.

Lemma lookup_label_In {A} (s : list (string * A)) k a :
  NoDup (map fst s) -> In (k, a) s -> lookup_label k s = Some a.
Proof.
  induction s as [|[k' b] s IH]; simpl; [tauto|]; intros Hnd Hin; inv Hnd.
  destruct (String.eqb_spec k k') as [->|Hne].
  - destruct Hin as [E|Hin]; [inv E; auto|].
    apply (in_map fst) in Hin; contradiction.
  - destruct Hin as [E|Hin]; [inv E; contradiction|auto].
Qed.

Lemma series_div_columns (df : frame) :
  series_div (isnull_sum df) (isnull_count df) =
  map (fun lv => (fst lv, ratio (countb isnull (snd lv)) (length (snd lv)))) (columns df).
Proof.
  unfold series_div, isnull_sum, isnull_count.
  induction (columns df) as [|lv cols IH]; simpl; [reflexivity|rewrite IH; reflexivity].
Qed.

(** The share line 132 gives each column, found by its label. *)
Lemma percent_lookup (df : frame) l v :
  wf df -> In (l, v) (columns df) ->
  lookup_label l (percent df) = Some (ratio (countb isnull v) (nrows df)).
Proof.
  intros (_ & Hnd & Hlen) Hv; rewrite Forall_forall in Hlen.
  pose proof (ShareSort.Permuted_sort (series_div (isnull_sum df) (isnull_count df))) as P.
  unfold ShareDesc.t in P; rewrite series_div_columns in P.
  apply lookup_label_In; unfold percent; rewrite series_div_columns.
  - apply (Permutation_NoDup (Permutation_map fst P)); rewrite map_map; exact Hnd.
  - apply (Permutation_in _ P), in_map_iff; exists (l, v); split; auto.
    rewrite (Hlen _ Hv); reflexivity.
Qed.

(** C6 (bounds). Every row of the table line 133 builds carries the
    column's missing count and its share of the rows, a number between 0
    and 1 when the frame has a row (NaN when it has none). *)
Theorem audit_percent (df : frame) r :
  wf df -> In r (audit df) ->
  exists v, In (md_label r, v) (columns df) /\
    md_total r = Some (countb isnull v) /\
    md_percent r = ratio (countb isnull v) (nrows df) /\
    (0 < nrows df -> exists q, md_percent r = Some q /\ (0 <= q <= 1)%Q).
Proof.
  intros Hwf Hr; rewrite audit_rows in Hr.
  apply in_map_iff in Hr as ([l t] & <- & Ht); simpl.
  apply (Permutation_in _ (Permutation_sym (total_perm df))), in_map_iff in Ht
    as ([l' v] & E & Hv); simpl in E; inv E.
  exists v; rewrite (percent_lookup df _ v Hwf Hv); repeat split; auto.
  intros Hn; apply ratio_bounds; auto.
  pose proof Hwf as (_ & _ & Hlen); rewrite Forall_forall in Hlen.
  rewrite <- (Hlen _ Hv); apply countb_le_length.
Qed.

(** ** Concrete runs *)

Section Runs.
Local Open Scope string_scope.

Lemma scenario_wf : wf scenario.
Proof. apply wfb_wf; vm_compute; reflexivity. Qed.

Lemma train_sample_wf : wf train_sample.
Proof. apply wfb_wf; vm_compute; reflexivity. Qed.

(** The specification's postcondition that no missing value remains
    after the cleaning does not hold of the code: a column other than
    Electrical with exactly one missing cell, on another row, survives both
    drops, and line 166 prints 1 ([clean_no_missing_iff] says when it
    prints 0). *)
Example clean_leaves_missing :
  wf train_sample /\ clean train_sample = Ok train_sample_clean /\
  max_missing train_sample_clean = Some 1.
Proof. split; [exact train_sample_wf | split; vm_compute; reflexivity]. Qed.

Lemma clean_refines_witness :
  clean scenario =
  match find_col electrical (columns scenario) with
  | Some e => if Nat.leb (countb isnull e) 1 then Ok (clean_ref scenario e)
              else Err (KeyError [electrical])
  | None => Err (KeyError [electrical])
  end.
Proof. apply clean_refines; apply wfb_wf; vm_compute; reflexivity. Defined.

Lemma clean_one_missing_witness :
  exists e, find_col electrical (columns scenario) = Some e /\ countb isnull e = 1 /\
  exists df', clean scenario = Ok df' /\ col_labels df' = col_labels scenario /\
    index df' = select (present e) (index scenario) /\ nrows df' = nrows scenario - 1 /\
    max_missing df' = Some 0.
Proof.
  eexists; split; [vm_compute; reflexivity|split; [vm_compute; reflexivity|]].
  apply clean_one_missing; [exact scenario_wf|vm_compute; reflexivity|vm_compute; reflexivity|].
  intros l v Hlv Hl; vm_compute in Hlv.
  destruct Hlv as [E|[E|[E|[]]]]; injection E as <- <-; [reflexivity|destruct (Hl eq_refl)|reflexivity].
Defined.

Lemma clean_wf_witness : wf train_sample_clean.
Proof.
  apply (clean_wf train_sample); [apply wfb_wf; vm_compute; reflexivity|].
  vm_compute; reflexivity.
Defined.

Lemma clean_missing_count_witness :
  exists v e,
    In ("Alley", v) (columns train_sample) /\ countb isnull v <= 1 /\
    find_col electrical (columns train_sample) = Some e /\
    countb isnull [NaN; Str "Pave"; Str "Pave"] =
    countb (fun x => negb (isnull (snd x)) && isnull (fst x)) (combine v e).
Proof.
  apply (clean_missing_count train_sample train_sample_clean).
  - apply wfb_wf; vm_compute; reflexivity.
  - vm_compute; reflexivity.
  - simpl; auto.
Defined.

Lemma clean_no_missing_iff_witness :
  max_missing train_sample_clean = Some 0 <->
  Forall (fun lv => forall x, In x (combine (snd lv)
                                      [Str "SBrkr"; NaN; Str "FuseA"; Str "SBrkr"]) ->
                    isnull (fst x) = true -> isnull (snd x) = true)
         (dense_columns train_sample).
Proof.
  apply (clean_no_missing_iff train_sample train_sample_clean).
  - apply wfb_wf; vm_compute; reflexivity.
  - vm_compute; reflexivity.
  - vm_compute; reflexivity.
Defined.

Lemma audit_percent_witness :
  exists v, In ("PoolQC", v) (columns train_sample) /\
    Some 3 = Some (countb isnull v) /\
    Some (3 # 4)%Q = ratio (countb isnull v) (nrows train_sample) /\
    (0 < nrows train_sample -> exists q, Some (3 # 4)%Q = Some q /\ (0 <= q <= 1)%Q).
Proof.
  apply (audit_percent train_sample (mkRow "PoolQC" (Some 3) (Some (3 # 4)%Q))).
  - apply wfb_wf; vm_compute; reflexivity.
  - vm_compute; left; reflexivity.
Defined.
End Runs.

End MissingData.
