(* ===== verification/Stats.v ===== *)
(** * Summary statistics of the target column (lines 14-34)

    [src/house_prices_eda.py] describes [SalePrice] with
    [df_train['SalePrice'].describe()] (line 15) and prints its skewness
    [df_train['SalePrice'].skew()] (line 28); a docstring (lines 30-34)
    reads the skewness as fairly symmetrical, moderately skewed or highly
    skewed.  pandas skips missing values ([skipna=True]).
    - [numeric_values]: the numbers of a Series, NaN skipped, TypeError on
      a string;
    - [describe]: on a numeric Series, count, mean, sample variance (the
      square of [std]), minimum, the 25%, 50% and 75% rows and maximum,
      the quartiles by numpy's linear quantile ([sort_values], an
      insertion sort, then [interp_at]); on an object Series (one holding
      a string), count, unique, top and freq ([value_counts],
      [top_freq]);
    - [skew_R]: pandas' [nanskew], the adjusted Fisher-Pearson coefficient
      n sqrt(n-1)/(n-2) * m3 / m2^(3/2) over the centred sums m2, m3, NaN
      below three values and 0 when m2 is 0, as a real number;
      [skew_sq] (its square) and [skew_sign] (its sign) are exact
      rational proof devices;
    - [classify]: the docstring's rule on the real skewness. *)

From Stdlib Require Import ZArith Reals Qreals Qminmax Qround.
From S2P Require Import Prelude Cell.
From Stdlib Require Import Psatz.

Module Stats.

Local Open Scope Q_scope.

(** The numbers of a Series, NaN skipped; a string raises TypeError. *)
Fixpoint numeric_values (s : list cell) : result (list Q) :=
  match s with
  | [] => Ok []
  | NaN :: s' => numeric_values s'
  | Num q :: s' => vs <- numeric_values s' ;; Ok (q :: vs)
  | Str _ :: _ => Err TypeError
  end.

Definition qsum (l : list Q) : Q := fold_right Qplus 0 l.

(** The number of values, as a float. *)
Definition qlen (l : list Q) : Q := inject_Z (Z.of_nat (length l)).

(** The sum of the [k]-th powers of the deviations from [c]. *)
Definition dev2 (c : Q) (l : list Q) : Q := qsum (map (fun x => (x - c) * (x - c)) l).
Definition dev3 (c : Q) (l : list Q) : Q :=
  qsum (map (fun x => (x - c) * (x - c) * (x - c)) l).

(** [Series.mean]: NaN on no value. *)
Definition mean (l : list Q) : option Q :=
  match l with
  | [] => None
  | _ => Some (qsum l / qlen l)
  end.

(** [Series.var] with [ddof=1], the square of [std]: NaN below two values. *)
Definition var (l : list Q) : option Q :=
  if Nat.ltb (length l) 2 then None
  else Some (dev2 (qsum l / qlen l) l / (qlen l - 1)).

Definition qmin (l : list Q) : option Q :=
  match l with
  | [] => None
  | x :: r => Some (fold_left Qmin r x)
  end.

Definition qmax (l : list Q) : option Q :=
  match l with
  | [] => None
  | x :: r => Some (fold_left Qmax r x)
  end.

(** Insertion into an ascending list; [sort_values] orders the values as
    numpy's percentile does before interpolating. *)
Fixpoint insert_asc (x : Q) (l : list Q) : list Q :=
  match l with
  | [] => [x]
  | y :: r => if Qle_bool x y then x :: y :: r else y :: insert_asc x r
  end.

Definition sort_values (l : list Q) : list Q := fold_right insert_asc [] l.

(** Linear interpolation between the [i]-th and the next sorted value. *)
Definition interp_at (s : list Q) (i : nat) (f : Q) : Q :=
  nth i s 0 + (nth (S i) s (nth i s 0) - nth i s 0) * f.

(** [Series.quantile(p)] with numpy's linear interpolation: the value at
    the fractional position (n-1) p of the sorted values; NaN on no value. *)
Definition quantile (l : list Q) (p : Q) : option Q :=
  match sort_values l with
  | [] => None
  | s => let h := (qlen l - 1) * p in
         Some (interp_at s (Z.to_nat (Qfloor h)) (h - inject_Z (Qfloor h)))
  end.

Record summary := mkSummary {
  count : nat; s_mean : option Q; s_var : option Q; s_min : option Q;
  s_q25 : option Q; s_q50 : option Q; s_q75 : option Q; s_max : option Q
}.

(** [value_counts()]: the distinct values that are not missing, in order
    of first occurrence, each with its number of occurrences. *)
Definition value_counts (s : list cell) : list (cell * nat) :=
  map (fun g => (g, countb (cell_eqb g) s)) (unique_cells [] (filter (fun c => negb (isnull c)) s)).

(** [objcounts.index[0], objcounts.iloc[0]] after [value_counts]' descending
    sort: the most frequent value, the first one among ties (numpy's sort
    keeps them in place for the short arrays of counts a column gives). *)
Fixpoint top_freq (best : cell * nat) (l : list (cell * nat)) : cell * nat :=
  match l with
  | [] => best
  | x :: r => top_freq (if Nat.ltb (snd best) (snd x) then x else best) r
  end.

(** What [describe()] returns: the eight rows of a numeric Series, or the
    count, unique, top and freq rows of an object Series. *)
Inductive description :=
| NumDescr (sm : summary)
| ObjDescr (n unique : nat) (top : option cell) (freq : option nat).

(** Line 15: [describe()]; a column holding a string has the object dtype
    and gets [describe_categorical_1d], a numeric one
    [describe_numeric_1d]. *)
Definition describe (s : list cell) : result description :=
  if float_column s then
    l <- numeric_values s ;;
    Ok (NumDescr (mkSummary (length l) (mean l) (var l) (qmin l)
          (quantile l (1 # 4)) (quantile l (1 # 2)) (quantile l (3 # 4)) (qmax l)))
  else
    Ok (match value_counts s with
        | [] => ObjDescr 0 0 None None
        | x :: r => let '(t, f) := top_freq x r in
                    ObjDescr (countb (fun c => negb (isnull c)) s) (length (x :: r)) (Some t) (Some f)
        end).

(** Line 28: pandas' [nanskew] on the values, as a real number. *)
Definition skew_R (l : list Q) : option R :=
  let n := length l in
  let c := qsum l / qlen l in
  if Nat.ltb n 3 then None
  else if Qeq_bool (dev2 c l) 0 then Some 0%R
  else Some (INR n * sqrt (INR n - 1) / (INR n - 2) *
             (Q2R (dev3 c l) / (Q2R (dev2 c l) * sqrt (Q2R (dev2 c l)))))%R.

(** The square of the skewness, exactly. *)
Definition skew_sq (l : list Q) : option Q :=
  let n := qlen l in
  let c := qsum l / n in
  if Nat.ltb (length l) 3 then None
  else if Qeq_bool (dev2 c l) 0 then Some 0
  else Some (n * n * (n - 1) * (dev3 c l * dev3 c l) /
             ((n - 2) * (n - 2) * (dev2 c l * dev2 c l * dev2 c l))).

(** The sign of the skewness: that of the third centred sum. *)
Definition skew_sign (l : list Q) : option comparison :=
  if Nat.ltb (length l) 3 then None
  else if Qeq_bool (dev2 (qsum l / qlen l) l) 0 then Some Eq
  else Some (Qcompare (dev3 (qsum l / qlen l) l) 0).

(** Line 28 on a column. *)
Definition skew (s : list cell) : result (option R) :=
  l <- numeric_values s ;; Ok (skew_R l).

(** Lines 30-34: the interpretation of the skewness. *)
Inductive skew_class := FairlySymmetrical | ModeratelySkewed | HighlySkewed.

Definition classify (g : R) : skew_class :=
  if Rle_dec (Rabs g) (1/2) then FairlySymmetrical
  else if Rle_dec (Rabs g) 1 then ModeratelySkewed
  else HighlySkewed.

(** A sample symmetric about [c]: the values [c + x] and [c - x] for each
    [x] of [d], and [k] values equal to [c]. *)
Definition symmetric_sample (c : Q) (d : list Q) (k : nat) : list Q :=
  map (fun x => c + x) d ++ map (fun x => c - x) d ++ repeat c k.

(** ** Samples *)

(** A right-skewed sample: four equal values and one far above them. *)
Definition right_skewed : list Q := [1; 1; 1; 1; 10].

(** The first SalePrice values of train.csv, with one missing. *)
Definition saleprice_sample : list cell :=
  [Num 208500; Num 181500; NaN; Num 223500; Num 140000].

(** ** Sums of rationals *)

Lemma qsum_cons (x : Q) l : qsum (x :: l) = x + qsum l.
Proof. reflexivity. Qed.

Lemma qsum_app (a b : list Q) : qsum (a ++ b) == qsum a + qsum b.
Proof. induction a as [|x a IH]; simpl; [ring|rewrite IH; ring]. Qed.

Lemma qsum_perm (a b : list Q) : Permutation a b -> qsum a == qsum b.
Proof.
  induction 1; simpl; [reflexivity | rewrite IHPermutation; reflexivity | ring |].
  rewrite IHPermutation1; exact IHPermutation2.
Qed.

Lemma qsum_map_ext {A : Type} (f g : A -> Q) (l : list A) :
  (forall x, In x l -> f x == g x) -> qsum (map f l) == qsum (map g l).
Proof.
  induction l as [|x l IH]; simpl; intros H; [reflexivity|].
  rewrite (H x (or_introl eq_refl)), IH by auto; reflexivity.
Qed.

Lemma qsum_nonneg (l : list Q) : Forall (fun x => 0 <= x) l -> 0 <= qsum l.
Proof.
  induction 1 as [|x l Hx _ IH]; simpl; [apply Qle_refl|].
  apply (Qplus_le_compat 0 x 0 (qsum l)) in Hx; auto.
Qed.

Lemma Qsq_nonneg (y : Q) : 0 <= y * y.
Proof.
  destruct (Qlt_le_dec y 0) as [H|H].
  - setoid_replace (y * y) with ((- y) * (- y)) by ring; apply Qmult_le_0_compat; lra.
  - apply Qmult_le_0_compat; lra.
Qed.

Lemma dev2_nonneg (c : Q) (l : list Q) : 0 <= dev2 c l.
Proof.
  apply qsum_nonneg, Forall_forall; intros y Hy.
  apply in_map_iff in Hy as (x & <- & _); apply Qsq_nonneg.
Qed.

(** ** From rationals to reals *)

Lemma Q2R_inject_Z (z : Z) : Q2R (inject_Z z) = IZR z.
Proof. unfold Q2R; simpl; rewrite Rinv_1, Rmult_1_r; reflexivity. Qed.

Lemma Q2R_qlen (l : list Q) : Q2R (qlen l) = INR (length l).
Proof. unfold qlen; rewrite Q2R_inject_Z, INR_IZR_INZ; reflexivity. Qed.

Lemma Rabs_le_sq (g a : R) : (0 <= a)%R -> (Rabs g <= a <-> g * g <= a * a)%R.
Proof.
  intros Ha; split; intros H.
  - apply (Rsqr_le_abs_1 g a); rewrite (Rabs_pos_eq a Ha); exact H.
  - rewrite <- (Rabs_pos_eq a Ha); apply Rsqr_le_abs_0; exact H.
Qed.

Lemma Q2R_small (z : Z) : Q2R (z # 1) = IZR z.
Proof. exact (Q2R_inject_Z z). Qed.

(** The square of pandas' coefficient, in closed form. *)
Lemma skew_formula_sq (N M2 M3 : R) :
  (3 <= N)%R -> (0 < M2)%R ->
  (N * sqrt (N - 1) / (N - 2) * (M3 / (M2 * sqrt M2)) *
   (N * sqrt (N - 1) / (N - 2) * (M3 / (M2 * sqrt M2))) =
   N * N * (N - 1) * (M3 * M3) / ((N - 2) * (N - 2) * (M2 * M2 * M2)))%R.
Proof.
  intros HN HM.
  assert (Hs : (0 < sqrt M2)%R) by (apply sqrt_lt_R0; exact HM).
  transitivity (N * N * (sqrt (N - 1) * sqrt (N - 1)) * (M3 * M3) /
                ((N - 2) * (N - 2) * (M2 * M2 * (sqrt M2 * sqrt M2))))%R.
  - assert (N - 2 <> 0)%R by lra; assert (M2 <> 0)%R by lra;
      assert (sqrt M2 <> 0)%R by lra.
    field; repeat split; auto.
  - rewrite (sqrt_sqrt (N - 1)), (sqrt_sqrt M2) by lra; reflexivity.
Qed.

(** The rational square of the skewness denotes the square of the real one. *)
Lemma Q2R_skew_sq (n m2 m3 : Q) :
  ~ n - 2 == 0 -> ~ m2 == 0 ->
  Q2R (n * n * (n - 1) * (m3 * m3) / ((n - 2) * (n - 2) * (m2 * m2 * m2))) =
  (Q2R n * Q2R n * (Q2R n - 1) * (Q2R m3 * Q2R m3) /
   ((Q2R n - 2) * (Q2R n - 2) * (Q2R m2 * Q2R m2 * Q2R m2)))%R.
Proof.
  intros Hn Hm; rewrite Q2R_div.
  - rewrite !Q2R_mult, !Q2R_minus, Q2R_small, Q2R_small; reflexivity.
  - intros H; repeat (apply Qmult_integral in H as [H|H]); contradiction.
Qed.

Lemma qlen_ge3 (l : list Q) : (3 <= length l)%nat -> 3 <= qlen l.
Proof.
  intros H; unfold qlen; change 3 with (inject_Z 3); rewrite <- Zle_Qle; lia.
Qed.

(** The rational square is the square of the real skewness. *)
Lemma skew_R_sq (l : list Q) g :
  skew_R l = Some g -> exists s, skew_sq l = Some s /\ (g * g = Q2R s)%R.
Proof.
  unfold skew_R, skew_sq.
  destruct (Nat.ltb_spec (length l) 3) as [_|Hn]; [discriminate|].
  set (c := qsum l / qlen l).
  destruct (Qeq_bool (dev2 c l) 0) eqn:Hz; intros [= <-]; eexists; split; try reflexivity.
  - rewrite RMicromega.Q2R_0; ring.
  - assert (Hm : ~ dev2 c l == 0) by (rewrite <- Qeq_bool_iff; congruence).
    pose proof (qlen_ge3 l Hn) as Hq.
    rewrite Q2R_skew_sq by (auto; lra).
    rewrite Q2R_qlen; apply skew_formula_sq.
    + apply le_INR in Hn; simpl in Hn; lra.
    + pose proof (Qle_Rle _ _ (dev2_nonneg c l)) as H0; rewrite RMicromega.Q2R_0 in H0.
      pose proof (RMicromega.Qeq_false _ _ Hz) as H1; rewrite RMicromega.Q2R_0 in H1; lra.
Qed.

Lemma Qle_bool_Q2R (a b : Q) : Qle_bool a b = true <-> (Q2R a <= Q2R b)%R.
Proof. rewrite Qle_bool_iff; split; [apply Qle_Rle | apply Rle_Qle]. Qed.

(** The rule depends on the skewness through its square only. *)
Lemma classify_by_square (g : R) :
  classify g = if Rle_dec (g * g) (1 / 4) then FairlySymmetrical
               else if Rle_dec (g * g) 1 then ModeratelySkewed else HighlySkewed.
Proof.
  unfold classify.
  destruct (Rle_dec (Rabs g) (1 / 2)) as [A|A]; rewrite Rabs_le_sq in A by lra;
    destruct (Rle_dec (g * g) (1 / 4)) as [B|B]; try reflexivity; try (exfalso; lra).
  destruct (Rle_dec (Rabs g) 1) as [C|C]; rewrite Rabs_le_sq in C by lra;
    destruct (Rle_dec (g * g) 1) as [D|D]; try reflexivity; exfalso; lra.
Qed.

(** ** Symmetric samples *)

Lemma qsum_symmetric (c : Q) d k :
  qsum (symmetric_sample c d k) == qlen (symmetric_sample c d k) * c.
Proof.
  unfold symmetric_sample, qlen; rewrite !qsum_app, !length_app, !length_map, repeat_length.
  rewrite !Nat2Z.inj_add, !inject_Z_plus.
  assert (Hd : qsum (map (fun x => c + x) d) + qsum (map (fun x => c - x) d) ==
               inject_Z (Z.of_nat (length d)) * c + inject_Z (Z.of_nat (length d)) * c).
  { induction d as [|x d IH]; [simpl; ring|].
    cbn [map qsum fold_right length]; fold (qsum (map (fun x0 => c + x0) d)).
    fold (qsum (map (fun x0 => c - x0) d)).
    rewrite Nat2Z.inj_succ; unfold Z.succ; rewrite inject_Z_plus.
    setoid_replace (c + x + qsum (map (fun x0 => c + x0) d) +
                    (c - x + qsum (map (fun x0 => c - x0) d)))
      with (2 * c + (qsum (map (fun x0 => c + x0) d) + qsum (map (fun x0 => c - x0) d)))
      by ring.
    rewrite IH; ring. }
  assert (Hk : qsum (repeat c k) == inject_Z (Z.of_nat k) * c).
  { induction k as [|k IH]; [simpl; ring|].
    cbn [repeat qsum fold_right]; fold (qsum (repeat c k)).
    rewrite IH, Nat2Z.inj_succ; unfold Z.succ; rewrite inject_Z_plus; ring. }
  rewrite Hk; setoid_replace (qsum (map (fun x => c + x) d) + (qsum (map (fun x => c - x) d) +
    inject_Z (Z.of_nat k) * c)) with ((qsum (map (fun x => c + x) d) +
    qsum (map (fun x => c - x) d)) + inject_Z (Z.of_nat k) * c) by ring.
  rewrite Hd; ring.
Qed.

Lemma dev3_symmetric (c : Q) d k : dev3 c (symmetric_sample c d k) == 0.
Proof.
  unfold dev3, symmetric_sample; rewrite !map_app, !qsum_app.
  assert (Hd : qsum (map (fun y => (y - c) * (y - c) * (y - c)) (map (fun x => c + x) d)) ==
               - qsum (map (fun y => (y - c) * (y - c) * (y - c)) (map (fun x => c - x) d))).
  { induction d as [|x d IH]; simpl; [ring|rewrite IH; ring]. }
  assert (Hk : qsum (map (fun y => (y - c) * (y - c) * (y - c)) (repeat c k)) == 0).
  { induction k as [|k IH]; simpl; [ring|rewrite IH; ring]. }
  rewrite Hd, Hk; ring.
Qed.

Lemma dev3_perm (c : Q) (a b : list Q) : Permutation a b -> dev3 c a == dev3 c b.
Proof. intros P; apply qsum_perm, Permutation_map, P. Qed.

Lemma dev3_center (c c' : Q) (l : list Q) : c == c' -> dev3 c l == dev3 c' l.
Proof. intros H; apply qsum_map_ext; intros x _; rewrite H; reflexivity. Qed.

(** C13 (functional). The skewness pandas computes (line 28) of any
    arrangement of a sample symmetric about a centre, with at least three
    values, is 0: the docstring's fairly symmetrical case. *)
Theorem skew_symmetric (l : list Q) c d k :
  Permutation l (symmetric_sample c d k) -> (3 <= length l)%nat -> skew_R l = Some 0%R.
Proof.
  intros P Hn; unfold skew_R.
  destruct (Nat.ltb_spec (length l) 3); [lia|].
  destruct (Qeq_bool _ 0); [reflexivity|].
  assert (Hq : qlen l = qlen (symmetric_sample c d k))
    by (unfold qlen; rewrite (Permutation_length P); reflexivity).
  pose proof (qlen_ge3 l Hn) as H3.
  assert (Hc : qsum l / qlen l == c).
  { rewrite (qsum_perm _ _ P), qsum_symmetric, <- Hq; field; lra. }
  rewrite (Qeq_eqR _ _ (dev3_center _ _ l Hc)), (Qeq_eqR _ _ (dev3_perm c _ _ P)).
  rewrite (Qeq_eqR _ _ (dev3_symmetric c d k)), RMicromega.Q2R_0.
  f_equal; unfold Rdiv; ring.
Qed.

(** ** describe() *)

Lemma numeric_values_count (s : list cell) l :
  numeric_values s = Ok l -> length l = countb (fun c => negb (isnull c)) s.
Proof.
  revert l; induction s as [|[|q|t] s IH]; simpl; intros l H.
  - inv H; reflexivity.
  - rewrite countb_cons; simpl; auto.
  - bind_inv H; inv H; rewrite countb_cons; simpl; rewrite (IH a Ha); reflexivity.
  - discriminate.
Qed.

Lemma numeric_values_error (s : list cell) :
  (exists e, numeric_values s = Err e) <-> exists t, In (Str t) s.
Proof.
  induction s as [|[|q|t] s IH]; simpl.
  - split; [intros [e H]; discriminate | intros [t []]].
  - rewrite IH; split; intros [t H]; exists t; [right|destruct H as [H|H]; [discriminate|]]; auto.
  - destruct (numeric_values s) as [l|e] eqn:E; simpl.
    + split; [intros [e H]; discriminate|intros [t [H|H]]; [discriminate|]].
      destruct (proj2 IH (ex_intro _ t H)) as [e He]; discriminate.
    + split; [intros _|eauto].
      destruct (proj1 IH (ex_intro _ e eq_refl)) as [t Ht]; eauto.
  - split; eauto.
Qed.

Lemma numeric_values_TypeError (s : list cell) e : numeric_values s = Err e -> e = TypeError.
Proof.
  induction s as [|[|q|t] s IH]; simpl; try discriminate; auto; [|congruence].
  destruct (numeric_values s); simpl; [discriminate|auto].
Qed.

Lemma fold_left_Qmin_le (l : list Q) x :
  Forall (fun y => fold_left Qmin l x <= y) (x :: l).
Proof.
  revert x; induction l as [|y l IH]; intros x; simpl; [constructor; [apply Qle_refl|auto]|].
  pose proof (IH (Qmin x y)) as H; inv H.
  constructor; [|constructor]; auto;
    eapply Qle_trans; eauto; [apply Q.le_min_l | apply Q.le_min_r].
Qed.

Lemma fold_left_Qmax_ge (l : list Q) x :
  Forall (fun y => y <= fold_left Qmax l x) (x :: l).
Proof.
  revert x; induction l as [|y l IH]; intros x; simpl; [constructor; [apply Qle_refl|auto]|].
  pose proof (IH (Qmax x y)) as H; inv H.
  constructor; [|constructor]; auto;
    eapply Qle_trans; eauto; [apply Q.le_max_l | apply Q.le_max_r].
Qed.

Lemma qlen_cons (x : Q) l : qlen (x :: l) == 1 + qlen l.
Proof.
  unfold qlen; cbn [length]; rewrite Nat2Z.inj_succ; unfold Z.succ.
  rewrite inject_Z_plus; ring.
Qed.

Lemma qsum_bounds (l : list Q) lo hi :
  Forall (fun x => lo <= x <= hi) l -> qlen l * lo <= qsum l <= qlen l * hi.
Proof.
  induction 1 as [|x l Hx _ IH]; [unfold qlen, inject_Z; simpl; lra|].
  rewrite qlen_cons; cbn [qsum fold_right]; fold (qsum l); split; lra.
Qed.

Lemma qlen_pos (l : list Q) : l <> [] -> 0 < qlen l.
Proof.
  intros H; unfold qlen; destruct l; [congruence|].
  change 0 with (inject_Z 0); rewrite <- Zlt_Qlt; simpl; lia.
Qed.

(** The mean of a non-empty sample lies between its minimum and maximum. *)
Lemma mean_between (l : list Q) m lo hi :
  mean l = Some m -> qmin l = Some lo -> qmax l = Some hi -> lo <= m <= hi.
Proof.
  destruct l as [|x r]; unfold mean, qmin, qmax; [discriminate|]; intros [= <-] [= <-] [= <-].
  assert (Hb : Forall (fun y => fold_left Qmin r x <= y <= fold_left Qmax r x) (x :: r)).
  { pose proof (fold_left_Qmin_le r x) as H1; pose proof (fold_left_Qmax_ge r x) as H2.
    rewrite Forall_forall in *; auto. }
  apply qsum_bounds in Hb as [H1 H2].
  assert (Hp : 0 < qlen (x :: r)) by (apply qlen_pos; discriminate).
  change (qsum (x :: r)) with (x + qsum r) in *.
  split; [apply Qle_shift_div_l | apply Qle_shift_div_r]; auto; lra.
Qed.

Lemma var_nonneg (l : list Q) v : var l = Some v -> 0 <= v.
Proof.
  unfold var; destruct (Nat.ltb_spec (length l) 2); [discriminate|]; intros [= <-].
  assert (H2 : 2 <= qlen l) by (unfold qlen; change 2 with (inject_Z 2); rewrite <- Zle_Qle; lia).
  apply Qle_shift_div_l; [lra|]; rewrite Qmult_0_l; apply dev2_nonneg.
Qed.

Lemma describe_num (s : list cell) sm :
  describe s = Ok (NumDescr sm) ->
  exists l, numeric_values s = Ok l /\
    sm = mkSummary (length l) (mean l) (var l) (qmin l)
           (quantile l (1 # 4)) (quantile l (1 # 2)) (quantile l (3 # 4)) (qmax l).
Proof.
  unfold describe; destruct (float_column s).
  - intros H; bind_inv H; inv H; eauto.
  - destruct (value_counts s) as [|x r]; [discriminate|].
    destruct (top_freq x r); discriminate.
Qed.

(** C16 (bounds). [describe()] (line 15) counts the non-missing values, its
    mean lies between its minimum and its maximum, and its variance (the
    square of [std]) is not negative. *)
Theorem describe_bounds (s : list cell) sm :
  describe s = Ok (NumDescr sm) ->
  count sm = countb (fun c => negb (isnull c)) s /\
  (forall m lo hi, s_mean sm = Some m -> s_min sm = Some lo -> s_max sm = Some hi ->
                   lo <= m <= hi) /\
  (forall v, s_var sm = Some v -> 0 <= v).
Proof.
  intros (l & Ha & ->)%describe_num; simpl.
  split; [apply numeric_values_count; exact Ha|].
  split; [intros m lo hi; apply mean_between | apply var_nonneg].
Qed.

Lemma numeric_values_float (s : list cell) :
  float_column s = true -> exists l, numeric_values s = Ok l.
Proof.
  intros F; destruct (numeric_values s) as [l|e] eqn:E; [eauto|exfalso].
  destruct (proj1 (numeric_values_error s) (ex_intro _ e E)) as [t Ht].
  assert (float_column s = false) by (apply float_column_false; eauto); congruence.
Qed.


(** The executable sign is the sign of the real skewness. *)
Lemma skew_sign_R (l : list Q) g :
  skew_R l = Some g ->
  match skew_sign l with
  | Some Gt => (0 < g)%R
  | Some Lt => (g < 0)%R
  | Some Eq => g = 0%R
  | None => False
  end.
Proof.
  unfold skew_R, skew_sign.
  destruct (Nat.ltb_spec (length l) 3) as [_|Hn]; [discriminate|].
  set (c := qsum l / qlen l).
  destruct (Qeq_bool (dev2 c l) 0) eqn:Hz; intros [= <-]; [reflexivity|].
  pose proof (Qle_Rle _ _ (dev2_nonneg c l)) as H0.
  pose proof (RMicromega.Qeq_false _ _ Hz) as H1; rewrite RMicromega.Q2R_0 in H0, H1.
  assert (HM : (0 < Q2R (dev2 c l))%R) by lra.
  assert (HN : (3 <= INR (length l))%R) by (apply le_INR in Hn; simpl in Hn; lra).
  assert (HA : (0 < INR (length l) * sqrt (INR (length l) - 1) / (INR (length l) - 2))%R).
  { apply Rdiv_lt_0_compat; [apply Rmult_lt_0_compat; [lra | apply sqrt_lt_R0; lra] | lra]. }
  assert (HD : (0 < Q2R (dev2 c l) * sqrt (Q2R (dev2 c l)))%R)
    by (apply Rmult_lt_0_compat; [lra | apply sqrt_lt_R0; lra]).
  destruct (Qcompare_spec (dev3 c l) 0) as [E|E|E].
  - rewrite (Qeq_eqR _ _ E), RMicromega.Q2R_0; unfold Rdiv; ring.
  - apply Qlt_Rlt in E; rewrite RMicromega.Q2R_0 in E.
    assert (Q2R (dev3 c l) / (Q2R (dev2 c l) * sqrt (Q2R (dev2 c l))) < 0)%R.
    { unfold Rdiv; rewrite <- (Rmult_0_l (/ (Q2R (dev2 c l) * sqrt (Q2R (dev2 c l))))).
      apply Rmult_lt_compat_r; [apply Rinv_0_lt_compat|]; lra. }
    nra.
  - apply Qlt_Rlt in E; rewrite RMicromega.Q2R_0 in E.
    assert (0 < Q2R (dev3 c l) / (Q2R (dev2 c l) * sqrt (Q2R (dev2 c l))))%R
      by (apply Rdiv_lt_0_compat; lra).
    nra.
Qed.

(** ** One value above equal ones *)

Lemma skew_R_Some (l : list Q) : (3 <= length l)%nat -> exists g, skew_R l = Some g.
Proof.
  intros Hn; unfold skew_R; destruct (Nat.ltb_spec (length l) 3); [lia|].
  destruct (Qeq_bool _ 0); eauto.
Qed.

Lemma qsum_map_repeat (f : Q -> Q) a k :
  qsum (map f (repeat a k)) == inject_Z (Z.of_nat k) * f a.
Proof.
  induction k as [|k IH]; cbn [repeat map]; [reflexivity|]; rewrite qsum_cons, IH.
  rewrite Nat2Z.inj_succ, <- Z.add_1_r, inject_Z_plus; ring.
Qed.

Lemma Q2R_nat (k : nat) : Q2R (inject_Z (Z.of_nat k)) = INR k.
Proof. rewrite Q2R_inject_Z, INR_IZR_INZ; reflexivity. Qed.

Lemma Qeq_bool_pos (x : Q) : 0 < x -> Qeq_bool x 0 = false.
Proof.
  intros H; apply not_true_iff_false; rewrite Qeq_bool_iff; intros E; rewrite E in H.
  exact (Qlt_irrefl _ H).
Qed.

Lemma Qdiv_pos (x y : Q) : 0 < x -> 0 < y -> 0 < x / y.
Proof.
  intros Hx Hy; apply Qlt_shift_div_l; [exact Hy|]; rewrite Qmult_0_l; exact Hx.
Qed.

Section OneOutlier.
Variables (a b : Q) (k : nat) (l : list Q).
Hypothesis Hab : a < b.
Hypothesis Hk : (2 <= k)%nat.
Hypothesis Hl : Permutation l (b :: repeat a k).

Let K := inject_Z (Z.of_nat k).

Lemma outlier_K : 2 <= K.
Proof. unfold K; change 2 with (inject_Z 2); rewrite <- Zle_Qle; lia. Qed.

Lemma outlier_len : qlen l == K + 1.
Proof.
  unfold qlen, K; rewrite (Permutation_length Hl); cbn [length]; rewrite repeat_length.
  rewrite Nat2Z.inj_succ, <- Z.add_1_r, inject_Z_plus; reflexivity.
Qed.

Lemma outlier_mean : qsum l / qlen l == a + (b - a) / (K + 1).
Proof.
  pose proof outlier_K.
  rewrite outlier_len, (qsum_perm _ _ Hl); cbn [repeat]; rewrite qsum_cons.
  rewrite <- (map_id (repeat a k)), qsum_map_repeat; fold K; field; lra.
Qed.

(** The centred sums: [k (b - a)^2 / n] and [k (k - 1) (b - a)^3 / n^2]. *)
Lemma outlier_dev2 : dev2 (qsum l / qlen l) l == K * (b - a) * (b - a) / (K + 1).
Proof.
  pose proof outlier_K; unfold dev2.
  rewrite (qsum_perm _ _ (Permutation_map _ Hl)); cbn [map]; rewrite qsum_cons, qsum_map_repeat.
  fold K; rewrite outlier_mean; field; lra.
Qed.

Lemma outlier_dev3 :
  dev3 (qsum l / qlen l) l == K * (K - 1) * (b - a) * (b - a) * (b - a) / ((K + 1) * (K + 1)).
Proof.
  pose proof outlier_K; unfold dev3.
  rewrite (qsum_perm _ _ (Permutation_map _ Hl)); cbn [map]; rewrite qsum_cons, qsum_map_repeat.
  fold K; rewrite outlier_mean; field; lra.
Qed.

Lemma outlier_length : (3 <= length l)%nat.
Proof. rewrite (Permutation_length Hl); cbn [length]; rewrite repeat_length; lia. Qed.

Lemma outlier_dev2_pos : 0 < dev2 (qsum l / qlen l) l.
Proof.
  pose proof outlier_K; rewrite outlier_dev2.
  apply Qdiv_pos; [repeat apply Qmult_lt_0_compat|]; lra.
Qed.

Lemma outlier_skew_sq : exists s, skew_sq l = Some s /\ s == K + 1.
Proof.
  pose proof outlier_K; pose proof outlier_length.
  unfold skew_sq; cbv zeta; destruct (Nat.ltb_spec (length l) 3); [lia|].
  rewrite (Qeq_bool_pos _ outlier_dev2_pos); eexists; split; [reflexivity|].
  rewrite outlier_dev3, outlier_dev2, outlier_len; field; lra.
Qed.

Lemma outlier_skew_sign : skew_sign l = Some Gt.
Proof.
  pose proof outlier_K; pose proof outlier_length.
  unfold skew_sign; destruct (Nat.ltb_spec (length l) 3); [lia|].
  rewrite (Qeq_bool_pos _ outlier_dev2_pos); f_equal; apply Qgt_alt.
  rewrite outlier_dev3; apply Qdiv_pos; repeat apply Qmult_lt_0_compat; lra.
Qed.

(** C14 (functional). pandas' skewness (line 28) of [k >= 2] equal values
    and one value above them, in any order, is exactly [sqrt (k + 1)]:
    the bias adjustment [n sqrt(n-1)/(n-2)] turns the sample skewness
    [(k - 1)/sqrt k] into [sqrt n]; the docstring (lines 30-34) reads it
    as highly skewed. *)
Theorem skew_one_outlier :
  skew_R l = Some (sqrt (INR (S k))) /\ classify (sqrt (INR (S k))) = HighlySkewed.
Proof.
  destruct (skew_R_Some l outlier_length) as [g Hg].
  destruct (skew_R_sq l g Hg) as (s & Hs & Hgg).
  destruct outlier_skew_sq as (s' & Hs' & E); rewrite Hs' in Hs; injection Hs as <-.
  pose proof (skew_sign_R l g Hg) as Hpos; rewrite outlier_skew_sign in Hpos.
  rewrite (Qeq_eqR _ _ E), Q2R_plus in Hgg; unfold K in Hgg; rewrite Q2R_nat, RMicromega.Q2R_1, <- S_INR in Hgg.
  assert (Hsq : g = sqrt (INR (S k))) by (rewrite <- Hgg; symmetry; apply sqrt_square; lra).
  subst g; split; [exact Hg|].
  rewrite classify_by_square, sqrt_sqrt by apply pos_INR.
  assert (H3 : (3 <= INR (S k))%R) by (apply le_INR in Hk; rewrite S_INR; simpl in Hk; lra).
  destruct (Rle_dec (INR (S k)) (1 / 4)); [lra|]; destruct (Rle_dec (INR (S k)) 1); [lra|reflexivity].
Qed.

End OneOutlier.

(** ** Sorting and interpolation (the quartiles of describe()) *)

Lemma interp_between (a b f : Q) :
  a <= b -> 0 <= f <= 1 -> a <= a + (b - a) * f <= b.
Proof.
  intros Hab [Hf0 Hf1].
  assert (0 <= (b - a) * f) by (apply Qmult_le_0_compat; lra).
  assert ((b - a) * f <= b - a).
  { assert (0 <= (b - a) * (1 - f)) by (apply Qmult_le_0_compat; lra).
    assert ((b - a) * (1 - f) == (b - a) - (b - a) * f) by ring.
    lra. }
  split; lra.
Qed.

Lemma interp_mono_frac (a b f f' : Q) :
  a <= b -> f <= f' -> a + (b - a) * f <= a + (b - a) * f'.
Proof.
  intros Hab Hff.
  assert (0 <= (b - a) * (f' - f)) by (apply Qmult_le_0_compat; lra).
  assert ((b - a) * (f' - f) == (b - a) * f' - (b - a) * f) by ring.
  lra.
Qed.

Lemma insert_asc_perm (x : Q) l : Permutation (x :: l) (insert_asc x l).
Proof.
  induction l as [|y l IH]; simpl; [auto|].
  destruct (Qle_bool x y); [auto|].
  eapply perm_trans; [apply perm_swap|]; constructor; exact IH.
Qed.

Lemma insert_asc_sorted (x : Q) l : Sorted Qle l -> Sorted Qle (insert_asc x l).
Proof.
  induction 1 as [|y l Hs IH Hd]; simpl; [constructor; auto|].
  destruct (Qle_bool x y) eqn:E; [constructor; [constructor; auto|constructor; apply Qle_bool_iff; exact E]|].
  constructor; [exact IH|].
  assert (Hyx : y <= x) by (apply Qlt_le_weak, Qnot_le_lt; rewrite <- Qle_bool_iff; congruence).
  destruct l as [|z l]; simpl; [constructor; exact Hyx|].
  inv Hd; destruct (Qle_bool x z); constructor; auto.
Qed.

Lemma sort_values_perm (l : list Q) : Permutation l (sort_values l).
Proof.
  induction l as [|x l IH]; simpl; [auto|].
  eapply perm_trans; [constructor; exact IH | apply insert_asc_perm].
Qed.

Lemma sort_values_sorted (l : list Q) : Sorted Qle (sort_values l).
Proof. induction l as [|x l IH]; simpl; [constructor | apply insert_asc_sorted, IH]. Qed.

(** In a sorted list, a later position holds a value at least as large. *)
Lemma nth_sorted (s : list Q) i j d d' :
  Sorted Qle s -> (i <= j < length s)%nat -> nth i s d <= nth j s d'.
Proof.
  intros Hs; apply Sorted_StronglySorted in Hs; [|intros a b c; apply Qle_trans].
  revert i j; induction Hs as [|x s Hs IH Hx]; intros i j Hij; simpl in *; [lia|].
  destruct i as [|i], j as [|j]; try lia; [apply Qle_refl| |apply IH; lia].
  rewrite Forall_forall in Hx; apply Hx, nth_In; lia.
Qed.

(** The interpolated value lies between its two neighbours, hence between
    the first and the last sorted value. *)
Lemma interp_at_between (s : list Q) i f :
  Sorted Qle s -> (i < length s)%nat -> 0 <= f <= 1 ->
  nth i s 0 <= interp_at s i f <= nth (S i) s (nth i s 0).
Proof.
  intros Hs Hi Hf; unfold interp_at.
  assert (Hle : nth i s 0 <= nth (S i) s (nth i s 0)).
  { destruct (Nat.lt_ge_cases (S i) (length s)).
    - apply nth_sorted; auto; lia.
    - rewrite (nth_overflow (n:=S i) s) by lia; apply Qle_refl. }
  apply interp_between; [exact Hle | exact Hf].
Qed.

Lemma interp_at_mono (s : list Q) i i' f f' :
  Sorted Qle s -> (i' < length s)%nat -> 0 <= f <= 1 -> 0 <= f' <= 1 ->
  (i < i')%nat \/ (i = i' /\ f <= f') ->
  interp_at s i f <= interp_at s i' f'.
Proof.
  intros Hs Hi' Hf Hf' [Hlt | [-> Hff]].
  - pose proof (interp_at_between s i f Hs ltac:(lia) Hf) as [_ H1].
    pose proof (interp_at_between s i' f' Hs Hi' Hf') as [H2 _].
    assert (nth (S i) s (nth i s 0) <= nth i' s 0).
    { rewrite (nth_indep s (nth i s 0) 0) by lia; apply nth_sorted; auto; lia. }
    eapply Qle_trans; [exact H1|]; eapply Qle_trans; eauto.
  - pose proof (interp_at_between s i' f Hs Hi' Hf) as [H1 H2].
    unfold interp_at in *; apply interp_mono_frac; [eapply Qle_trans; eauto | exact Hff].
Qed.

Lemma sort_values_length (l : list Q) : length (sort_values l) = length l.
Proof. symmetry; apply Permutation_length, sort_values_perm. Qed.

Lemma qlen_ge1 (l : list Q) : l <> [] -> 1 <= qlen l.
Proof.
  intros Hl; unfold qlen; change 1 with (inject_Z 1); rewrite <- Zle_Qle.
  destruct l; [congruence|simpl; lia].
Qed.

(** The position [h = (n-1) p] of a quantile: its integer part indexes the
    sorted values and its fractional part lies in [[0, 1]]. *)
Lemma quantile_position (l : list Q) p :
  l <> [] -> 0 <= p <= 1 ->
  let h := (qlen l - 1) * p in
  0 <= h /\ (Z.to_nat (Qfloor h) < length l)%nat /\ 0 <= h - inject_Z (Qfloor h) <= 1.
Proof.
  intros Hl [Hp0 Hp1] h.
  pose proof (qlen_ge1 l Hl) as HN.
  assert (H0 : 0 <= h) by (apply Qmult_le_0_compat; lra).
  assert (Hh : h <= qlen l - 1).
  { assert (0 <= (qlen l - 1) * (1 - p)) by (apply Qmult_le_0_compat; lra).
    assert ((qlen l - 1) * (1 - p) == (qlen l - 1) - h) by (unfold h; ring). lra. }
  pose proof (Qfloor_le h); pose proof (Qlt_floor h).
  rewrite inject_Z_plus in *; change (inject_Z 1) with 1 in *.
  split; [exact H0|split; [|lra]].
  assert (Hf : (Qfloor h < Z.of_nat (length l))%Z).
  { rewrite Zlt_Qlt; unfold qlen in *; lra. }
  assert (0 < length l)%nat by (destruct l; [congruence|simpl; lia]).
  lia.
Qed.

(** A larger position has a larger index, or the same index and a larger
    fractional part. *)
Lemma quantile_position_mono (h h' : Q) :
  0 <= h -> h <= h' ->
  (Z.to_nat (Qfloor h) < Z.to_nat (Qfloor h'))%nat \/
  (Z.to_nat (Qfloor h) = Z.to_nat (Qfloor h') /\
   h - inject_Z (Qfloor h) <= h' - inject_Z (Qfloor h')).
Proof.
  intros H0 Hh.
  pose proof (Qfloor_resp_le _ _ H0) as Hz; change 0 with (inject_Z 0) in Hz at 1; rewrite Qfloor_Z in Hz.
  pose proof (Qfloor_resp_le _ _ Hh) as Hm.
  destruct (Z.eq_dec (Qfloor h) (Qfloor h')) as [E|E]; [right|left; lia].
  rewrite E; split; [reflexivity|lra].
Qed.

(** numpy's linear quantile is monotone in the probability. *)
Lemma quantile_mono (l : list Q) p p' q q' :
  0 <= p -> p <= p' -> p' <= 1 ->
  quantile l p = Some q -> quantile l p' = Some q' -> q <= q'.
Proof.
  unfold quantile; destruct (sort_values l) as [|x r] eqn:Es; [discriminate|].
  intros Hp Hpp Hp' [= <-] [= <-].
  assert (Hl : l <> []) by (intros ->; discriminate).
  pose proof (sort_values_sorted l) as Hs; rewrite Es in Hs.
  pose proof (sort_values_length l) as Hn; rewrite Es in Hn.
  destruct (quantile_position l p Hl ltac:(lra)) as (H0 & _ & Hf).
  destruct (quantile_position l p' Hl ltac:(lra)) as (_ & Hi' & Hf').
  apply interp_at_mono; [exact Hs | rewrite Hn; exact Hi' | exact Hf | exact Hf' |].
  apply (quantile_position_mono ((qlen l - 1) * p) ((qlen l - 1) * p')); [exact H0|].
  pose proof (qlen_ge1 l Hl) as HN.
  assert (0 <= (qlen l - 1) * (p' - p)) by (apply Qmult_le_0_compat; lra).
  assert ((qlen l - 1) * (p' - p) == (qlen l - 1) * p' - (qlen l - 1) * p) by ring.
  lra.
Qed.

Lemma qmin_le (l : list Q) lo x : qmin l = Some lo -> In x l -> lo <= x.
Proof.
  destruct l as [|y r]; [discriminate|]; intros [= <-] Hx.
  pose proof (fold_left_Qmin_le r y) as H; rewrite Forall_forall in H; auto.
Qed.

Lemma qmax_ge (l : list Q) hi x : qmax l = Some hi -> In x l -> x <= hi.
Proof.
  destruct l as [|y r]; [discriminate|]; intros [= <-] Hx.
  pose proof (fold_left_Qmax_ge r y) as H; rewrite Forall_forall in H; auto.
Qed.

Lemma quantile_Some (l : list Q) p : l <> [] -> exists q, quantile l p = Some q.
Proof.
  intros Hl; unfold quantile; destruct (sort_values l) eqn:E; [|eexists; reflexivity].
  apply (f_equal (@length Q)) in E; rewrite sort_values_length in E.
  destruct l; [congruence|discriminate].
Qed.

(** Every quantile lies between the smallest and the largest value. *)
Lemma quantile_between (l : list Q) p q lo hi :
  0 <= p <= 1 -> quantile l p = Some q -> qmin l = Some lo -> qmax l = Some hi ->
  lo <= q <= hi.
Proof.
  intros Hp Hq Hlo Hhi.
  assert (Hl : l <> []) by (intros ->; discriminate).
  destruct (quantile_position l p Hl Hp) as (_ & Hi & Hf).
  unfold quantile in Hq; destruct (sort_values l) as [|x r] eqn:Es; [discriminate|].
  injection Hq as <-.
  pose proof (sort_values_sorted l) as Hs; rewrite Es in Hs.
  pose proof (sort_values_length l) as Hn; rewrite Es in Hn.
  assert (Hin : forall k, (k < length (x :: r))%nat -> In (nth k (x :: r) 0) l).
  { intros k Hk; apply (Permutation_in _ (Permutation_sym (sort_values_perm l))).
    rewrite Es; apply nth_In; exact Hk. }
  set (i := Z.to_nat (Qfloor ((qlen l - 1) * p))) in *.
  set (n := length (x :: r)) in *.
  destruct (interp_at_between (x :: r) i _ Hs ltac:(lia) Hf) as [H1 H2].
  split.
  - eapply Qle_trans; [apply (qmin_le l lo _ Hlo (Hin 0%nat ltac:(simpl in *; lia)))|].
    eapply Qle_trans; [|exact H1]; apply nth_sorted; auto; lia.
  - eapply Qle_trans; [exact H2|].
    eapply Qle_trans; [|apply (qmax_ge l hi _ Hhi (Hin (n - 1)%nat ltac:(simpl in *; lia)))].
    destruct (Nat.lt_ge_cases (S i) n).
    + apply nth_sorted; auto; lia.
    + rewrite (nth_overflow (n:=S i) (x :: r)) by lia; apply nth_sorted; auto; lia.
Qed.

(** C15 (bounds). The quartile rows of [describe()] (line 15) are
    present as soon as one value is, and the five order statistics come in
    order: min <= 25% <= 50% <= 75% <= max. *)
Theorem describe_quartiles (s : list cell) sm :
  describe s = Ok (NumDescr sm) -> (0 < count sm)%nat ->
  exists lo q1 q2 q3 hi,
    s_min sm = Some lo /\ s_q25 sm = Some q1 /\ s_q50 sm = Some q2 /\
    s_q75 sm = Some q3 /\ s_max sm = Some hi /\
    lo <= q1 /\ q1 <= q2 /\ q2 <= q3 /\ q3 <= hi.
Proof.
  intros (a & Ha & ->)%describe_num Hc; simpl in *.
  assert (Hl : a <> []) by (intros ->; simpl in Hc; lia).
  destruct (quantile_Some a (1 # 4) Hl) as [q1 E1].
  destruct (quantile_Some a (1 # 2) Hl) as [q2 E2].
  destruct (quantile_Some a (3 # 4) Hl) as [q3 E3].
  destruct a as [|x r]; [congruence|].
  exists (fold_left Qmin r x), q1, q2, q3, (fold_left Qmax r x).
  do 5 (split; [reflexivity || assumption|]).
  split; [apply (quantile_between _ (1 # 4) _ _ _ ltac:(split; lra) E1 eq_refl eq_refl)|].
  split; [apply (quantile_mono _ (1 # 4) (1 # 2) _ _ ltac:(lra) ltac:(lra) ltac:(lra) E1 E2)|].
  split; [apply (quantile_mono _ (1 # 2) (3 # 4) _ _ ltac:(lra) ltac:(lra) ltac:(lra) E2 E3)|].
  apply (quantile_between _ (3 # 4) _ _ _ ltac:(split; lra) E3 eq_refl eq_refl).
Qed.

(** ** Concrete runs *)

Lemma skew_one_outlier_witness :
  skew_R right_skewed = Some (sqrt (INR 5)) /\ classify (sqrt (INR 5)) = HighlySkewed.
Proof.
  apply (skew_one_outlier 1 10 4 right_skewed); [lra|lia|apply Permutation_sym, Permutation_cons_append].
Defined.

Lemma skew_symmetric_witness :
  skew_R (symmetric_sample 180000 [20000; 50000] 1) = Some 0%R.
Proof. apply (skew_symmetric _ 180000 [20000; 50000] 1); [apply Permutation_refl | simpl; lia]. Defined.

Lemma describe_bounds_witness :
  exists sm, describe saleprice_sample = Ok (NumDescr sm) /\
    count sm = countb (fun c => negb (isnull c)) saleprice_sample /\
    (forall m lo hi, s_mean sm = Some m -> s_min sm = Some lo -> s_max sm = Some hi ->
                     lo <= m <= hi) /\
    (forall v, s_var sm = Some v -> 0 <= v).
Proof.
  computed E (describe saleprice_sample).
  match type of E with _ = Ok (NumDescr ?sm) => exists sm end.
  split; [exact E | exact (describe_bounds _ _ E)].
Defined.

Lemma describe_quartiles_witness :
  exists sm, describe saleprice_sample = Ok (NumDescr sm) /\ (0 < count sm)%nat /\
  exists lo q1 q2 q3 hi,
    s_min sm = Some lo /\ s_q25 sm = Some q1 /\ s_q50 sm = Some q2 /\
    s_q75 sm = Some q3 /\ s_max sm = Some hi /\
    lo <= q1 /\ q1 <= q2 /\ q2 <= q3 /\ q3 <= hi.
Proof.
  computed E (describe saleprice_sample).
  match type of E with _ = Ok (NumDescr ?sm) => exists sm end.
  split; [exact E|split; [vm_compute; lia|]].
  apply (describe_quartiles _ _ E); vm_compute; lia.
Defined.

(** [describe()] of a column of strings: count, unique, top and freq. *)
Example describe_object :
  describe [Str "SBrkr"; Str "FuseA"; NaN; Str "SBrkr"] = Ok (ObjDescr 3 2 (Some (Str "SBrkr")) (Some 2%nat)).
Proof. reflexivity. Qed.

End Stats.
