(* ===== verification/BoxPlot.v ===== *)
(** * Box plots of SalePrice by a categorical feature (lines 62-75)

    [src/house_prices_eda.py] concatenates SalePrice with OverallQual
    (line 63) or YearBuilt (line 70) and draws
    [sns.boxplot(x=feature, y="SalePrice", data=data)] (lines 65, 72).
    The drawing is not modelled; what the boxes are drawn from is
    (seaborn 0.12, matplotlib 3):
    - [infer_orient]: seaborn's orientation from the types of the two
      columns: SalePrice numeric gives vertical boxes of SalePrice by the
      feature's levels; a string SalePrice with a numeric feature gives
      horizontal boxes of the feature by SalePrice's values; neither
      numeric raises TypeError;
    - [categorical_order]: seaborn's order of the levels: the distinct
      values ([pd.unique], first occurrences, one NaN), sorted when the
      column is numeric, NaN filtered out;
    - [group_values]: the values of the rows whose group equals a level
      ([Series.groupby(groups).get_group(level)]);
    - [box_stats]: matplotlib's [cbook.boxplot_stats] with [whis = 1.5]:
      the quartiles by numpy's linear percentile ([Stats.quantile]), the
      fences [q1 - 1.5 iqr] and [q3 + 1.5 iqr], the whiskers (the extreme
      data inside the fences, never inside the box) and the fliers (the data
      beyond the whiskers, the low ones first);
    - [boxes]: one position per level, [None] where seaborn skips an
      empty group ([if box_data.size == 0: continue]);
    - [box_plotter], [boxplot]: [_BoxPlotter] on the two columns looked
      up in [data]: orientation, values and groups, the boxes.
    The notch interval ([cilo], [cihi], a square root) is computed by
    matplotlib but not drawn with [notch=False]; it is not modelled, nor is
    [fig.axis(ymin=0, ymax=800000)], which only sets the view. *)

From Stdlib Require Import Qminmax.
From S2P Require Import Prelude Cell Frame Stats.

Module BoxPlot.
Import Frame Stats.

Local Open Scope Q_scope.

(** ** The x levels *)

Definition nums (l : list cell) : list Q :=
  flat_map (fun c => match c with Num q => [q] | _ => [] end) l.

(** seaborn's [categorical_order(x)]: unique values, [np.sort]ed when the
    column is numeric (NaN sorts last), then [filter(pd.notnull, order)]. *)
Definition categorical_order (x : list cell) : list cell :=
  let u := unique_cells [] x in
  if float_column x then map Num (sort_values (nums u))
  else filter (fun c => negb (isnull c)) u.

(** ** Grouping *)

(** [vals.groupby(x).get_group(g)]: the y cells of the rows whose key
    equals [g]. *)
Definition group_values (x y : list cell) (g : cell) : list cell :=
  select (map (cell_eqb g) x) y.

(** ** matplotlib's box statistics *)

Record box := mkBox {
  b_mean : Q; b_med : Q; b_q1 : Q; b_q3 : Q;
  b_whislo : Q; b_whishi : Q; b_fliers : list Q
}.

Definition whis : Q := 3 # 2.

Definition loval (q1 q3 : Q) : Q := q1 - whis * (q3 - q1).
Definition hival (q1 q3 : Q) : Q := q3 + whis * (q3 - q1).

(** [wiskhi = x[x <= hival]]; the high whisker is its maximum, or [q3]
    when it is empty or below [q3]. *)
Definition whishi (x : list Q) (q1 q3 : Q) : Q :=
  match qmax (filter (fun v => Qle_bool v (hival q1 q3)) x) with
  | None => q3
  | Some m => if Qle_bool q3 m then m else q3
  end.

(** [wisklo = x[x >= loval]]; the low whisker is its minimum, or [q1]
    when it is empty or above [q1]. *)
Definition whislo (x : list Q) (q1 q3 : Q) : Q :=
  match qmin (filter (fun v => Qle_bool (loval q1 q3) v) x) with
  | None => q1
  | Some m => if Qle_bool m q1 then m else q1
  end.

Definition Qltb (a b : Q) : bool := negb (Qle_bool b a).

(** [cbook.boxplot_stats(x, whis=1.5)] for one group; [None] when the
    group is empty. *)
Definition box_stats (x : list Q) : option box :=
  match quantile x (1 # 4), quantile x (1 # 2), quantile x (3 # 4) with
  | Some q1, Some med, Some q3 =>
      let lo := whislo x q1 q3 in
      let hi := whishi x q1 q3 in
      Some (mkBox (qsum x / qlen x) med q1 q3 lo hi
                  (filter (fun v => Qltb v lo) x ++ filter (fun v => Qltb hi v) x))
  | _, _, _ => None
  end.

(** seaborn's [draw_boxplot] for one orientation: one position per level
    of the groups, the level's values without their NaN ([remove_na]);
    a string among them would make numpy's percentile raise TypeError. *)
Fixpoint boxes (x y : list cell) (levels : list cell)
  : result (list (cell * option box)) :=
  match levels with
  | [] => Ok []
  | g :: gs =>
      v <- numeric_values (group_values x y g) ;;
      r <- boxes x y gs ;;
      Ok ((g, box_stats v) :: r)
  end.

(** ** The orientation *)

Inductive orient := Vertical | Horizontal.

(** seaborn 0.12's [infer_orient(x, y, orient=None, require_numeric=True)]
    on two vectors.  [variable_type] reads a column without string as
    "numeric" (all NaN included) and one with a string as "categorical";
    the branches of the code, in order: x not categorical and y
    categorical gives "h"; x not numeric and y numeric gives "v"; x
    numeric and y not gives "h" (already taken); neither numeric raises
    TypeError; otherwise "v". *)
Definition infer_orient (x y : list cell) : result orient :=
  match float_column x, float_column y with
  | true, false => Ok Horizontal
  | false, true => Ok Vertical
  | false, false => Err TypeError
  | true, true => Ok Vertical
  end.

(** [_BoxPlotter(x, y, ...)]: [establish_variables] infers the orientation
    and takes [vals, groups = y, x] for "v", [x, y] for "h"; the levels
    are [categorical_order(groups)] and [draw_boxplot] draws one box per
    level from [vals]. *)
Definition box_plotter (x y : list cell) : result (orient * list (cell * option box)) :=
  o <- infer_orient x y ;;
  let '(vals, groups) := match o with Vertical => (y, x) | Horizontal => (x, y) end in
  bs <- boxes groups vals (categorical_order groups) ;;
  Ok (o, bs).

(** [sns.boxplot(x=xc, y=yc, data=data)]: the two columns looked up in
    [data] (KeyError when absent), then the plotter. *)
Definition boxplot (data : frame) (xc yc : string) : result (orient * list (cell * option box)) :=
  x <- getitem data xc ;;
  y <- getitem data yc ;;
  box_plotter x y.

(** Lines 62-67 and 69-75: the two box plots of the script. *)
Definition saleprice : string := "SalePrice".
Definition overallqual : string := "OverallQual".
Definition yearbuilt : string := "YearBuilt".

Definition boxplot_by (df : frame) (feature : string)
  : result (orient * list (cell * option box)) :=
  data <- concat_columns df [saleprice; feature] ;;
  boxplot data feature saleprice.

Definition boxplot_overallqual (df : frame) := boxplot_by df overallqual.
Definition boxplot_yearbuilt (df : frame) := boxplot_by df yearbuilt.

(** ** Order statistics of a box *)

Lemma Qltb_iff (a b : Q) : Qltb a b = true <-> a < b.
Proof.
  unfold Qltb; rewrite negb_true_iff, <- not_true_iff_false, Qle_bool_iff.
  split; [apply Qnot_le_lt | apply Qlt_not_le].
Qed.

Lemma Qle_bool_false (a b : Q) : Qle_bool a b = false -> b < a.
Proof. rewrite <- not_true_iff_false, Qle_bool_iff; apply Qnot_le_lt. Qed.

Lemma qmin_In (l : list Q) m : qmin l = Some m -> In m l.
Proof.
  destruct l as [|x r]; [discriminate|]; intros [= <-].
  revert x; induction r as [|y r IH]; intros x; simpl; [auto|].
  destruct (IH (Qmin x y)) as [E|E]; rewrite <- ?E;
    [unfold Qmin, GenericMinMax.gmin; destruct (x ?= y)|]; simpl; auto.
Qed.

Lemma qmax_In (l : list Q) m : qmax l = Some m -> In m l.
Proof.
  destruct l as [|x r]; [discriminate|]; intros [= <-].
  revert x; induction r as [|y r IH]; intros x; simpl; [auto|].
  destruct (IH (Qmax x y)) as [E|E]; rewrite <- ?E;
    [unfold Qmax, GenericMinMax.gmax; destruct (x ?= y)|]; simpl; auto.
Qed.

#[export] Hint Resolve qmin_In qmax_In : eda.

Section Whiskers.
Variables (x : list Q) (q1 q3 : Q).
Hypothesis Hq : q1 <= q3.

Lemma fences_around_box : loval q1 q3 <= q1 /\ q3 <= hival q1 q3.
Proof.
  unfold loval, hival, whis.
  assert (0 <= (3 # 2) * (q3 - q1)) by (apply Qmult_le_0_compat; lra). lra.
Qed.

Lemma whislo_between : loval q1 q3 <= whislo x q1 q3 <= q1.
Proof.
  pose proof fences_around_box; unfold whislo.
  destruct (qmin _) as [m|] eqn:E; [|lra].
  apply qmin_In, filter_In in E as [_ E%Qle_bool_iff].
  destruct (Qle_bool m q1) eqn:F; [apply Qle_bool_iff in F|]; lra.
Qed.

Lemma whishi_between : q3 <= whishi x q1 q3 <= hival q1 q3.
Proof.
  pose proof fences_around_box; unfold whishi.
  destruct (qmax _) as [m|] eqn:E; [|lra].
  apply qmax_In, filter_In in E as [_ E%Qle_bool_iff].
  destruct (Qle_bool q3 m) eqn:F; [apply Qle_bool_iff in F|]; lra.
Qed.

(** A datum is below the low whisker exactly when it is below the low
    fence: the whisker is the smallest datum inside the fence, or [q1]
    when every such datum lies above [q1]. *)
Lemma below_whislo (v : Q) : In v x -> v < whislo x q1 q3 <-> v < loval q1 q3.
Proof.
  intros Hv; pose proof whislo_between as Hb.
  split; [|lra]; intros Hlt.
  destruct (Qlt_le_dec v (loval q1 q3)) as [|Hge]; [assumption|exfalso].
  assert (Hin : In v (filter (fun w => Qle_bool (loval q1 q3) w) x))
    by (apply filter_In; split; [exact Hv | apply Qle_bool_iff, Hge]).
  revert Hlt; unfold whislo.
  destruct (qmin _) as [m|] eqn:E; [|destruct (filter _ x); [contradiction|discriminate]].
  pose proof (qmin_le _ _ _ E Hin).
  destruct (Qle_bool m q1) eqn:F; [lra|apply Qle_bool_false in F; lra].
Qed.

Lemma above_whishi (v : Q) : In v x -> whishi x q1 q3 < v <-> hival q1 q3 < v.
Proof.
  intros Hv; pose proof whishi_between as Hb.
  split; [|lra]; intros Hlt.
  destruct (Qlt_le_dec (hival q1 q3) v) as [|Hle]; [assumption|exfalso].
  assert (Hin : In v (filter (fun w => Qle_bool w (hival q1 q3)) x))
    by (apply filter_In; split; [exact Hv | apply Qle_bool_iff, Hle]).
  revert Hlt; unfold whishi.
  destruct (qmax _) as [m|] eqn:E; [|destruct (filter _ x); [contradiction|discriminate]].
  pose proof (qmax_ge _ _ _ E Hin).
  destruct (Qle_bool q3 m) eqn:F; [lra|apply Qle_bool_false in F; lra].
Qed.

End Whiskers.

Lemma box_stats_inv (x : list Q) b :
  box_stats x = Some b ->
  quantile x (1 # 4) = Some (b_q1 b) /\ quantile x (1 # 2) = Some (b_med b) /\
  quantile x (3 # 4) = Some (b_q3 b) /\
  b_whislo b = whislo x (b_q1 b) (b_q3 b) /\ b_whishi b = whishi x (b_q1 b) (b_q3 b) /\
  b_fliers b = filter (fun v => Qltb v (b_whislo b)) x ++ filter (fun v => Qltb (b_whishi b) v) x.
Proof.
  unfold box_stats.
  destruct (quantile x (1 # 4)), (quantile x (1 # 2)), (quantile x (3 # 4));
    try discriminate; intros [= <-]; simpl; tauto.
Qed.

Lemma box_quartiles_ordered (x : list Q) b :
  box_stats x = Some b -> b_q1 b <= b_med b /\ b_med b <= b_q3 b.
Proof.
  intros (E1 & E2 & E3 & _)%box_stats_inv.
  split; eapply quantile_mono; eauto; lra.
Qed.

(** C25 (functional). The numbers a box is drawn from come in order: the
    low whisker, the first quartile, the median, the third quartile and the
    high whisker; the whiskers never leave the Tukey fences
    [q1 - 1.5 iqr, q3 + 1.5 iqr]. *)
Theorem box_order (x : list Q) b :
  box_stats x = Some b ->
  loval (b_q1 b) (b_q3 b) <= b_whislo b /\ b_whislo b <= b_q1 b /\
  b_q1 b <= b_med b /\ b_med b <= b_q3 b /\
  b_q3 b <= b_whishi b /\ b_whishi b <= hival (b_q1 b) (b_q3 b).
Proof.
  intros H; pose proof (box_quartiles_ordered x b H) as [H1 H2].
  destruct (box_stats_inv x b H) as (_ & _ & _ & Elo & Ehi & _).
  assert (Hq : b_q1 b <= b_q3 b) by lra.
  pose proof (whislo_between x _ _ Hq); pose proof (whishi_between x _ _ Hq).
  rewrite Elo, Ehi; tauto.
Qed.

(** C26 (functional). The fliers matplotlib draws are exactly the data
    strictly outside the Tukey fences [q1 - 1.5 iqr] and [q3 + 1.5 iqr]. *)
Theorem box_fliers_tukey (x : list Q) b v :
  box_stats x = Some b ->
  In v (b_fliers b) <->
  In v x /\ (v < loval (b_q1 b) (b_q3 b) \/ hival (b_q1 b) (b_q3 b) < v).
Proof.
  intros H; pose proof (box_quartiles_ordered x b H) as [H1 H2].
  destruct (box_stats_inv x b H) as (_ & _ & _ & Elo & Ehi & ->).
  assert (Hq : b_q1 b <= b_q3 b) by lra.
  rewrite in_app_iff, !filter_In, !Qltb_iff, Elo, Ehi.
  split; [intros [[Hv Hl]|[Hv Hh]]|intros [Hv [Hl|Hh]]].
  - split; [exact Hv|left; apply (below_whislo x _ _ Hq v Hv), Hl].
  - split; [exact Hv|right; apply (above_whishi x _ _ Hq v Hv), Hh].
  - left; split; [exact Hv|apply (below_whislo x _ _ Hq v Hv), Hl].
  - right; split; [exact Hv|apply (above_whishi x _ _ Hq v Hv), Hh].
Qed.

(** A group gets a box exactly when it holds a value. *)
Lemma box_stats_Some (x : list Q) : x <> [] -> exists b, box_stats x = Some b.
Proof.
  intros Hx; unfold box_stats.
  destruct (quantile_Some x (1 # 4) Hx) as [q1 ->].
  destruct (quantile_Some x (1 # 2) Hx) as [m ->].
  destruct (quantile_Some x (3 # 4) Hx) as [q3 ->].
  eexists; reflexivity.
Qed.

Lemma box_stats_nil : box_stats [] = None.
Proof. reflexivity. Qed.

(** ** The levels and the groups *)

Lemma cell_eqb_refl (c : cell) : cell_eqb c c = true.
Proof. destruct c; simpl; [reflexivity|apply Qeq_bool_refl|apply String.eqb_refl]. Qed.

Lemma cell_eqb_sym (a b : cell) : cell_eqb a b = cell_eqb b a.
Proof.
  destruct a, b; simpl; try reflexivity; [|apply String.eqb_sym].
  apply eq_true_iff_eq; rewrite !Qeq_bool_iff; split; apply Qeq_sym.
Qed.

Lemma cell_eqb_trans (a b c : cell) :
  cell_eqb a b = true -> cell_eqb b c = true -> cell_eqb a c = true.
Proof.
  destruct a, b, c; simpl; try discriminate; try reflexivity.
  - rewrite !Qeq_bool_iff; apply Qeq_trans.
  - rewrite !String.eqb_eq; congruence.
Qed.

Lemma cell_eqb_null (a b : cell) : cell_eqb a b = true -> isnull a = isnull b.
Proof. destruct a, b; simpl; congruence. Qed.

#[export] Hint Resolve cell_eqb_refl cell_eqb_trans : eda.

Lemma existsb_cell_eqb_sym (c : cell) seen :
  existsb (cell_eqb c) seen = existsb (fun s => cell_eqb s c) seen.
Proof. induction seen as [|s seen IH]; simpl; [|rewrite cell_eqb_sym, IH]; reflexivity. Qed.

(** [pd.unique] keeps at most one cell of each value, none of those
    already seen. *)
Lemma unique_cells_count (seen l : list cell) c :
  (countb (fun g => cell_eqb g c) (unique_cells seen l) <=
   if existsb (fun s => cell_eqb s c) seen then 0 else 1)%nat.
Proof.
  revert seen; induction l as [|h l IH]; intros seen; simpl; [rewrite countb_nil; lia|].
  destruct (existsb (cell_eqb h) seen) eqn:Eh; [apply IH|].
  rewrite countb_cons; specialize (IH (h :: seen)); simpl in IH.
  destruct (cell_eqb h c) eqn:Ehc; simpl in IH; [|exact IH].
  destruct (existsb (fun s => cell_eqb s c) seen) eqn:Es; [|lia].
  apply existsb_exists in Es as (s & Hs & Esc).
  assert (cell_eqb h s = true) by (rewrite (cell_eqb_sym s c) in Esc; eauto with eda).
  assert (existsb (cell_eqb h) seen = true) by (apply existsb_exists; eauto).
  congruence.
Qed.

Lemma unique_cells_cover (seen l : list cell) c :
  In c l -> existsb (fun s => cell_eqb s c) seen = false ->
  exists g, In g (unique_cells seen l) /\ cell_eqb g c = true.
Proof.
  revert seen; induction l as [|h l IH]; intros seen Hc Hs; [destruct Hc|simpl].
  destruct (existsb (cell_eqb h) seen) eqn:Eh.
  - destruct Hc as [->|Hc]; [rewrite existsb_cell_eqb_sym in Eh; congruence|apply (IH seen Hc Hs)].
  - destruct Hc as [->|Hc]; [exists c; simpl; auto using cell_eqb_refl|].
    destruct (cell_eqb h c) eqn:Ehc; [exists h; simpl; auto|].
    destruct (IH (h :: seen) Hc) as (g & Hg & Eg); [simpl; rewrite Ehc; exact Hs|].
    exists g; simpl; auto.
Qed.

Lemma unique_cells_incl (seen l : list cell) g : In g (unique_cells seen l) -> In g l.
Proof.
  revert seen; induction l as [|h l IH]; intros seen; simpl; [auto|].
  destruct existsb; simpl; [eauto|intros [->|H]; eauto].
Qed.

Lemma nums_notnull (u : list cell) :
  Forall (fun c => match c with Str _ => False | _ => True end) u ->
  map Num (nums u) = filter (fun c => negb (isnull c)) u.
Proof. induction 1 as [|c u Hc _ IH]; [reflexivity|]; destruct c; simpl; rewrite ?IH; tauto. Qed.

(** Both branches of [categorical_order] order the same levels: the
    present values of [pd.unique]. *)
Lemma categorical_order_perm (x : list cell) :
  Permutation (categorical_order x) (filter (fun c => negb (isnull c)) (unique_cells [] x)).
Proof.
  unfold categorical_order; destruct (float_column x) eqn:F; [|reflexivity].
  rewrite <- nums_notnull.
  - apply Permutation_map, Permutation_sym, sort_values_perm.
  - apply Forall_forall; intros c Hc%unique_cells_incl.
    unfold float_column in F; rewrite forallb_forall in F; specialize (F c Hc).
    destruct c; [exact I|exact I|discriminate].
Qed.

(** Every present value of x matches exactly one level, and a missing one
    none. *)
Lemma levels_count (x : list cell) c :
  In c x -> countb (fun g => cell_eqb g c) (categorical_order x) = (if isnull c then 0 else 1)%nat.
Proof.
  intros Hc; rewrite (countb_perm _ _ _ (categorical_order_perm x)).
  destruct (isnull c) eqn:Nc.
  - apply countb_zero_iff, Forall_forall; intros g Hg%filter_In.
    destruct (cell_eqb g c) eqn:E; [|reflexivity].
    apply cell_eqb_null in E; rewrite E, Nc in Hg; destruct Hg; discriminate.
  - pose proof (unique_cells_count [] x c) as Hle; simpl in Hle.
    pose proof (countb_filter_le (fun g => cell_eqb g c) (fun c => negb (isnull c)) (unique_cells [] x)).
    destruct (unique_cells_cover [] x c Hc eq_refl) as (g & Hg & Eg).
    assert (In g (filter (fun c => negb (isnull c)) (unique_cells [] x))).
    { apply filter_In; split; [exact Hg|]; rewrite (cell_eqb_null _ _ Eg), Nc; reflexivity. }
    pose proof (countb_In_pos (fun g => cell_eqb g c) _ g H0 Eg); lia.
Qed.

Lemma group_values_length (x y : list cell) g :
  length x = length y -> length (group_values x y g) = countb (cell_eqb g) x.
Proof.
  intros E; unfold group_values; rewrite length_select by (rewrite length_map; exact E).
  apply countb_map_id.
Qed.

(** C27 (functional). Grouping by the levels of [categorical_order]
    partitions the rows: summed over the boxes' positions, the group sizes
    count every row whose x value is present exactly once. *)
Theorem boxes_partition (x y : list cell) :
  length x = length y ->
  list_sum (map (fun g => length (group_values x y g)) (categorical_order x)) =
  countb (fun c => negb (isnull c)) x.
Proof.
  intros E; rewrite (map_ext _ _ (fun g => group_values_length x y g E)).
  rewrite (sum_countb_swap cell_eqb), <- list_sum_indicator; f_equal.
  apply map_ext_in; intros c Hc; rewrite levels_count by exact Hc.
  destruct (isnull c); reflexivity.
Qed.

Lemma strict_of_sorted_distinct (l : list Q) :
  Sorted Qle l -> (forall q, countb (fun p => Qeq_bool p q) l <= 1)%nat -> Sorted Qlt l.
Proof.
  intros Hs Hd; apply StronglySorted_Sorted.
  apply Sorted_StronglySorted in Hs; [|intros a b c; apply Qle_trans].
  induction Hs as [|a l Hs IH Ha]; constructor.
  - apply IH; intros q; specialize (Hd q); rewrite countb_cons in Hd; lia.
  - specialize (Hd a); rewrite countb_cons, Qeq_bool_refl in Hd.
    assert (H0 : countb (fun p => Qeq_bool p a) l = 0%nat) by lia.
    apply countb_zero_iff in H0; rewrite Forall_forall in *.
    intros b Hb; specialize (H0 b Hb); specialize (Ha b Hb).
    apply Qle_lteq in Ha as [Hlt|Heq]; [exact Hlt|].
    rewrite <- not_true_iff_false, Qeq_bool_iff in H0; symmetry in Heq; contradiction.
Qed.

Lemma countb_map_Num (qs : list Q) q :
  countb (fun g => cell_eqb g (Num q)) (map Num qs) = countb (fun p => Qeq_bool p q) qs.
Proof. induction qs as [|p qs IH]; [reflexivity|]; simpl; rewrite !countb_cons, IH; reflexivity. Qed.

(** On a numeric column such as OverallQual or
    YearBuilt, seaborn places one box per distinct value, left to right in
    strictly increasing order of the value. *)
Theorem categorical_order_increasing (x : list cell) :
  float_column x = true ->
  exists qs, categorical_order x = map Num qs /\ Sorted Qlt qs.
Proof.
  intros F; pose proof (categorical_order_perm x) as P.
  unfold categorical_order in *; rewrite F in *.
  eexists; split; [reflexivity|].
  apply strict_of_sorted_distinct; [apply sort_values_sorted|intros q].
  rewrite <- countb_map_Num, (countb_perm _ _ _ P).
  pose proof (unique_cells_count [] x (Num q)) as Hle; simpl in Hle.
  pose proof (countb_filter_le (fun g => cell_eqb g (Num q)) (fun c => negb (isnull c)) (unique_cells [] x)).
  lia.
Qed.

(** ** The error path *)

Lemma boxes_Ok_iff (x y levels : list cell) :
  (exists bs, boxes x y levels = Ok bs) <->
  (forall g t, In g levels -> ~ In (Str t) (group_values x y g)).
Proof.
  induction levels as [|g gs IH]; simpl; [split; eauto; intros _ _ _ []|].
  destruct (numeric_values (group_values x y g)) as [v|e] eqn:E; simpl.
  - destruct (boxes x y gs) as [bs|e] eqn:Eb; simpl.
    + split; eauto; intros _ g' t [<-|Hg] Ht.
      * destruct (proj2 (numeric_values_error _) (ex_intro _ t Ht)); congruence.
      * destruct (proj1 IH (ex_intro _ bs eq_refl) g' t Hg Ht).
    + split; [intros [bs H]; discriminate|intros H].
      destruct (proj2 IH (fun g' t Hg => H g' t (or_intror Hg))); discriminate.
  - split; [intros [bs H]; discriminate|intros H].
    destruct (proj1 (numeric_values_error _) (ex_intro _ e E)) as [t Ht].
    destruct (H g t (or_introl eq_refl) Ht).
Qed.

Lemma group_values_In (x y : list cell) g v :
  length x = length y ->
  In v (group_values x y g) <-> exists c, In (c, v) (combine x y) /\ cell_eqb g c = true.
Proof.
  intros E; unfold group_values; rewrite select_combine_filter by exact E.
  rewrite in_map_iff; split.
  - intros ([c v'] & <- & H%filter_In); simpl in *; exists c; tauto.
  - intros (c & H & Hc); exists (c, v); simpl; rewrite filter_In; auto.
Qed.


Lemma group_values_incl (x y : list cell) g v : In v (group_values x y g) -> In v y.
Proof. apply select_incl. Qed.

(** Values without a string give a box at every level. *)
Lemma boxes_float (x y levels : list cell) :
  float_column y = true -> exists bs, boxes x y levels = Ok bs.
Proof.
  intros Hf; apply boxes_Ok_iff; intros g t _ Ht%group_values_incl.
  unfold float_column in Hf; rewrite forallb_forall in Hf; specialize (Hf _ Ht); discriminate.
Qed.

(** The plotter raises exactly when neither vector is numeric. *)
Lemma box_plotter_Err (x y : list cell) :
  (exists e, box_plotter x y = Err e) <-> float_column x = false /\ float_column y = false.
Proof.
  unfold box_plotter, infer_orient.
  destruct (float_column x) eqn:Fx, (float_column y) eqn:Fy; cbn [bind].
  - destruct (boxes_float x y (categorical_order x) Fy) as [bs ->].
    split; [intros [e H]; discriminate|intros [H _]; discriminate].
  - destruct (boxes_float y x (categorical_order y) Fx) as [bs ->].
    split; [intros [e H]; discriminate|intros [H _]; discriminate].
  - destruct (boxes_float x y (categorical_order x) Fy) as [bs ->].
    split; [intros [e H]; discriminate|intros [_ H]; discriminate].
  - split; eauto.
Qed.

Lemma boxplot_by_columns (df : frame) f x y :
  f <> saleprice -> getitem df f = Ok x -> getitem df saleprice = Ok y ->
  boxplot_by df f = box_plotter x y.
Proof.
  intros Hf Hx Hy; unfold boxplot_by, concat_columns; cbn [fold_right].
  rewrite Hy, Hx; cbn; unfold boxplot, getitem; cbn.
  apply String.eqb_neq in Hf; rewrite Hf, String.eqb_refl; reflexivity.
Qed.

(** C28 (error). On a frame holding SalePrice and the feature, the box
    plot of lines 65 and 72 raises (seaborn's TypeError "Neither the `x`
    nor `y` variable appears to be numeric") exactly when both columns
    hold a string; a string in one column only flips the orientation and
    raises nothing. *)
Theorem boxplot_by_TypeError (df : frame) f x y :
  f <> saleprice -> getitem df f = Ok x -> getitem df saleprice = Ok y ->
  (exists e, boxplot_by df f = Err e) <->
  (exists t, In (Str t) x) /\ (exists t, In (Str t) y).
Proof.
  intros Hf Hx Hy; rewrite (boxplot_by_columns df f x y Hf Hx Hy), box_plotter_Err.
  rewrite !float_column_false; reflexivity.
Qed.

(** ** Concrete runs *)

Section Samples.
Local Open Scope string_scope.

(** Eight houses: the OverallQual 5 group holds two fliers (100000 and
    400000); house 4 has no SalePrice, so its YearBuilt group (2000) is
    empty and seaborn skips its position. *)
Definition houses : frame :=
  mkFrame [0; 1; 2; 3; 4; 5; 6; 7]%nat
    [("SalePrice", [Num 100000; Num 200000; Num 120000; Num 90000; NaN;
                    Num 130000; Num 125000; Num 400000]);
     ("OverallQual", [Num 5; Num 7; Num 5; NaN; Num 7; Num 5; Num 5; Num 5]);
     ("YearBuilt", [Num 2003; Num 1976; Num 2001; Num 1915; Num 2000;
                    Num 2003; Num 2001; Num 2003])].

(** The same houses with a string SalePrice: on house 3, whose
    OverallQual is missing, and on house 6, whose OverallQual is 5. *)
Definition houses_text : frame :=
  mkFrame [0; 1; 2; 3; 4; 5; 6; 7]%nat
    [("SalePrice", [Num 100000; Num 200000; Num 120000; Str "unknown"; NaN;
                    Num 130000; Str "unknown"; Num 400000]);
     ("OverallQual", [Num 5; Num 7; Num 5; NaN; Num 7; Num 5; Num 5; Num 5])].

(** [houses_text] with a quality typed as text on house 1: neither column
    is numeric. *)
Definition quality_text : frame :=
  mkFrame [0; 1; 2; 3; 4; 5; 6; 7]%nat
    [("SalePrice", [Num 100000; Num 200000; Num 120000; Str "unknown"; NaN;
                    Num 130000; Str "unknown"; Num 400000]);
     ("OverallQual", [Num 5; Str "Good"; Num 5; NaN; Num 7; Num 5; Num 5; Num 5])].

(** A column of [houses], empty when absent. *)
Definition getcol (df : frame) (c : string) : list cell :=
  match getitem df c with Ok v => v | Err _ => [] end.

(** The SalePrice values of the OverallQual 5 group of [houses]. *)
Definition quality5 : list Q := [100000; 120000; 130000; 125000; 400000].

End Samples.

(** On [houses], the box plot of line 65 has one box per
    quality level 5 and 7; the level-5 box has median 125000, quartiles
    120000 and 130000, whiskers 120000 and 130000 and the fliers 100000 and
    400000, low one first. *)
Example boxplot_overallqual_houses :
  exists b5 b7,
    boxplot_overallqual houses = Ok (Vertical, [(Num 5, Some b5); (Num 7, Some b7)]) /\
    b_med b5 == 125000 /\ b_q1 b5 == 120000 /\ b_q3 b5 == 130000 /\
    b_whislo b5 == 120000 /\ b_whishi b5 == 130000 /\
    b_fliers b5 = [100000; 400000] /\ b_fliers b7 = [].
Proof.
  do 2 eexists; split; [vm_compute; reflexivity|].
  vm_compute; repeat split; reflexivity.
Qed.

(** Example. On [houses], the box plot of line 72 keeps a position
    for every year built, in increasing order, and draws nothing at 2000,
    whose only house has no SalePrice. *)
Example boxplot_yearbuilt_houses :
  exists b1 b2 b3 b4,
    boxplot_yearbuilt houses =
      Ok (Vertical, [(Num 1915, Some b1); (Num 1976, Some b2); (Num 2000, None);
                     (Num 2001, Some b3); (Num 2003, Some b4)]).
Proof. do 4 eexists; vm_compute; reflexivity. Qed.

(** On [houses_text], whose SalePrice holds a string and OverallQual
    none, seaborn lays the boxes horizontally: one box of OverallQual per
    SalePrice level, in order of first occurrence, the string included. *)
Example boxplot_overallqual_houses_text :
  exists bs, boxplot_overallqual houses_text = Ok (Horizontal, bs) /\
    map fst bs = [Num 100000; Num 200000; Num 120000; Str "unknown"; Num 130000; Num 400000].
Proof. eexists; split; [vm_compute; reflexivity|reflexivity]. Qed.

Lemma boxplot_by_TypeError_witness :
  exists e, boxplot_by quality_text overallqual = Err e.
Proof.
  apply (proj2 (boxplot_by_TypeError quality_text overallqual
                  (getcol quality_text overallqual) (getcol quality_text saleprice)
                  ltac:(discriminate) eq_refl eq_refl)).
  split; eexists; vm_compute; repeat first [left; reflexivity|right].
Defined.

Lemma box_order_witness :
  exists b, box_stats quality5 = Some b /\
  loval (b_q1 b) (b_q3 b) <= b_whislo b /\ b_whislo b <= b_q1 b /\
  b_q1 b <= b_med b /\ b_med b <= b_q3 b /\
  b_q3 b <= b_whishi b /\ b_whishi b <= hival (b_q1 b) (b_q3 b).
Proof.
  destruct (box_stats quality5) as [b|] eqn:E; [|vm_compute in E; discriminate].
  exists b; split; [reflexivity|exact (box_order quality5 b E)].
Defined.

Lemma box_fliers_tukey_witness :
  exists b, box_stats quality5 = Some b /\
  (In 400000 (b_fliers b) <->
   In 400000 quality5 /\ (400000 < loval (b_q1 b) (b_q3 b) \/ hival (b_q1 b) (b_q3 b) < 400000)).
Proof.
  destruct (box_stats quality5) as [b|] eqn:E; [|vm_compute in E; discriminate].
  exists b; split; [reflexivity|exact (box_fliers_tukey quality5 b 400000 E)].
Defined.

Lemma boxes_partition_witness :
  list_sum (map (fun g => length (group_values (getcol houses overallqual) (getcol houses saleprice) g))
                (categorical_order (getcol houses overallqual))) =
  countb (fun c => negb (isnull c)) (getcol houses overallqual).
Proof. apply boxes_partition; vm_compute; reflexivity. Defined.

Lemma categorical_order_increasing_witness :
  exists qs, categorical_order (getcol houses yearbuilt) = map Num qs /\ Sorted Qlt qs.
Proof. apply categorical_order_increasing; vm_compute; reflexivity. Defined.

End BoxPlot.
