(* ===== verification/Distplot.v ===== *)
(** * The distribution chart of SalePrice: [sns.distplot] (line 17)

    [sns.distplot(df_train['SalePrice'])] drops the missing values, picks
    the number of histogram bins by the Freedman-Diaconis rule, capped at
    50, draws the histogram as a density ([density=True], the bars' areas
    sum to one) and over it the kernel density estimate of [kdeplot].
    - [fd_bins]: seaborn's [_freedman_diaconis_bins]: one bin below two
      values; otherwise the bin width [h = 2 iqr / n^(1/3)] with the
      quartiles of [Stats.quantile], [ceil((max - min) / h)] bins, or
      [int(sqrt(n))] when [h] is zero; a real number computation, as the
      cube root is;
    - [hist_range], [bin_index], [histogram]: [np.histogram] with [k] equal
      bins over [[min, max]] (or [[v - .5, v + .5]] when every value is
      [v]), the last bin closed on the right;
    - [density]: the heights of the bars, [count / (n * width)];
    - [kdeplot]: scipy's [gaussian_kde] with Scott's factor [n^(-1/5)]
      ([scotts_factor], [kde_cov], [kde_bw]), evaluated ([kde_eval], a
      sum of [gauss] kernels weighted [1/n]) on seaborn's support grid
      ([kde_support]: [np.linspace] of [gridsize = 200] points from
      [min - 3 bw] to [max + 3 bw]); the estimate is skipped
      ([kde_singular]) below two values or on a zero variance.
    Theorems: the histogram's bins and area ([distplot_histogram]); the
    whole chart under a change of units of the prices
    ([distplot_rescale]: sorting, numpy's quantiles, min and max, the
    Freedman-Diaconis rule, the bins of np.histogram and the Gaussian
    kernels all commute with [x -> k x + c]); the curve's grid and the
    bounds of its heights ([kdeplot_bounds]).  Drawing (colours, the line
    and the bars as artists) is not modelled. *)

From Stdlib Require Import ZArith Reals Qreals Qround Qminmax.
From S2P Require Import Prelude Cell Stats.
From Stdlib Require Import Psatz.

Module Distplot.
Import Stats.

Local Open Scope Q_scope.

(** ** The number of bins *)

(** [np.ceil] on a real number. *)
Definition Rceil (x : R) : Z := Z.opp (Int_part (Ropp x)).

(** [_freedman_diaconis_bins(a)], on the values [distplot] keeps. *)
Definition fd_bins (a : list Q) : nat :=
  if Nat.ltb (length a) 2 then 1
  else
    match quantile a (3 # 4), quantile a (1 # 4), qmin a, qmax a with
    | Some q3, Some q1, Some lo, Some hi =>
        let h := (2 * Q2R (q3 - q1) / Rpower (INR (length a)) (1 / 3))%R in
        if Req_EM_T h 0 then Nat.sqrt (length a)
        else Z.to_nat (Rceil (Q2R (hi - lo) / h))
    | _, _, _, _ => 1
    end.

(** [bins = min(_freedman_diaconis_bins(a), 50)] *)
Definition distplot_bins (a : list Q) : nat := Nat.min (fd_bins a) 50.

(** ** [np.histogram(a, k)] *)

(** The range of the bins: [[min, max]], widened by [.5] on each side when
    the values are all equal. *)
Definition hist_range (a : list Q) : Q * Q :=
  match qmin a, qmax a with
  | Some lo, Some hi => if Qeq_bool lo hi then (lo - (1 # 2), hi + (1 # 2)) else (lo, hi)
  | _, _ => (0, 1)
  end.

(** The bin of [x] among [k] equal bins over [[lo, hi]]: the last bin
    holds [hi]. *)
Definition bin_index (lo hi : Q) (k : nat) (x : Q) : nat :=
  Nat.min (Z.to_nat (Qfloor ((x - lo) * inject_Z (Z.of_nat k) / (hi - lo)))) (k - 1).

Definition histogram (a : list Q) (k : nat) : list nat :=
  let '(lo, hi) := hist_range a in
  map (fun i => countb (fun x => Nat.eqb (bin_index lo hi k x) i) a) (seq 0 k).

(** The bar heights with [density=True]. *)
Definition density (a : list Q) (k : nat) : list Q :=
  let '(lo, hi) := hist_range a in
  let width := (hi - lo) / inject_Z (Z.of_nat k) in
  map (fun c => inject_Z (Z.of_nat c) / (qlen a * width)) (histogram a k).

(** ** The kernel density estimate: [kdeplot(a)] *)

Local Open Scope R_scope.

(** The sum of a list of reals, as [np.sum] over the kernels. *)
Definition rsum (l : list R) : R := fold_right Rplus 0 l.

(** [np.linspace(start, stop, num)]: [arange(0, num) * step + start] with
    [step = (stop - start) / (num - 1)], the last point set to [stop]. *)
Definition linspace (start stop : R) (num : nat) : list R :=
  map (fun i => if Nat.eqb i (num - 1) then stop
                else start + INR i * ((stop - start) / INR (num - 1)))
      (seq 0 num).

(** [gaussian_kde.scotts_factor]: [neff ** (-1 / (d + 4))] with [d = 1]
    and [neff] the number of values. *)
Definition scotts_factor (n : nat) : R := Rpower (INR n) (- (1 / 5)).

(** [kde.covariance = np.cov(a) * kde.factor ** 2], [np.cov] with
    [ddof=1]; [bw_adjust = 1] leaves the factor as it is. *)
Definition kde_cov (a : list Q) : R :=
  match var a with
  | Some v => Q2R v * (scotts_factor (length a) * scotts_factor (length a))
  | None => 0
  end.

(** [bw = np.sqrt(kde.covariance.squeeze())] *)
Definition kde_bw (a : list Q) : R := sqrt (kde_cov a).

(** One Gaussian kernel of variance [cov], normalised by
    [(2 pi)^(d/2) sqrt(det cov)]. *)
Definition gauss (cov x : R) : R := exp (- (x * x) / (2 * cov)) / sqrt (2 * PI * cov).

(** [gaussian_kde(a)(x)]: the kernels at the values, each weighted [1/n]. *)
Definition kde_eval (a : list Q) (x : R) : R :=
  rsum (map (fun xi => gauss (kde_cov a) (x - Q2R xi) / INR (length a)) a).

(** seaborn's defaults for [kdeplot]: [gridsize=200], [cut=3], no clip. *)
Definition gridsize : nat := 200.
Definition cut : R := 3.

(** [_define_support_grid]: from [min - bw * cut] to [max + bw * cut]. *)
Definition kde_support (a : list Q) : list R :=
  match qmin a, qmax a with
  | Some lo, Some hi => linspace (Q2R lo - kde_bw a * cut) (Q2R hi + kde_bw a * cut) gridsize
  | _, _ => []
  end.

(** [plot_univariate_density] skips the estimate, with a UserWarning, when
    there are fewer than two observations or their variance is zero
    ([np.nan_to_num] of the NaN variance of fewer than two values is 0). *)
Definition kde_singular (a : list Q) : bool :=
  match var a with
  | Some v => Qeq_bool v 0
  | None => true
  end.

(** The curve [kdeplot] draws: the support grid and the density on it. *)
Definition kdeplot (a : list Q) : option (list (R * R)) :=
  if kde_singular a then None
  else Some (map (fun x => (x, kde_eval a x)) (kde_support a)).

Local Close Scope R_scope.

(** Line 17: [sns.distplot(df_train['SalePrice'])]: [np.asarray(a,
    float)] raises ValueError on a string, the NaN are removed, then the
    density histogram and the kernel density curve are drawn. *)
Definition distplot (s : list cell) : result (nat * list Q * option (list (R * R))) :=
  a <- match numeric_values s with
       | Ok a => Ok a
       | Err _ => Err (ValueError "could not convert string to float"%string)
       end ;;
  let k := distplot_bins a in Ok (k, density a k, kdeplot a).

(** The prices of [Stats.saleprice_sample] that [distplot] keeps, the
    missing one removed. *)
Definition sample_prices : list Q := [208500; 181500; 223500; 140000].

(** ** The histogram counts every value once *)

Lemma bin_index_lt lo hi k x : (1 <= k)%nat -> (bin_index lo hi k x < k)%nat.
Proof. intros Hk; unfold bin_index; lia. Qed.

Lemma countb_seq_eqb (n k : nat) : (n < k)%nat -> countb (fun i => Nat.eqb n i) (seq 0 k) = 1%nat.
Proof.
  intros Hn; replace k with (n + S (k - S n))%nat by lia.
  rewrite seq_app, countb_app; cbn [seq Nat.add]; rewrite countb_cons, Nat.eqb_refl.
  rewrite !(proj2 (countb_zero_iff _ _)); [reflexivity| |];
    apply Forall_forall; intros i Hi%in_seq; apply Nat.eqb_neq; lia.
Qed.

Lemma list_sum_ones {A} (l : list A) : list_sum (map (fun _ => 1%nat) l) = length l.
Proof. induction l as [|x l IH]; simpl; [reflexivity|rewrite IH; reflexivity]. Qed.

Lemma histogram_total (a : list Q) k : (1 <= k)%nat -> list_sum (histogram a k) = length a.
Proof.
  intros Hk; unfold histogram; destruct (hist_range a) as [lo hi].
  rewrite (sum_countb_swap (fun i x => Nat.eqb (bin_index lo hi k x) i)).
  rewrite <- (list_sum_ones a); f_equal; apply map_ext; intros x.
  apply countb_seq_eqb, bin_index_lt, Hk.
Qed.

Lemma histogram_length (a : list Q) k : length (histogram a k) = k.
Proof. unfold histogram; destruct (hist_range a); rewrite length_map, length_seq; reflexivity. Qed.

(** ** The bars' areas sum to one *)

Lemma qmin_qmax_le (a : list Q) lo hi : qmin a = Some lo -> qmax a = Some hi -> lo <= hi.
Proof.
  destruct a as [|x r]; [discriminate|]; intros Hlo Hhi.
  eapply Qle_trans; [apply (qmin_le _ _ x Hlo)|apply (qmax_ge _ _ x Hhi)]; left; reflexivity.
Qed.

Lemma hist_range_pos (a : list Q) : 0 < snd (hist_range a) - fst (hist_range a).
Proof.
  unfold hist_range; destruct (qmin a) as [lo|] eqn:Hlo, (qmax a) as [hi|] eqn:Hhi; simpl;
    try (unfold Qlt; simpl; lia).
  destruct (Qeq_bool lo hi) eqn:E; simpl; [apply Qeq_bool_iff in E; lra|].
  pose proof (qmin_qmax_le a lo hi Hlo Hhi).
  apply Qle_lteq in H as [H|H]; [lra|].
  apply Qeq_bool_iff in H; congruence.
Qed.

Lemma qsum_map_div (l : list nat) (d : Q) :
  ~ d == 0 ->
  qsum (map (fun c => inject_Z (Z.of_nat c) / d) l) == inject_Z (Z.of_nat (list_sum l)) / d.
Proof.
  intros Hd; induction l as [|c l IH]; simpl; [field; exact Hd|].
  rewrite IH, Nat2Z.inj_add, inject_Z_plus; field; exact Hd.
Qed.

Lemma density_area (a : list Q) k :
  a <> [] -> (1 <= k)%nat ->
  qsum (density a k) * ((snd (hist_range a) - fst (hist_range a)) / inject_Z (Z.of_nat k)) == 1.
Proof.
  intros Ha Hk; pose proof (hist_range_pos a) as Hr; pose proof (histogram_total a k Hk) as Ht.
  unfold density; destruct (hist_range a) as [lo hi]; simpl in *.
  assert (Hkq : 0 < inject_Z (Z.of_nat k)) by (change 0 with (inject_Z 0); rewrite <- Zlt_Qlt; lia).
  assert (Hn : 0 < qlen a) by (apply qlen_pos, Ha).
  set (w := (hi - lo) / inject_Z (Z.of_nat k)).
  assert (Hw : 0 < w) by (unfold w; apply Qlt_shift_div_l; lra).
  rewrite qsum_map_div by (intros E; apply (Qmult_integral (qlen a) w) in E as [E|E]; lra).
  rewrite Ht; unfold qlen in *; field; lra.
Qed.

(** ** Between one and fifty bins *)

Lemma Rceil_pos (x : R) : (0 < x)%R -> (1 <= Rceil x)%Z.
Proof.
  intros Hx; unfold Rceil; destruct (base_Int_part (- x)) as [H1 _].
  assert (IZR (Int_part (- x)) < 0)%R by lra.
  apply lt_IZR in H; lia.
Qed.

Lemma Q2R_pos (q : Q) : 0 < q -> (0 < Q2R q)%R.
Proof. intros H; apply Qlt_Rlt in H; rewrite RMicromega.Q2R_0 in H; exact H. Qed.

Lemma fd_bins_pos (a : list Q) : (1 <= fd_bins a)%nat.
Proof.
  unfold fd_bins; destruct (Nat.ltb_spec (length a) 2) as [|H2]; [lia|].
  assert (Ha : a <> []) by (intros ->; simpl in H2; lia).
  destruct (quantile_Some a (3 # 4) Ha) as [q3 E3], (quantile_Some a (1 # 4) Ha) as [q1 E1].
  destruct (qmin a) as [lo|] eqn:Elo; [|destruct a; [congruence|discriminate]].
  destruct (qmax a) as [hi|] eqn:Ehi; [|destruct a; [congruence|discriminate]].
  rewrite E3, E1; cbv zeta.
  destruct (Req_EM_T _ 0) as [_|Hh].
  - apply Nat.sqrt_le_mono in H2; change (Nat.sqrt 2) with 1%nat in H2; exact H2.
  - pose proof (quantile_mono a (1 # 4) (3 # 4) q1 q3 ltac:(lra) ltac:(lra) ltac:(lra) E1 E3) as Hq.
    pose proof (quantile_between a (1 # 4) q1 lo hi ltac:(split; lra) E1 Elo Ehi) as [Hlo _].
    pose proof (quantile_between a (3 # 4) q3 lo hi ltac:(split; lra) E3 Elo Ehi) as [_ Hhi].
    assert (Hc : (0 < Rpower (INR (length a)) (1 / 3))%R) by apply exp_pos.
    destruct (Qle_lt_or_eq _ _ Hq) as [Hlt|Heq].
    + assert (Hi : (0 < Q2R (q3 - q1))%R) by (apply Q2R_pos; lra).
      assert (Hr : (0 < Q2R (hi - lo))%R) by (apply Q2R_pos; lra).
      assert (Hh0 : (0 < 2 * Q2R (q3 - q1) / Rpower (INR (length a)) (1 / 3))%R)
        by (apply Rdiv_lt_0_compat; lra).
      pose proof (Rceil_pos (Q2R (hi - lo) / (2 * Q2R (q3 - q1) / Rpower (INR (length a)) (1 / 3))))
        as Hp; apply (fun H => Hp (Rdiv_lt_0_compat _ _ Hr H)) in Hh0; lia.
    + exfalso; apply Hh; rewrite (Qeq_eqR (q3 - q1) 0) by lra; rewrite RMicromega.Q2R_0; field; lra.
Qed.

(** ** The kernel density curve: helper lemmas *)

Local Open Scope R_scope.

Lemma rsum_map_div {A} (f : A -> R) (l : list A) (d : R) :
  rsum (map (fun x => f x / d) l) = rsum (map f l) / d.
Proof. unfold Rdiv; induction l as [|x l IH]; simpl; [ring|rewrite IH; ring]. Qed.

Lemma rsum_map_bounds {A} (f : A -> R) (l : list A) (m : R) :
  l <> [] -> (forall x, In x l -> 0 < f x <= m) ->
  0 < rsum (map f l) <= INR (length l) * m.
Proof.
  intros Hl Hf; induction l as [|x [|y l] IH]; [congruence| |].
  - simpl; specialize (Hf x (or_introl eq_refl)); lra.
  - assert (IH' : 0 < rsum (map f (y :: l)) <= INR (length (y :: l)) * m)
      by (apply IH; [discriminate|intros z Hz; apply Hf; right; exact Hz]).
    specialize (Hf x (or_introl eq_refl)).
    change (rsum (map f (x :: y :: l))) with (f x + rsum (map f (y :: l))).
    change (length (x :: y :: l)) with (S (length (y :: l))); rewrite S_INR; lra.
Qed.

Lemma linspace_length (a b : R) n : length (linspace a b n) = n.
Proof. unfold linspace; rewrite length_map, length_seq; reflexivity. Qed.

Lemma linspace_first (a b : R) n : (2 <= n)%nat -> nth 0 (linspace a b n) 0 = a.
Proof.
  intros Hn; unfold linspace; rewrite (nth_map_seq _ n 0 0) by lia.
  destruct (Nat.eqb_spec 0 (n - 1)); [lia|]; simpl; ring.
Qed.

Lemma linspace_last (a b : R) n : (1 <= n)%nat -> nth (n - 1) (linspace a b n) 0 = b.
Proof. intros Hn; unfold linspace; rewrite (nth_map_seq _ n _ 0), Nat.eqb_refl by lia; reflexivity. Qed.

(** An affine change of units maps the grid onto the grid of the image
    of its ends. *)
Lemma linspace_affine (k c a b : R) n :
  map (fun x => k * x + c) (linspace a b n) = linspace (k * a + c) (k * b + c) n.
Proof.
  unfold linspace; rewrite map_map; apply map_ext; intros i.
  destruct (Nat.eqb i (n - 1)); [reflexivity|unfold Rdiv; ring].
Qed.

Lemma Q2R_affine (k c x : Q) : Q2R (k * x + c) = Q2R k * Q2R x + Q2R c.
Proof. rewrite Q2R_plus, Q2R_mult; reflexivity. Qed.

Lemma Q2R_Qmin (x y : Q) : Q2R (Qmin x y) = Rmin (Q2R x) (Q2R y).
Proof.
  unfold Qmin, GenericMinMax.gmin; destruct (Qcompare_spec x y) as [E|E|E].
  - rewrite Rmin_left; [reflexivity|apply Req_le, Qeq_eqR, E].
  - rewrite Rmin_left; [reflexivity|apply Rlt_le, Qlt_Rlt, E].
  - rewrite Rmin_right; [reflexivity|apply Rlt_le, Qlt_Rlt, E].
Qed.

Lemma Q2R_Qmax (x y : Q) : Q2R (Qmax x y) = Rmax (Q2R x) (Q2R y).
Proof.
  unfold Qmax, GenericMinMax.gmax; destruct (Qcompare_spec x y) as [E|E|E].
  - rewrite Rmax_left; [reflexivity|apply Req_le, eq_sym, Qeq_eqR, E].
  - rewrite Rmax_right; [reflexivity|apply Rlt_le, Qlt_Rlt, E].
  - rewrite Rmax_left; [reflexivity|apply Rlt_le, Qlt_Rlt, E].
Qed.

(** With [0 < k], [Rmin] and [Rmax] commute with [x -> k x + c]. *)
Lemma Rmin_affine (k c x y : R) : 0 < k -> Rmin (k * x + c) (k * y + c) = k * Rmin x y + c.
Proof.
  intros Hk; destruct (Rle_dec x y) as [H|H].
  - rewrite !Rmin_left; [reflexivity|lra|]; apply Rplus_le_compat_r, Rmult_le_compat_l; lra.
  - rewrite !Rmin_right; [reflexivity|lra|]; apply Rplus_le_compat_r, Rmult_le_compat_l; lra.
Qed.

Lemma Rmax_affine (k c x y : R) : 0 < k -> Rmax (k * x + c) (k * y + c) = k * Rmax x y + c.
Proof.
  intros Hk; destruct (Rle_dec x y) as [H|H].
  - rewrite !Rmax_right; [reflexivity|lra|]; apply Rplus_le_compat_r, Rmult_le_compat_l; lra.
  - rewrite !Rmax_left; [reflexivity|lra|]; apply Rplus_le_compat_r, Rmult_le_compat_l; lra.
Qed.

Lemma Q2R_fold_Qmin (r : list Q) x :
  Q2R (fold_left Qmin r x) = fold_left Rmin (map Q2R r) (Q2R x).
Proof. revert x; induction r as [|y r IH]; intros x; simpl; [|rewrite IH, Q2R_Qmin]; reflexivity. Qed.

Lemma Q2R_fold_Qmax (r : list Q) x :
  Q2R (fold_left Qmax r x) = fold_left Rmax (map Q2R r) (Q2R x).
Proof. revert x; induction r as [|y r IH]; intros x; simpl; [|rewrite IH, Q2R_Qmax]; reflexivity. Qed.

Lemma fold_Rmin_affine (k c : R) (r : list R) x : 0 < k ->
  fold_left Rmin (map (fun t => k * t + c) r) (k * x + c) = k * fold_left Rmin r x + c.
Proof.
  intros Hk; revert x; induction r as [|y r IH]; intros x; simpl; [reflexivity|].
  rewrite Rmin_affine by exact Hk; apply IH.
Qed.

Lemma fold_Rmax_affine (k c : R) (r : list R) x : 0 < k ->
  fold_left Rmax (map (fun t => k * t + c) r) (k * x + c) = k * fold_left Rmax r x + c.
Proof.
  intros Hk; revert x; induction r as [|y r IH]; intros x; simpl; [reflexivity|].
  rewrite Rmax_affine by exact Hk; apply IH.
Qed.

Lemma map_Q2R_affine (k c : Q) (r : list Q) :
  map Q2R (map (fun x => k * x + c)%Q r) = map (fun t => Q2R k * t + Q2R c) (map Q2R r).
Proof. rewrite !map_map; apply map_ext; intros; apply Q2R_affine. Qed.

Section Affine.
(** The change of units [x -> k x + c], [0 < k], of the values. *)
Variables k c : Q.
Hypothesis Hk : (0 < k)%Q.

Lemma qsum_affine (l : list Q) :
  (qsum (map (fun x => k * x + c) l) == k * qsum l + c * qlen l)%Q.
Proof.
  induction l as [|x l IH]; [unfold qlen; simpl; ring|].
  cbn [map]; rewrite !qsum_cons, IH, qlen_cons; ring.
Qed.

Lemma dev2_affine (m m' : Q) (l : list Q) :
  (m' == k * m + c)%Q -> (dev2 m' (map (fun x => k * x + c) l) == k * k * dev2 m l)%Q.
Proof.
  intros Hm; unfold dev2; induction l as [|x l IH]; [simpl; ring|].
  cbn [map]; rewrite !qsum_cons, IH, Hm; ring.
Qed.

(** [Series.var] of the rescaled values is [k^2] times the variance. *)
Lemma var_affine (l : list Q) :
  option_map Q2R (var (map (fun x => (k * x + c)%Q) l)) =
  option_map (fun v => Q2R k * Q2R k * Q2R v) (var l).
Proof.
  unfold var; rewrite length_map; destruct (Nat.ltb (length l) 2) eqn:E; [reflexivity|].
  apply Nat.ltb_ge in E; cbn [option_map]; f_equal.
  assert (Hn : ~ qlen l == 0)
    by (assert (Hl : l <> []) by (intros ->; simpl in E; lia); pose proof (qlen_ge1 l Hl); lra).
  unfold qlen at 1 2 4; rewrite length_map; fold (qlen l).
  rewrite <- !Q2R_mult; apply Qeq_eqR.
  rewrite (dev2_affine (qsum l / qlen l)) by (rewrite qsum_affine; field; exact Hn).
  unfold Qdiv; ring.
Qed.

Lemma kde_cov_affine (a : list Q) :
  kde_cov (map (fun x => (k * x + c)%Q) a) = Q2R k * Q2R k * kde_cov a.
Proof.
  pose proof (var_affine a) as H; unfold kde_cov; rewrite length_map.
  destruct (var (map _ a)), (var a); simpl in H; try discriminate; [|ring].
  injection H as ->; ring.
Qed.

Lemma Qeq_bool_zero_Q2R (v : Q) : Qeq_bool v 0 = true <-> Q2R v = 0.
Proof.
  rewrite Qeq_bool_iff; split; [intros E; rewrite (Qeq_eqR _ _ E); apply RMicromega.Q2R_0|].
  intros E; apply eqR_Qeq; rewrite E, RMicromega.Q2R_0; reflexivity.
Qed.

Lemma kde_singular_affine (a : list Q) :
  kde_singular (map (fun x => (k * x + c)%Q) a) = kde_singular a.
Proof.
  pose proof (var_affine a) as H; pose proof (Q2R_pos _ Hk) as HK; unfold kde_singular.
  destruct (var (map _ a)) as [v'|], (var a) as [v|]; simpl in H; try discriminate; [|reflexivity].
  injection H as H; apply eq_true_iff_eq; rewrite !Qeq_bool_zero_Q2R, H; split; [|intros ->; ring].
  intros E; destruct (Rmult_integral _ _ E) as [E'|E']; [|exact E'].
  apply Rmult_integral in E' as [|]; lra.
Qed.

Lemma gauss_scale (K cov d : R) : 0 < K -> 0 < cov ->
  gauss (K * K * cov) (K * d) = gauss cov d / K.
Proof.
  intros HK Hc; pose proof PI_RGT_0; unfold gauss.
  assert (Hs : 0 < sqrt (2 * PI * cov)) by (apply sqrt_lt_R0; nra).
  replace (- (K * d * (K * d)) / (2 * (K * K * cov))) with (- (d * d) / (2 * cov)) by (field; lra).
  replace (2 * PI * (K * K * cov)) with (K * K * (2 * PI * cov)) by ring.
  rewrite sqrt_mult_alt by nra; rewrite sqrt_square by lra.
  field; lra.
Qed.

Lemma kde_bw_affine (a : list Q) :
  kde_bw (map (fun x => (k * x + c)%Q) a) = Q2R k * kde_bw a.
Proof.
  pose proof (Q2R_pos _ Hk); unfold kde_bw.
  rewrite kde_cov_affine, sqrt_mult_alt by nra; rewrite sqrt_square by lra; reflexivity.
Qed.

(** The support grid moves with the values. *)
Lemma kde_support_affine (a : list Q) :
  kde_support (map (fun x => (k * x + c)%Q) a) = map (fun x => Q2R k * x + Q2R c) (kde_support a).
Proof.
  pose proof (Q2R_pos _ Hk) as HK; unfold kde_support; rewrite kde_bw_affine.
  destruct a as [|x r]; [reflexivity|]; cbn [qmin qmax map].
  rewrite linspace_affine; unfold cut; f_equal;
    rewrite ?Q2R_fold_Qmin, ?Q2R_fold_Qmax, map_Q2R_affine, Q2R_affine,
      ?fold_Rmin_affine, ?fold_Rmax_affine by exact HK; ring.
Qed.

(** The density of the rescaled values at the image of [x] is the
    density at [x] divided by [k]. *)
Lemma kde_eval_affine (a : list Q) (x : R) : 0 < kde_cov a ->
  kde_eval (map (fun x => (k * x + c)%Q) a) (Q2R k * x + Q2R c) = kde_eval a x / Q2R k.
Proof.
  intros Hc; pose proof (Q2R_pos _ Hk) as HK; unfold kde_eval.
  rewrite kde_cov_affine, length_map, map_map, <- rsum_map_div; f_equal; apply map_ext; intros xi.
  rewrite Q2R_affine.
  replace (Q2R k * x + Q2R c - (Q2R k * Q2R xi + Q2R c)) with (Q2R k * (x - Q2R xi)) by ring.
  rewrite gauss_scale by assumption; unfold Rdiv; ring.
Qed.

End Affine.

Section AffineHist.
(** The same change of units, on the histogram. *)
Variables k c : Q.
Hypothesis Hk : (0 < k)%Q.
Local Abbreviation aff := (fun x : Q => (k * x + c)%Q).

Lemma Qle_bool_affine x y : Qle_bool (k * x + c) (k * y + c) = Qle_bool x y.
Proof.
  apply eq_true_iff_eq; rewrite !Qle_bool_iff, Qplus_le_l, Qmult_le_l by exact Hk; reflexivity.
Qed.

Lemma insert_asc_affine x l : insert_asc (k * x + c) (map aff l) = map aff (insert_asc x l).
Proof.
  induction l as [|y l IH]; simpl; [reflexivity|].
  rewrite Qle_bool_affine; destruct (Qle_bool x y); simpl; [reflexivity|rewrite IH; reflexivity].
Qed.

(** Sorting commutes with an increasing change of units. *)
Lemma sort_values_affine l : sort_values (map aff l) = map aff (sort_values l).
Proof.
  unfold sort_values; induction l as [|x l IH]; simpl; [reflexivity|].
  rewrite IH; apply insert_asc_affine.
Qed.

Lemma interp_at_affine (s : list Q) i f :
  (i < length s)%nat -> (interp_at (map aff s) i f == k * interp_at s i f + c)%Q.
Proof.
  intros H; unfold interp_at.
  rewrite (nth_indep _ 0%Q (k * 0 + c)%Q) by (rewrite length_map; exact H).
  rewrite (map_nth aff s 0%Q i), (map_nth aff s (nth i s 0%Q) (S i)); ring.
Qed.

Lemma quantile_eq l p :
  l <> [] ->
  quantile l p = Some (interp_at (sort_values l) (Z.to_nat (Qfloor ((qlen l - 1) * p)%Q))
                        ((qlen l - 1) * p - inject_Z (Qfloor ((qlen l - 1) * p)))%Q).
Proof.
  intros Hl; unfold quantile; destruct (sort_values l) eqn:E; [|reflexivity].
  apply (f_equal (@length Q)) in E; rewrite sort_values_length in E; destruct l; [congruence|discriminate].
Qed.

Lemma qlen_map_affine l : qlen (map aff l) = qlen l.
Proof. unfold qlen; rewrite length_map; reflexivity. Qed.

(** A quantile of the rescaled values is the rescaled quantile. *)
Lemma quantile_affine l p :
  (0 <= p <= 1)%Q ->
  option_map Q2R (quantile (map aff l) p) = option_map (fun q => Q2R k * Q2R q + Q2R c) (quantile l p).
Proof.
  intros Hp; destruct l as [|x r]; [reflexivity|].
  set (l := x :: r); assert (Hl : l <> []) by discriminate.
  assert (Hl' : map aff l <> []) by discriminate.
  rewrite (quantile_eq _ _ Hl), (quantile_eq _ _ Hl'), sort_values_affine, qlen_map_affine; cbn [option_map].
  destruct (quantile_position l p Hl Hp) as (_ & Hi & _).
  rewrite (Qeq_eqR _ _ (interp_at_affine _ _ _ ltac:(rewrite sort_values_length; exact Hi))).
  rewrite Q2R_affine; reflexivity.
Qed.

Lemma qmin_affine l :
  option_map Q2R (qmin (map aff l)) = option_map (fun m => Q2R k * Q2R m + Q2R c) (qmin l).
Proof.
  destruct l as [|x r]; [reflexivity|]; cbn [map qmin option_map]; f_equal.
  rewrite Q2R_fold_Qmin, map_Q2R_affine, Q2R_affine, fold_Rmin_affine, <- Q2R_fold_Qmin
    by (apply Q2R_pos, Hk); reflexivity.
Qed.

Lemma qmax_affine l :
  option_map Q2R (qmax (map aff l)) = option_map (fun m => Q2R k * Q2R m + Q2R c) (qmax l).
Proof.
  destruct l as [|x r]; [reflexivity|]; cbn [map qmax option_map]; f_equal.
  rewrite Q2R_fold_Qmax, map_Q2R_affine, Q2R_affine, fold_Rmax_affine, <- Q2R_fold_Qmax
    by (apply Q2R_pos, Hk); reflexivity.
Qed.

(** A [Some] on one side of [option_map Q2R] equations is a [Some] on
    the other. *)
Lemma option_map_Q2R_Some (o o' : option Q) (f : Q -> R) x :
  option_map Q2R o' = option_map f o -> o = Some x -> exists x', o' = Some x' /\ Q2R x' = f x.
Proof. intros H ->; destruct o' as [x'|]; [injection H as H; eauto|discriminate]. Qed.

(** The Freedman-Diaconis rule is unit free: the bin width scales with
    the range. *)
Lemma fd_bins_affine a : fd_bins (map aff a) = fd_bins a.
Proof.
  pose proof (Q2R_pos _ Hk) as HK; rename a into l.
  unfold fd_bins; rewrite length_map; destruct (Nat.ltb (length l) 2) eqn:E2; [reflexivity|].
  assert (Hl : l <> []) by (intros E; rewrite E in E2; discriminate).
  destruct (quantile_Some l (3 # 4) Hl) as [q3 E3], (quantile_Some l (1 # 4) Hl) as [q1 E1].
  destruct (option_map_Q2R_Some _ _ _ _ (quantile_affine l (3 # 4) ltac:(lra)) E3) as (q3' & E3' & R3).
  destruct (option_map_Q2R_Some _ _ _ _ (quantile_affine l (1 # 4) ltac:(lra)) E1) as (q1' & E1' & R1).
  destruct (qmin l) as [lo|] eqn:Elo; [|destruct l; [congruence|discriminate]].
  destruct (qmax l) as [hi|] eqn:Ehi; [|destruct l; [congruence|discriminate]].
  destruct (option_map_Q2R_Some _ _ _ _ (qmin_affine l) Elo) as (lo' & Elo' & Rlo).
  destruct (option_map_Q2R_Some _ _ _ _ (qmax_affine l) Ehi) as (hi' & Ehi' & Rhi).
  rewrite E3, E1, E3', E1', Elo', Ehi'; cbv zeta.
  rewrite !Q2R_minus, R3, R1, Rlo, Rhi.
  set (P := Rpower (INR (length l)) (1 / 3)); assert (HP : 0 < P) by apply exp_pos.
  set (h := 2 * (Q2R q3 - Q2R q1) / P).
  replace (2 * (Q2R k * Q2R q3 + Q2R c - (Q2R k * Q2R q1 + Q2R c)) / P) with (Q2R k * h)
    by (unfold h; field; lra).
  destruct (Req_EM_T (Q2R k * h) 0) as [H0|H0], (Req_EM_T h 0) as [H1|H1]; try reflexivity.
  - apply Rmult_integral in H0 as [|]; lra.
  - rewrite H1, Rmult_0_r in H0; contradiction.
  - do 2 f_equal; field; lra.
Qed.

Lemma hist_range_varying a lo hi :
  qmin a = Some lo -> qmax a = Some hi -> ~ (lo == hi)%Q -> hist_range a = (lo, hi).
Proof.
  intros E1 E2 H; unfold hist_range; rewrite E1, E2.
  destruct (Qeq_bool lo hi) eqn:E; [apply Qeq_bool_iff in E; contradiction|reflexivity].
Qed.

Lemma hist_range_constant a lo hi :
  qmin a = Some lo -> qmax a = Some hi -> (lo == hi)%Q -> hist_range a = (lo - (1 # 2), hi + (1 # 2))%Q.
Proof. intros E1 E2 H; unfold hist_range; rewrite E1, E2, (proj2 (Qeq_bool_iff lo hi) H); reflexivity. Qed.

Lemma affine_inj x y : (k * x + c == k * y + c)%Q -> (x == y)%Q.
Proof.
  intros E; apply eqR_Qeq; apply Qeq_eqR in E; rewrite !Q2R_affine in E.
  pose proof (Q2R_pos _ Hk); apply (Rmult_eq_reg_l (Q2R k)); lra.
Qed.

(** The range of the rescaled values is the rescaled range. *)
Lemma minmax_affine a lo hi :
  qmin a = Some lo -> qmax a = Some hi ->
  exists lo' hi', qmin (map aff a) = Some lo' /\ qmax (map aff a) = Some hi' /\
    (lo' == k * lo + c)%Q /\ (hi' == k * hi + c)%Q.
Proof.
  intros E1 E2.
  destruct (option_map_Q2R_Some _ _ _ _ (qmin_affine a) E1) as (lo' & E1' & R1).
  destruct (option_map_Q2R_Some _ _ _ _ (qmax_affine a) E2) as (hi' & E2' & R2).
  rewrite <- Q2R_affine in R1, R2; apply eqR_Qeq in R1, R2; eauto 6.
Qed.

Lemma bin_index_affine lo hi lo' hi' n x :
  ~ (lo == hi)%Q -> (lo' == k * lo + c)%Q -> (hi' == k * hi + c)%Q ->
  bin_index lo' hi' n (k * x + c) = bin_index lo hi n x.
Proof.
  intros H E1 E2; unfold bin_index; do 2 f_equal; apply Qfloor_comp.
  assert (Hd : ~ (hi - lo == 0)%Q) by (intros E; apply H; lra).
  assert (Hd' : ~ (k * hi + c - (k * lo + c) == 0)%Q).
  { intros E; apply Hd; assert (E' : (k * (hi - lo) == 0)%Q) by (rewrite <- E; ring).
    apply Qmult_integral in E' as [E'|E']; [lra|exact E']. }
  rewrite E1, E2; field; split; assumption.
Qed.

(** A constant sample stays in the middle bin of its unit-wide range. *)
Lemma bin_index_constant lo hi lo' hi' n x :
  (x == lo)%Q -> (lo == hi)%Q -> (lo' == k * lo + c)%Q -> (hi' == k * hi + c)%Q ->
  bin_index (lo' - (1 # 2)) (hi' + (1 # 2)) n (k * x + c) =
  bin_index (lo - (1 # 2)) (hi + (1 # 2)) n x.
Proof.
  intros Hx H E1 E2; unfold bin_index; do 2 f_equal; apply Qfloor_comp.
  rewrite E1, E2, Hx, <- H; field; intros E; ring_simplify in E; discriminate.
Qed.

Lemma minmax_In a lo hi x : qmin a = Some lo -> qmax a = Some hi -> In x a -> (lo <= x <= hi)%Q.
Proof. intros E1 E2 Hx; split; [apply (qmin_le a lo x E1 Hx)|apply (qmax_ge a hi x E2 Hx)]. Qed.

(** np.histogram of the rescaled values counts the same. *)
Lemma histogram_affine a lo hi n :
  qmin a = Some lo -> qmax a = Some hi -> histogram (map aff a) n = histogram a n.
Proof.
  intros E1 E2; destruct (minmax_affine a lo hi E1 E2) as (lo' & hi' & E1' & E2' & R1 & R2).
  unfold histogram; destruct (Qeq_dec lo hi) as [H|H].
  - rewrite (hist_range_constant a lo hi E1 E2 H), (hist_range_constant _ lo' hi' E1' E2')
      by (rewrite R1, R2, H; reflexivity).
    apply map_ext; intros i; rewrite countb_map; apply countb_ext_in; intros x Hx.
    pose proof (minmax_In a lo hi x E1 E2 Hx) as Hb.
    rewrite (bin_index_constant lo hi lo' hi' n x) by (auto; lra); reflexivity.
  - rewrite (hist_range_varying a lo hi E1 E2 H), (hist_range_varying _ lo' hi' E1' E2')
      by (rewrite R1, R2; intros E; apply H, affine_inj, E).
    apply map_ext; intros i; rewrite countb_map; apply countb_ext_in; intros x _.
    rewrite (bin_index_affine lo hi lo' hi' _ x H R1 R2); reflexivity.
Qed.

Lemma inject_nat_nonzero n : (1 <= n)%nat -> ~ (inject_Z (Z.of_nat n) == 0)%Q.
Proof. intros Hn E; change 0%Q with (inject_Z 0) in E; rewrite inject_Z_injective in E; lia. Qed.

(** The density heights of the rescaled values: divided by [k], or the
    same when every value is equal (the range is then one unit wide
    whatever the unit). *)
Lemma density_affine a lo hi n :
  qmin a = Some lo -> qmax a = Some hi -> (1 <= n)%nat ->
  map Q2R (density (map aff a) n) =
  map (fun h => if Qeq_bool lo hi then Q2R h else Q2R h / Q2R k) (density a n).
Proof.
  intros E1 E2 Hn; destruct (minmax_affine a lo hi E1 E2) as (lo' & hi' & E1' & E2' & R1 & R2).
  assert (HL : ~ (qlen a == 0)%Q)
    by (assert (Ha : a <> []) by (intros ->; discriminate); pose proof (qlen_pos a Ha); lra).
  pose proof (inject_nat_nonzero n Hn) as HN.
  unfold density; destruct (Qeq_dec lo hi) as [H|H].
  - rewrite (hist_range_constant a lo hi E1 E2 H), (hist_range_constant _ lo' hi' E1' E2')
      by (rewrite R1, R2, H; reflexivity).
    cbv beta iota; rewrite (histogram_affine a lo hi n E1 E2), qlen_map_affine, !map_map.
    rewrite (proj2 (Qeq_bool_iff lo hi) H); apply map_ext; intros m; apply Qeq_eqR.
    rewrite R1, R2, <- H; field; split; [|split]; try assumption; intros E; ring_simplify in E; discriminate.
  - assert (Hd : ~ (hi - lo == 0)%Q) by (intros E; apply H; lra).
    assert (Hd' : ~ (hi' - lo' == 0)%Q).
    { rewrite R1, R2; intros E; apply Hd.
      assert (E' : (k * (hi - lo) == 0)%Q) by (rewrite <- E; ring).
      apply Qmult_integral in E' as [E'|E']; [lra|exact E']. }
    rewrite (hist_range_varying a lo hi E1 E2 H), (hist_range_varying _ lo' hi' E1' E2')
      by (intros E; apply Hd'; lra).
    cbv beta iota; rewrite (histogram_affine a lo hi n E1 E2), qlen_map_affine, !map_map.
    destruct (Qeq_bool lo hi) eqn:Eb; [apply Qeq_bool_iff in Eb; contradiction|].
    apply map_ext; intros m; rewrite <- Q2R_div by lra; apply Qeq_eqR.
    assert (Hw : (hi' - lo' == k * (hi - lo))%Q) by (rewrite R1, R2; ring).
    rewrite Hw; field; repeat split; try assumption; lra.
Qed.

Lemma numeric_values_rescale (s : list cell) :
  numeric_values (rescale k c s) = (a <- numeric_values s ;; Ok (map aff a)).
Proof.
  induction s as [|x s IH]; [reflexivity|].
  destruct x as [|q|t]; cbn [rescale map numeric_values]; fold (rescale k c s); [exact IH| |reflexivity].
  rewrite IH; destruct (numeric_values s); reflexivity.
Qed.

End AffineHist.

(** ** The kernel density curve: bandwidth and peak *)

Lemma scotts_factor_pos n : 0 < scotts_factor n.
Proof. apply exp_pos. Qed.

Lemma kde_cov_pos (a : list Q) : kde_singular a = false -> 0 < kde_cov a.
Proof.
  unfold kde_singular, kde_cov; destruct (var a) as [v|] eqn:E; [|discriminate]; intros Hv.
  pose proof (scotts_factor_pos (length a)) as Hs.
  assert (Hv0 : 0 < Q2R v).
  { apply Q2R_pos; destruct (Qle_lt_or_eq _ _ (var_nonneg a v E)) as [H|H]; [exact H|].
    rewrite (proj2 (Qeq_bool_iff v 0) (Qeq_sym _ _ H)) in Hv; discriminate. }
  apply Rmult_lt_0_compat; [exact Hv0|apply Rmult_lt_0_compat; exact Hs].
Qed.

Lemma kde_singular_nil : kde_singular [] = true.
Proof. reflexivity. Qed.

Lemma sqrt_2pi_cov (a : list Q) : sqrt (2 * PI * kde_cov a) = kde_bw a * sqrt (2 * PI).
Proof.
  pose proof PI_RGT_0; unfold kde_bw; rewrite sqrt_mult_alt by lra; ring.
Qed.

(** One kernel is positive and at most its peak [1 / sqrt(2 pi cov)]. *)
Lemma gauss_bounds (cov x : R) : 0 < cov -> 0 < gauss cov x <= 1 / sqrt (2 * PI * cov).
Proof.
  intros Hc; pose proof PI_RGT_0; unfold gauss.
  assert (Hs : 0 < sqrt (2 * PI * cov)) by (apply sqrt_lt_R0; nra).
  set (t := x * x * / (2 * cov)).
  assert (Ht : 0 <= t) by (apply Rmult_le_pos; [nra|left; apply Rinv_0_lt_compat; lra]).
  replace (- (x * x) / (2 * cov)) with (- t) by (unfold t, Rdiv; ring).
  assert (He : exp (- t) <= 1).
  { rewrite <- exp_0; destruct (Req_dec t 0) as [->|Hn]; [rewrite Ropp_0; lra|].
    left; apply exp_increasing; lra. }
  pose proof (exp_pos (- t)); split; [apply Rdiv_lt_0_compat; lra|].
  unfold Rdiv; apply Rmult_le_compat_r; [left; apply Rinv_0_lt_compat|]; lra.
Qed.

(** The estimate is an average of kernels: positive and below the peak. *)
Lemma kde_eval_bounds (a : list Q) x : a <> [] -> 0 < kde_cov a ->
  0 < kde_eval a x <= 1 / sqrt (2 * PI * kde_cov a).
Proof.
  intros Ha Hc; pose proof PI_RGT_0; unfold kde_eval.
  assert (Hs : 0 < sqrt (2 * PI * kde_cov a)) by (apply sqrt_lt_R0; nra).
  assert (Hn : 0 < INR (length a)) by (apply lt_0_INR; destruct a; [congruence|simpl; lia]).
  destruct (rsum_map_bounds (fun xi => gauss (kde_cov a) (x - Q2R xi) / INR (length a)) a
              (1 / sqrt (2 * PI * kde_cov a) / INR (length a)) Ha) as [H1 H2].
  { intros xi _; destruct (gauss_bounds (kde_cov a) (x - Q2R xi) Hc).
    split; [apply Rdiv_lt_0_compat; lra|].
    unfold Rdiv; apply Rmult_le_compat_r; [left; apply Rinv_0_lt_compat|]; lra. }
  split; [exact H1|]; eapply Rle_trans; [exact H2|]; right; field; lra.
Qed.

Local Close Scope R_scope.

(** C30 (functional). The histogram [sns.distplot] draws at line 17 has
    between one and fifty bars, every value of SalePrice in exactly one of
    them, and, as a density, bars whose areas sum to one. *)
Theorem distplot_histogram (s : list cell) k hs kde :
  distplot s = Ok (k, hs, kde) ->
  (1 <= k <= 50)%nat /\ length hs = k /\
  forall a, numeric_values s = Ok a ->
    list_sum (histogram a k) = length a /\
    (a <> [] ->
     qsum hs * ((snd (hist_range a) - fst (hist_range a)) / inject_Z (Z.of_nat k)) == 1).
Proof.
  unfold distplot; intros E; bind_inv E.
  destruct (numeric_values s) as [a'|e] eqn:En; inv Ha; inv E.
  assert (Hk : (1 <= distplot_bins a <= 50)%nat)
    by (unfold distplot_bins; pose proof (fd_bins_pos a); lia).
  split; [exact Hk|split].
  - unfold density; destruct (hist_range a); rewrite length_map; apply histogram_length.
  - intros a' [= <-]; split; [apply histogram_total; lia|intros Ha; apply density_area; [exact Ha|lia]].
Qed.


Local Open Scope R_scope.

(** C32 (bounds). When [sns.distplot] draws the kernel density curve at
    line 17, the curve has [gridsize] (200) points running from
    [min - 3 bw] to [max + 3 bw] for a positive bandwidth [bw], and every
    density on it is positive and at most [1 / (bw sqrt(2 pi))], the peak
    of a single Gaussian kernel. *)
Theorem kdeplot_bounds (a : list Q) pts :
  kdeplot a = Some pts ->
  length pts = gridsize /\ 0 < kde_bw a /\
  (exists lo hi, qmin a = Some lo /\ qmax a = Some hi /\
     nth 0 (map fst pts) 0 = Q2R lo - kde_bw a * cut /\
     nth (gridsize - 1) (map fst pts) 0 = Q2R hi + kde_bw a * cut) /\
  (forall p, In p pts -> 0 < snd p <= 1 / (kde_bw a * sqrt (2 * PI))).
Proof.
  unfold kdeplot; destruct (kde_singular a) eqn:Hs; [discriminate|]; intros [= <-].
  pose proof (kde_cov_pos a Hs) as Hc.
  assert (Ha : a <> []) by (intros ->; rewrite kde_singular_nil in Hs; discriminate).
  split; [rewrite length_map; unfold kde_support|split; [apply sqrt_lt_R0, Hc|split]].
  - destruct a as [|x r]; [congruence|apply linspace_length].
  - rewrite map_map, map_id; unfold kde_support; destruct a as [|x r]; [congruence|].
    do 2 eexists; split; [reflexivity|split; [reflexivity|]].
    split; [apply linspace_first|apply linspace_last]; unfold gridsize; lia.
  - intros p Hp; apply in_map_iff in Hp as [y [<- _]]; cbn [snd].
    rewrite <- sqrt_2pi_cov; apply kde_eval_bounds; assumption.
Qed.

(** A change of units [k * price + c], [k > 0], moves the kernel density
    curve by the same map along the x axis and divides its heights by
    [k]; the curve is drawn, or skipped, exactly as before. *)
Lemma kdeplot_rescale (a : list Q) (k c : Q) : (0 < k)%Q ->
  kdeplot (map (fun x => (k * x + c)%Q) a) =
  option_map (map (fun p => (Q2R k * fst p + Q2R c, snd p / Q2R k))) (kdeplot a).
Proof.
  intros Hk; unfold kdeplot; rewrite kde_singular_affine by exact Hk.
  destruct (kde_singular a) eqn:Hs; [reflexivity|]; cbn [option_map]; f_equal.
  rewrite kde_support_affine by exact Hk; rewrite !map_map; apply map_ext; intros x.
  rewrite kde_eval_affine by (exact Hk || apply kde_cov_pos, Hs); reflexivity.
Qed.

(** C31 (equivalence). The distribution chart of line 17 does not depend
    on the unit of SalePrice: measured as [k * price + c] with [k > 0]
    (thousands of dollars, or the uniform deflator the note of lines
    78-80 asks for), [sns.distplot] raises the same errors, draws the
    same number of bars, the density curve moved by the same map along
    the x axis with its heights divided by [k], and bar heights divided
    by [k], except when all prices are equal: np.histogram's range is then
    one unit wide in any unit and the heights stay the same. *)
Theorem distplot_rescale (s : list cell) (k c : Q) : (0 < k)%Q ->
  match numeric_values s with
  | Err _ => distplot (rescale k c s) = distplot s
  | Ok a =>
      exists hs', distplot (rescale k c s) =
        Ok (distplot_bins a, hs',
            option_map (map (fun p => (Q2R k * fst p + Q2R c, snd p / Q2R k))) (kdeplot a)) /\
      forall lo hi, qmin a = Some lo -> qmax a = Some hi ->
        map Q2R hs' =
        map (fun h => if Qeq_bool lo hi then Q2R h else Q2R h / Q2R k) (density a (distplot_bins a))
  end.
Proof.
  intros Hk; unfold distplot; rewrite numeric_values_rescale.
  destruct (numeric_values s) as [a|e]; cbn [bind]; [|reflexivity].
  unfold distplot_bins; rewrite fd_bins_affine, <- kdeplot_rescale by exact Hk.
  eexists; split; [reflexivity|]; intros lo hi E1 E2.
  apply density_affine; [exact Hk|exact E1|exact E2|pose proof (fd_bins_pos a); lia].
Qed.

Local Close Scope R_scope.

Lemma distplot_histogram_witness :
  exists k hs kde, distplot saleprice_sample = Ok (k, hs, kde) /\
  ((1 <= k <= 50)%nat /\ length hs = k /\
   forall a, numeric_values saleprice_sample = Ok a ->
     list_sum (histogram a k) = length a /\
     (a <> [] ->
      qsum hs * ((snd (hist_range a) - fst (hist_range a)) / inject_Z (Z.of_nat k)) == 1)).
Proof.
  destruct (distplot saleprice_sample) as [[[k hs] kde]|e] eqn:E;
    [|unfold distplot in E; simpl in E; discriminate].
  exists k, hs, kde; split; [reflexivity|exact (distplot_histogram _ _ _ _ E)].
Defined.


Lemma sample_prices_regular : kde_singular sample_prices = false.
Proof. vm_compute; reflexivity. Qed.

Lemma kdeplot_bounds_witness :
  exists pts, kdeplot sample_prices = Some pts /\
  (length pts = gridsize /\ (0 < kde_bw sample_prices)%R /\
   (exists lo hi, qmin sample_prices = Some lo /\ qmax sample_prices = Some hi /\
      nth 0 (map fst pts) 0%R = (Q2R lo - kde_bw sample_prices * cut)%R /\
      nth (gridsize - 1) (map fst pts) 0%R = (Q2R hi + kde_bw sample_prices * cut)%R) /\
   (forall p, In p pts -> 0 < snd p <= 1 / (kde_bw sample_prices * sqrt (2 * PI)))%R).
Proof.
  unfold kdeplot at 1; rewrite sample_prices_regular.
  eexists; split; [reflexivity|apply kdeplot_bounds].
  unfold kdeplot; rewrite sample_prices_regular; reflexivity.
Defined.

Lemma distplot_rescale_witness :
  (0 < 1 # 1000)%Q /\
  match numeric_values saleprice_sample with
  | Err _ => distplot (rescale (1 # 1000) 0 saleprice_sample) = distplot saleprice_sample
  | Ok a =>
      exists hs', distplot (rescale (1 # 1000) 0 saleprice_sample) =
        Ok (distplot_bins a, hs',
            option_map (map (fun p => (Q2R (1 # 1000) * fst p + Q2R 0, snd p / Q2R (1 # 1000))%R))
              (kdeplot a)) /\
      forall lo hi, qmin a = Some lo -> qmax a = Some hi ->
        map Q2R hs' =
        map (fun h => if Qeq_bool lo hi then Q2R h else (Q2R h / Q2R (1 # 1000))%R)
          (density a (distplot_bins a))
  end.
Proof. split; [reflexivity|apply distplot_rescale; reflexivity]. Defined.
End Distplot.
