(* ===== verification/Corr.v ===== *)
(** * Pearson correlation (lines 56-58) and the correlation matrix (line 97)

    [src/house_prices_eda.py] prints [df_train['GrLivArea'].corr(
    df_train['SalePrice'])] and the same for TotalBsmtSF (lines 57-58), and
    renders [corrmat = df_train.corr()] as a heatmap (lines 97-99).
    - [pairs]: the pairwise-complete observations of two Series (a row
      counts when both cells are numbers); a string raises TypeError;
    - [cov_sums]: the centred sums Sxy, Sxx, Syy over those pairs;
    - [pearson]: [Series.corr], that is [np.corrcoef(a, b)[0, 1]]:
      Sxy / (sqrt Sxx * sqrt Syy) clipped to [-1, 1], NaN when a variance
      is zero (which covers fewer than two pairs);
    - [pearson_nc]: the entry [libalgos.nancorr] computes for
      [DataFrame.corr]: Sxy / sqrt (Sxx * Syy), not clipped, NaN when the
      divisor is zero;
    - [corr_matrix]: [DataFrame.corr()] over the numeric columns (the
      default [numeric_only] of the pandas versions the script was written
      for);
    - [corr_sq]: the square of the coefficient as an exact rational;
    - [scatter_by]: the scatter plots of lines 47-48 and 52-53, by the
      points they draw ([drawn]: rows where both values are numbers) and
      the [ylim] view ([visible]); a column without numbers raises
      ValueError;
    - [heatmap]: [sns.heatmap(corrmat, vmax=.8)] of line 99, by the shade
      in [0, 1] of each cell ([heat_level]): matplotlib's [Normalize] from
      the smallest correlation to .8, values above .8 in the top colour,
      NaN cells masked. *)

From Stdlib Require Import ZArith Reals Qreals.
From S2P Require Import Prelude Cell Frame Stats.
From Stdlib Require Import Psatz.

Module Corr.
Import Frame Stats.

Local Open Scope Q_scope.

(** The rows where both Series hold a number. *)
Fixpoint pairs (a b : list cell) : result (list (Q * Q)) :=
  match a, b with
  | x :: a', y :: b' =>
      match x, y with
      | Str _, _ | _, Str _ => Err TypeError
      | Num p, Num q => ps <- pairs a' b' ;; Ok ((p, q) :: ps)
      | _, _ => pairs a' b'
      end
  | _, _ => Ok []
  end.

Definition mean_of (l : list Q) : Q := qsum l / qlen l.

(** The centred sums (Sxy, Sxx, Syy) of the observations. *)
Definition cov_sums (ps : list (Q * Q)) : Q * Q * Q :=
  let mx := mean_of (map fst ps) in
  let my := mean_of (map snd ps) in
  (qsum (map (fun p => (fst p - mx) * (snd p - my)) ps),
   dev2 mx (map fst ps), dev2 my (map snd ps)).

(** [np.corrcoef(a, b)[0, 1]] *)
Definition pearson (ps : list (Q * Q)) : option R :=
  let '(sxy, sxx, syy) := cov_sums ps in
  if Qeq_bool sxx 0 || Qeq_bool syy 0 then None
  else Some (Rmax (-1) (Rmin 1 (Q2R sxy / (sqrt (Q2R sxx) * sqrt (Q2R syy)))))%R.

(** Lines 57-58: [a.corr(b)] *)
Definition corr (a b : list cell) : result (option R) :=
  ps <- pairs a b ;; Ok (pearson ps).

(** The square of the coefficient, exactly. *)
Definition corr_sq (ps : list (Q * Q)) : option Q :=
  let '(sxy, sxx, syy) := cov_sums ps in
  if Qeq_bool sxx 0 || Qeq_bool syy 0 then None
  else Some (sxy * sxy / (sxx * syy)).

(** The entry of [DataFrame.corr] for two numeric columns. *)
Definition pearson_nc (ps : list (Q * Q)) : option R :=
  let '(sxy, sxx, syy) := cov_sums ps in
  if Qeq_bool (sxx * syy) 0 then None
  else Some (Q2R sxy / sqrt (Q2R sxx * Q2R syy))%R.

(** A column of numbers and missing values only. *)
Definition is_numeric (v : list cell) : bool :=
  forallb (fun c => match c with Str _ => false | _ => true end) v.

Definition numeric_columns (df : frame) : list (string * list cell) :=
  filter (fun lv => is_numeric (snd lv)) (columns df).

(** Line 97: [df_train.corr()], row by row. *)
Definition corr_matrix (df : frame) : list (string * list (string * option R)) :=
  let cols := numeric_columns df in
  map (fun a => (fst a, map (fun b => (fst b,
         match pairs (snd a) (snd b) with Ok ps => pearson_nc ps | Err _ => None end)) cols))
      cols.

(** ** Lines 46-54: the scatter plots of SalePrice against a feature *)

(** pandas' [PlanePlot] refuses a column without numeric data. *)
Definition require_numeric (v : list cell) (axis : string) : result unit :=
  if is_numeric v then Ok tt
  else Err (ValueError ("scatter requires " ++ axis ++ " column to be numeric")%string).

(** The points matplotlib draws: the rows where both coordinates are
    numbers (a NaN coordinate is masked). *)
Fixpoint drawn (xs ys : list cell) : list (Q * Q) :=
  match xs, ys with
  | Num p :: xs', Num q :: ys' => (p, q) :: drawn xs' ys'
  | _ :: xs', _ :: ys' => drawn xs' ys'
  | _, _ => []
  end.

(** [data.plot.scatter(x=xc, y=yc, ylim=...)]; the y limits only set the
    view, see [visible]. *)
Definition scatter (data : frame) (xc yc : string) : result (list (Q * Q)) :=
  x <- getitem data xc ;; y <- getitem data yc ;;
  _ <- require_numeric x "x" ;; _ <- require_numeric y "y" ;;
  Ok (drawn x y).

Definition sale_price : string := "SalePrice".

(** Lines 47-48 and 52-53: the concatenation, then the scatter plot. *)
Definition scatter_by (df : frame) (feature : string) : result (list (Q * Q)) :=
  data <- concat_columns df [sale_price; feature] ;;
  scatter data feature sale_price.

Definition scatter_grlivarea (df : frame) := scatter_by df "GrLivArea"%string.
Definition scatter_totalbsmtsf (df : frame) := scatter_by df "TotalBsmtSF"%string.

(** [ylim=(0, 800000)]: the drawn points inside the view. *)
Definition visible (ps : list (Q * Q)) : list (Q * Q) :=
  filter (fun p => Qle_bool 0 (snd p) && Qle_bool (snd p) 800000) ps.

(** ** Lines 98-99: [sns.heatmap(corrmat, vmax=.8, square=True)] *)

Definition vmax_heat : R := (4 / 5)%R.

(** The values of the matrix; NaN cells are masked. *)
Definition entries (m : list (string * list (string * option R))) : list R :=
  flat_map (fun r => flat_map (fun e => match snd e with Some v => [v] | None => [] end) (snd r)) m.

(** matplotlib's [Normalize(vmin, vmax)] followed by the colormap, which
    draws a value above [vmax] in its top colour: the shade in [0, 1]. *)
Definition heat_level (vmin v : R) : R :=
  if Req_EM_T vmin vmax_heat then 0%R
  else Rmax 0 (Rmin 1 ((v - vmin) / (vmax_heat - vmin)))%R.

Definition shade (vmin : R) (m : list (string * list (string * option R)))
  : list (string * list (string * option R)) :=
  map (fun r => (fst r, map (fun e => (fst e, option_map (heat_level vmin) (snd e))) (snd r))) m.

(** seaborn takes [vmin = np.nanmin(data)]; [Normalize] raises when it
    exceeds [vmax]. *)
Definition heatmap (m : list (string * list (string * option R)))
  : result (list (string * list (string * option R))) :=
  match entries m with
  | [] => Ok (shade 0 m)
  | v :: vs =>
      let vmin := fold_left Rmin vs v in
      if Rlt_dec vmax_heat vmin
      then Err (ValueError "minvalue must be less than or equal to maxvalue"%string)
      else Ok (shade vmin m)
  end.

Definition affine_pairs (k c : Q) (ps : list (Q * Q)) : list (Q * Q) :=
  map (fun p => (fst p, k * snd p + c)) ps.

(** Sums over pairs, for the Cauchy-Schwarz inequality. *)
Definition suv (l : list (Q * Q)) : Q := qsum (map (fun p => fst p * snd p) l).
Definition suu (l : list (Q * Q)) : Q := qsum (map (fun p => fst p * fst p) l).
Definition svv (l : list (Q * Q)) : Q := qsum (map (fun p => snd p * snd p) l).

Definition swap (p : Q * Q) : Q * Q := (snd p, fst p).
Definition diag (q : Q) : Q * Q := (q, q).

(** Lagrange's sum of squares over the pairs of observations, the gap in
    the Cauchy-Schwarz inequality. *)
Fixpoint lagrange (l : list (Q * Q)) : Q :=
  match l with
  | [] => 0
  | (u, v) :: l' =>
      lagrange l' + qsum (map (fun p => (u * snd p - fst p * v) * (u * snd p - fst p * v)) l')
  end.

(** ** Samples *)

Section Samples.
Local Open Scope string_scope.

(** The first GrLivArea and SalePrice values of train.csv, one area missing. *)
Definition grliv : list cell := [Num 1710; Num 1262; NaN; Num 1717; Num 2198].
Definition saleprice : list cell := [Num 208500; Num 181500; Num 223500; Num 140000; Num 250000].

Definition corr_frame : frame := mkFrame [0; 1; 2; 3; 4]%nat
  [("GrLivArea", grliv); ("Street", [Str "Pave"; Str "Pave"; Str "Pave"; Str "Pave"; Str "Pave"]);
   ("SalePrice", saleprice)].
(** A column holding one value on every row. *)
Definition constant_frame : frame := mkFrame [0; 1; 2]%nat
  [("PoolArea", [Num 0; Num 0; Num 0]); ("SalePrice", [Num 208500; Num 181500; Num 223500])].
End Samples.

(** ** Cauchy-Schwarz on sums of rationals *)


Lemma cross_sum (u v : Q) (l : list (Q * Q)) :
  qsum (map (fun p => (u * snd p - fst p * v) * (u * snd p - fst p * v)) l) ==
  u * u * svv l + v * v * suu l - 2 * u * v * suv l.
Proof.
  unfold suu, svv, suv; induction l as [|[x y] l IH]; simpl; [ring|].
  rewrite IH; ring.
Qed.

Lemma lagrange_identity (l : list (Q * Q)) : suu l * svv l - suv l * suv l == lagrange l.
Proof.
  induction l as [|[u v] l IH]; [unfold suu, svv, suv; simpl; ring|].
  cbn [lagrange]; rewrite cross_sum, <- IH.
  unfold suu, svv, suv; cbn [map]; rewrite !qsum_cons; cbn [fst snd]; ring.
Qed.

Lemma lagrange_nonneg (l : list (Q * Q)) : 0 <= lagrange l.
Proof.
  induction l as [|[u v] l IH]; simpl; [apply Qle_refl|].
  apply (Qplus_le_compat 0 _ 0); [exact IH|].
  apply qsum_nonneg, Forall_forall; intros y Hy.
  apply in_map_iff in Hy as (p & <- & _); apply Qsq_nonneg.
Qed.

Lemma cauchy_schwarz (l : list (Q * Q)) : suv l * suv l <= suu l * svv l.
Proof.
  pose proof (lagrange_identity l); pose proof (lagrange_nonneg l); lra.
Qed.

(** The centred sums satisfy Cauchy-Schwarz: Sxy^2 <= Sxx Syy. *)
Lemma cov_sums_cs (ps : list (Q * Q)) :
  let '(sxy, sxx, syy) := cov_sums ps in sxy * sxy <= sxx * syy.
Proof.
  unfold cov_sums; set (mx := mean_of (map fst ps)); set (my := mean_of (map snd ps)).
  pose proof (cauchy_schwarz (map (fun p => (fst p - mx, snd p - my)) ps)) as H.
  unfold suv, suu, svv, dev2 in *; rewrite !map_map in *; exact H.
Qed.

Lemma clip_id (r : R) : (-1 <= r <= 1)%R -> Rmax (-1) (Rmin 1 r) = r.
Proof. intros [H1 H2]; rewrite Rmin_right, Rmax_right; auto. Qed.

(** With both variances positive, the unclipped coefficient lies in [-1, 1]. *)
Lemma ratio_in_unit (sxy sxx syy : Q) :
  sxy * sxy <= sxx * syy -> 0 <= sxx -> 0 <= syy ->
  Qeq_bool sxx 0 = false -> Qeq_bool syy 0 = false ->
  (-1 <= Q2R sxy / (sqrt (Q2R sxx) * sqrt (Q2R syy)) <= 1)%R.
Proof.
  intros Hcs Hx Hy Ex Ey.
  apply Qle_Rle in Hcs, Hx, Hy; rewrite !Q2R_mult in Hcs; rewrite RMicromega.Q2R_0 in Hx, Hy.
  apply RMicromega.Qeq_false in Ex, Ey; rewrite RMicromega.Q2R_0 in Ex, Ey.
  set (X := Q2R sxx) in *; set (Y := Q2R syy) in *; set (S := Q2R sxy) in *.
  assert (HX : (0 < sqrt X)%R) by (apply sqrt_lt_R0; lra).
  assert (HY : (0 < sqrt Y)%R) by (apply sqrt_lt_R0; lra).
  assert (HXY : (S * S <= (sqrt X * sqrt Y) * (sqrt X * sqrt Y))%R).
  { replace ((sqrt X * sqrt Y) * (sqrt X * sqrt Y))%R with ((sqrt X * sqrt X) * (sqrt Y * sqrt Y))%R
      by ring; rewrite !sqrt_sqrt by lra; exact Hcs. }
  set (D := (sqrt X * sqrt Y)%R) in *.
  assert (HD : (0 < D)%R) by (apply Rmult_lt_0_compat; auto).
  split.
  - apply (Rmult_le_reg_r D); [exact HD|]; unfold Rdiv; rewrite Rmult_assoc, Rinv_l by lra; nra.
  - apply (Rmult_le_reg_r D); [exact HD|]; unfold Rdiv; rewrite Rmult_assoc, Rinv_l by lra; nra.
Qed.

Lemma cov_sums_nonneg (ps : list (Q * Q)) :
  let '(_, sxx, syy) := cov_sums ps in 0 <= sxx /\ 0 <= syy.
Proof. unfold cov_sums; split; apply dev2_nonneg. Qed.

(** The clip of [np.corrcoef] never changes the exact coefficient. *)
Lemma pearson_unclipped (ps : list (Q * Q)) r :
  pearson ps = Some r ->
  (-1 <= r <= 1)%R /\
  let '(sxy, sxx, syy) := cov_sums ps in
  r = (Q2R sxy / (sqrt (Q2R sxx) * sqrt (Q2R syy)))%R.
Proof.
  unfold pearson; pose proof (cov_sums_cs ps) as Hcs; pose proof (cov_sums_nonneg ps) as Hn.
  destruct (cov_sums ps) as [[sxy sxx] syy].
  destruct (Qeq_bool sxx 0) eqn:Ex; [discriminate|]; destruct (Qeq_bool syy 0) eqn:Ey;
    [discriminate|]; simpl; intros [= <-].
  destruct Hn as [Hx Hy]; pose proof (ratio_in_unit _ _ _ Hcs Hx Hy Ex Ey) as Hu.
  rewrite clip_id by exact Hu; auto.
Qed.

(** C18 (bounds). [a.corr(b)] (lines 57-58), when it is a number, lies in
    [-1, 1] and is Sxy / (sqrt Sxx * sqrt Syy) over the pairwise-complete
    rows: the clip [np.corrcoef] applies has no effect. *)
Theorem corr_bounds (a b : list cell) r :
  corr a b = Ok (Some r) ->
  (-1 <= r <= 1)%R /\
  exists ps, pairs a b = Ok ps /\
    let '(sxy, sxx, syy) := cov_sums ps in
    r = (Q2R sxy / (sqrt (Q2R sxx) * sqrt (Q2R syy)))%R.
Proof.
  unfold corr; intros H; bind_inv H; inv H.
  destruct (pearson_unclipped _ _ H1) as [Hb He]; split; eauto.
Qed.

(** ** Symmetry *)


Lemma pairs_swap (a b : list cell) :
  pairs b a = match pairs a b with Ok ps => Ok (map swap ps) | Err e => Err e end.
Proof.
  revert b; induction a as [|x a IH]; intros [|y b]; try reflexivity.
  cbn [pairs]; rewrite IH; destruct x, y; try reflexivity;
    destruct (pairs a b); reflexivity.
Qed.

Lemma pearson_swap (ps : list (Q * Q)) : pearson (map swap ps) = pearson ps.
Proof.
  unfold pearson, cov_sums.
  assert (Hf : map fst (map swap ps) = map snd ps) by (rewrite map_map; reflexivity).
  assert (Hs : map snd (map swap ps) = map fst ps) by (rewrite map_map; reflexivity).
  rewrite Hf, Hs, orb_comm.
  destruct (Qeq_bool _ 0 || Qeq_bool _ 0); [reflexivity|].
  assert (Hxy : qsum (map (fun p => (fst p - mean_of (map snd ps)) *
                                    (snd p - mean_of (map fst ps))) (map swap ps)) ==
                qsum (map (fun p => (fst p - mean_of (map fst ps)) *
                                    (snd p - mean_of (map snd ps))) ps)).
  { rewrite map_map; apply qsum_map_ext; intros p _; simpl; ring. }
  rewrite (Qeq_eqR _ _ Hxy), (Rmult_comm (sqrt _)); reflexivity.
Qed.

(** C19 (equivalence). [a.corr(b)] and [b.corr(a)] agree, errors included. *)
Theorem corr_symmetric (a b : list cell) : corr a b = corr b a.
Proof.
  unfold corr; rewrite (pairs_swap a b); destruct (pairs a b); simpl; auto.
  rewrite pearson_swap; reflexivity.
Qed.

(** ** A column with itself *)


Lemma pairs_self (a : list cell) :
  pairs a a = match numeric_values a with Ok l => Ok (map diag l) | Err e => Err e end.
Proof.
  induction a as [|x a IH]; [reflexivity|].
  destruct x; cbn [pairs numeric_values]; rewrite ?IH; try reflexivity.
  destruct (numeric_values a); reflexivity.
Qed.

(** C20 (functional). A numeric column's correlation with itself is 1 when
    its values are not all equal, and NaN when they are (or when it has
    fewer than two values). *)
Theorem corr_self (a : list cell) l :
  numeric_values a = Ok l ->
  corr a a = Ok (if Qeq_bool (dev2 (mean_of l) l) 0 then None else Some 1%R).
Proof.
  intros Hl; unfold corr; rewrite pairs_self, Hl; simpl; f_equal.
  unfold pearson, cov_sums.
  assert (Hm : map fst (map diag l) = l /\ map snd (map diag l) = l)
    by (rewrite !map_map; split; apply map_id).
  destruct Hm as [-> ->].
  assert (Hxy : qsum (map (fun p => (fst p - mean_of l) * (snd p - mean_of l)) (map diag l))
                = dev2 (mean_of l) l) by (rewrite map_map; reflexivity).
  rewrite Hxy, orb_diag; destruct (Qeq_bool (dev2 (mean_of l) l) 0) eqn:E; [reflexivity|].
  pose proof (Qle_Rle _ _ (dev2_nonneg (mean_of l) l)) as H0.
  apply RMicromega.Qeq_false in E; rewrite RMicromega.Q2R_0 in H0, E.
  assert (Hs : (0 < sqrt (Q2R (dev2 (mean_of l) l)))%R) by (apply sqrt_lt_R0; lra).
  rewrite sqrt_sqrt, Rdiv_diag by lra; rewrite clip_id by lra; reflexivity.
Qed.

(** ** The correlation matrix *)

Lemma pairs_numeric (a b : list cell) :
  is_numeric a = true -> is_numeric b = true -> exists ps, pairs a b = Ok ps.
Proof.
  revert b; induction a as [|x a IH]; intros [|y b] Ha Hb; try (eexists; reflexivity).
  simpl in Ha, Hb; apply andb_true_iff in Ha as [Hx Ha]; apply andb_true_iff in Hb as [Hy Hb].
  destruct (IH b Ha Hb) as [ps Hps].
  destruct x, y; try discriminate; cbn [pairs]; rewrite ?Hps; simpl; eauto.
Qed.

Lemma Qeq_bool_mult_0 (x y : Q) :
  Qeq_bool (x * y) 0 = Qeq_bool x 0 || Qeq_bool y 0.
Proof.
  apply eq_true_iff_eq; rewrite orb_true_iff, !Qeq_bool_iff; split.
  - apply Qmult_integral.
  - intros [H|H]; rewrite H; ring.
Qed.

(** The entry [DataFrame.corr] computes is the value [Series.corr] gives. *)
Lemma pearson_nc_eq (ps : list (Q * Q)) : pearson_nc ps = pearson ps.
Proof.
  unfold pearson_nc, pearson; pose proof (cov_sums_cs ps) as Hcs;
    pose proof (cov_sums_nonneg ps) as Hn.
  destruct (cov_sums ps) as [[sxy sxx] syy]; destruct Hn as [Hx Hy]; rewrite Qeq_bool_mult_0.
  destruct (Qeq_bool sxx 0) eqn:Ex; [reflexivity|]; destruct (Qeq_bool syy 0) eqn:Ey;
    [reflexivity|]; simpl.
  rewrite clip_id by exact (ratio_in_unit _ _ _ Hcs Hx Hy Ex Ey).
  apply Qle_Rle in Hx; rewrite RMicromega.Q2R_0 in Hx; rewrite sqrt_mult_alt by exact Hx.
  reflexivity.
Qed.

(** C21 (equivalence). Every entry of [df_train.corr()] (line 97) is the
    value [Series.corr] gives for the two numeric columns it names. *)
Theorem corr_matrix_entries (df : frame) la row lb e :
  In (la, row) (corr_matrix df) -> In (lb, e) row ->
  exists a b, In (la, a) (numeric_columns df) /\ In (lb, b) (numeric_columns df) /\
              corr a b = Ok e.
Proof.
  unfold corr_matrix; intros Hr He.
  apply in_map_iff in Hr as ([la' a] & E & Ha); inv E.
  apply in_map_iff in He as ([lb' b] & E & Hb); inv E.
  exists a, b; repeat split; auto.
  pose proof Ha as Ha'; pose proof Hb as Hb'.
  apply filter_In in Ha' as [_ Na]; apply filter_In in Hb' as [_ Nb].
  destruct (pairs_numeric a b Na Nb) as [ps Hps].
  unfold corr; cbn [snd]; rewrite Hps, pearson_nc_eq; reflexivity.
Qed.

(** ** Concrete runs *)

(** ** The scatter plots show the observations of the correlation *)

Lemma drawn_pairs (x y : list cell) :
  is_numeric x = true -> is_numeric y = true -> pairs x y = Ok (drawn x y).
Proof.
  revert y; induction x as [|a x IH]; intros [|b y] Hx Hy; simpl in *; try reflexivity;
    [destruct a; reflexivity|].
  apply andb_true_iff in Hx as [Ha Hx]; apply andb_true_iff in Hy as [Hb Hy].
  destruct a, b; try discriminate; rewrite ?IH by assumption; reflexivity.
Qed.

Lemma scatter_by_columns (df : frame) f x y :
  f <> sale_price -> getitem df f = Ok x -> getitem df sale_price = Ok y ->
  scatter_by df f = (_ <- require_numeric x "x" ;; _ <- require_numeric y "y" ;; Ok (drawn x y)).
Proof.
  intros Hf Hx Hy; unfold scatter_by, concat_columns; cbn [fold_right].
  rewrite Hy, Hx; cbn; unfold scatter, getitem; cbn.
  apply String.eqb_neq in Hf; rewrite Hf, String.eqb_refl; reflexivity.
Qed.


(** ** The heatmap's shades *)

Lemma fold_left_Rmin_le (vs : list R) v : Forall (fun x => fold_left Rmin vs v <= x)%R (v :: vs).
Proof.
  revert v; induction vs as [|w vs IH]; intros v; simpl; [constructor; [apply Rle_refl|constructor]|].
  specialize (IH (Rmin v w)); inv IH; constructor; [|constructor].
  - eapply Rle_trans; [eassumption|apply Rmin_l].
  - eapply Rle_trans; [eassumption|apply Rmin_r].
  - assumption.
Qed.

(** Above the minimum, a correlation is drawn in the top colour exactly
    when it reaches [vmax = .8]. *)
Lemma heat_level_full (vmin v : R) :
  (vmin < vmax_heat)%R -> (vmin <= v)%R -> heat_level vmin v = 1%R <-> (vmax_heat <= v)%R.
Proof.
  intros Hlt Hle; unfold heat_level; destruct (Req_EM_T vmin vmax_heat) as [E|_]; [lra|].
  set (d := (vmax_heat - vmin)%R); assert (Hd : (0 < d)%R) by (unfold d; lra).
  set (x := ((v - vmin) / d)%R); assert (Hx : (x * d = v - vmin)%R) by (unfold x; field; lra).
  assert (Hx0 : (0 <= x)%R) by (unfold x, Rdiv; apply Rmult_le_pos; [lra|apply Rlt_le, Rinv_0_lt_compat; exact Hd]).
  rewrite Rmax_right by (apply Rmin_glb; lra).
  destruct (Rle_lt_dec 1 x) as [H1|H1].
  - rewrite Rmin_left by exact H1; split; [intros _|reflexivity].
    pose proof (Rmult_le_compat_r d 1 x (Rlt_le _ _ Hd) H1); unfold d in *; lra.
  - rewrite Rmin_right by lra; split; [lra|intros H].
    pose proof (Rmult_lt_compat_r d x 1 Hd H1); unfold d in *; lra.
Qed.

(** C22 (functional). The heatmap of line 99 shades each correlation
    relative to the smallest one and saturates at [vmax = .8]: when the
    smallest correlation is below .8, a cell is drawn in the top colour
    (the white squares the docstring of lines 102-106 reads) exactly when
    its correlation is at least .8. *)
Theorem heatmap_white (m h : list (string * list (string * option R))) :
  heatmap m = Ok h ->
  exists vmin, h = shade vmin m /\ Forall (fun v => vmin <= v)%R (entries m) /\
    (vmin <= vmax_heat)%R /\
    ((vmin < vmax_heat)%R -> forall v, In v (entries m) -> heat_level vmin v = 1%R <-> (vmax_heat <= v)%R).
Proof.
  unfold heatmap; destruct (entries m) as [|v vs] eqn:E.
  - intros [= <-]; exists 0%R; split; [reflexivity|split; [constructor|split; [unfold vmax_heat; lra|intros _ w []]]].
  - destruct (Rlt_dec vmax_heat (fold_left Rmin vs v)) as [|Hn]; [discriminate|intros [= <-]].
    pose proof (fold_left_Rmin_le vs v) as Hmin.
    exists (fold_left Rmin vs v); split; [reflexivity|split; [exact Hmin|split; [lra|]]].
    intros Hlt w Hw; rewrite Forall_forall in Hmin; apply heat_level_full; auto.
Qed.

(** ** Invariance under a change of unit of SalePrice *)

Lemma pairs_rescale (a b : list cell) k c :
  pairs a (rescale k c b) = (ps <- pairs a b ;; Ok (affine_pairs k c ps)).
Proof.
  revert b; induction a as [|x a IH]; intros [|y b]; [reflexivity..|].
  destruct x, y; cbn [rescale map pairs]; fold (rescale k c b); rewrite ?IH;
    try reflexivity; destruct (pairs a b); reflexivity.
Qed.

Lemma qsum_scale {A} (k : Q) (f : A -> Q) (l : list A) :
  qsum (map (fun x => k * f x) l) == k * qsum (map f l).
Proof. induction l as [|x l IH]; simpl; [ring|rewrite IH; ring]. Qed.

Lemma mean_affine (l : list Q) k c :
  l <> [] -> mean_of (map (fun y => k * y + c) l) == k * mean_of l + c.
Proof.
  intros Hl; unfold mean_of, qlen; rewrite length_map.
  pose proof (qlen_pos l Hl) as Hp; unfold qlen in Hp.
  assert (Hs : qsum (map (fun y => k * y + c) l) == k * qsum l + c * inject_Z (Z.of_nat (length l))).
  { clear Hp Hl; induction l as [|x l IH]; [simpl; ring|].
    cbn [map]; rewrite !qsum_cons, IH; cbn [length]; rewrite Nat2Z.inj_succ, <- Z.add_1_r, inject_Z_plus; ring. }
  rewrite Hs; field; intros E; rewrite E in Hp; discriminate.
Qed.

(** The centred sums after the change of unit: Sxy scaled by [k], Sxx
    unchanged, Syy scaled by [k * k]. *)
Lemma cov_sums_affine (ps : list (Q * Q)) k c :
  ps <> [] ->
  let '(sxy, sxx, syy) := cov_sums ps in
  let '(sxy', sxx', syy') := cov_sums (affine_pairs k c ps) in
  sxy' == k * sxy /\ sxx' == sxx /\ syy' == k * k * syy.
Proof.
  intros Hps; unfold cov_sums, affine_pairs, dev2.
  assert (Hf : map fst (map (fun p => (fst p, k * snd p + c)) ps) = map fst ps)
    by (rewrite map_map; reflexivity).
  assert (Hsn : map snd (map (fun p => (fst p, k * snd p + c)) ps) =
                map (fun y => k * y + c) (map snd ps)) by (rewrite !map_map; reflexivity).
  rewrite Hf, Hsn.
  assert (Hm : mean_of (map (fun y => k * y + c) (map snd ps)) == k * mean_of (map snd ps) + c)
    by (apply mean_affine; destruct ps; [congruence|discriminate]).
  set (mx := mean_of (map fst ps)) in *; set (my := mean_of (map snd ps)) in *.
  set (my' := mean_of (map (fun y => k * y + c) (map snd ps))) in *.
  split; [|split; [reflexivity|]].
  - rewrite <- qsum_scale, map_map; apply qsum_map_ext; intros p _; simpl; rewrite Hm; ring.
  - rewrite <- qsum_scale, !map_map; apply qsum_map_ext; intros y _; rewrite Hm; ring.
Qed.

Lemma Qeq_bool_zero_compat (a b : Q) : a == b -> Qeq_bool a 0 = Qeq_bool b 0.
Proof. intros E; apply eq_true_iff_eq; rewrite !Qeq_bool_iff, E; reflexivity. Qed.

Lemma Qeq_bool_scale (k s : Q) : ~ k == 0 -> Qeq_bool (k * k * s) 0 = Qeq_bool s 0.
Proof.
  intros Hk; apply eq_true_iff_eq; rewrite !Qeq_bool_iff; split; intros E; [|rewrite E; ring].
  apply Qmult_integral in E as [E|E]; [apply Qmult_integral in E as [E|E]; contradiction|exact E].
Qed.

Lemma pearson_affine (ps : list (Q * Q)) k c : 0 < k -> pearson (affine_pairs k c ps) = pearson ps.
Proof.
  intros Hk; destruct ps as [|p ps']; [reflexivity|].
  pose proof (cov_sums_affine (p :: ps') k c ltac:(discriminate)) as Ha.
  pose proof (cov_sums_nonneg (p :: ps')) as Hn.
  unfold pearson; destruct (cov_sums (p :: ps')) as [[sxy sxx] syy].
  destruct (cov_sums (affine_pairs k c (p :: ps'))) as [[sxy' sxx'] syy'].
  destruct Ha as (Hxy & Hxx & Hyy); destruct Hn as [Hx Hy].
  assert (Hk0 : ~ k == 0) by (intros E; rewrite E in Hk; discriminate).
  rewrite (Qeq_bool_zero_compat _ _ Hxx), (Qeq_bool_zero_compat _ _ Hyy), Qeq_bool_scale by exact Hk0.
  destruct (Qeq_bool sxx 0) eqn:Ex; [reflexivity|]; destruct (Qeq_bool syy 0) eqn:Ey; [reflexivity|].
  simpl; f_equal.
  rewrite (Qeq_eqR _ _ Hxy), (Qeq_eqR _ _ Hxx), (Qeq_eqR _ _ Hyy), !Q2R_mult.
  apply Qlt_Rlt in Hk; rewrite RMicromega.Q2R_0 in Hk.
  apply RMicromega.Qeq_false in Ey; rewrite RMicromega.Q2R_0 in Ey.
  apply RMicromega.Qeq_false in Ex; rewrite RMicromega.Q2R_0 in Ex.
  apply Qle_Rle in Hx, Hy; rewrite RMicromega.Q2R_0 in Hx, Hy.
  rewrite sqrt_mult_alt by (apply Rmult_le_pos; lra).
  rewrite sqrt_square by lra.
  assert (0 < sqrt (Q2R sxx))%R by (apply sqrt_lt_R0; lra).
  assert (0 < sqrt (Q2R syy))%R by (apply sqrt_lt_R0; lra).
  do 2 f_equal; field; repeat split; lra.
Qed.

(** C24 (equivalence). [Series.corr] of lines 57-58 does not change when
    SalePrice is expressed in another unit, [k * price + c] with [k > 0]
    (a uniform deflator): the question of constant prices raised at lines
    77-80 only matters for a deflator that varies from house to house. *)
Theorem corr_rescale (a b : list cell) k c : 0 < k -> corr a (rescale k c b) = corr a b.
Proof.
  intros Hk; unfold corr; rewrite pairs_rescale.
  destruct (pairs a b) as [ps|e]; simpl; [rewrite pearson_affine by exact Hk|]; reflexivity.
Qed.

Section Runs.
Local Open Scope string_scope.

(** The specification says the correlation matrix has a
    unit diagonal; line 97 gives NaN on the diagonal of a constant column,
    and leaves out the string column Street. *)
Example corr_matrix_constant_diagonal :
  map fst (numeric_columns corr_frame) = ["GrLivArea"; "SalePrice"] /\
  option_map (fun row => (fst row, hd_error (snd row))) (hd_error (corr_matrix constant_frame))
    = Some ("PoolArea", Some ("PoolArea", None)).
Proof. split; vm_compute; reflexivity. Qed.

Lemma corr_bounds_witness :
  exists r, corr grliv saleprice = Ok (Some r) /\
    (-1 <= r <= 1)%R /\
    exists ps, pairs grliv saleprice = Ok ps /\
      let '(sxy, sxx, syy) := cov_sums ps in
      r = (Q2R sxy / (sqrt (Q2R sxx) * sqrt (Q2R syy)))%R.
Proof.
  assert (H : exists r, corr grliv saleprice = Ok (Some r)).
  { unfold corr; destruct (pairs grliv saleprice) as [ps|e] eqn:E;
      [|vm_compute in E; discriminate].
    simpl; unfold pearson; destruct (cov_sums ps) as [[sxy sxx] syy] eqn:C.
    destruct (Qeq_bool sxx 0 || Qeq_bool syy 0) eqn:B; [|eexists; reflexivity].
    vm_compute in E; inversion E; subst; vm_compute in C; inversion C; subst.
    vm_compute in B; discriminate. }
  destruct H as [r Hr]; exists r; split; [exact Hr | exact (corr_bounds _ _ _ Hr)].
Defined.

Lemma corr_self_witness :
  corr saleprice saleprice =
  Ok (if Qeq_bool (dev2 (mean_of [208500; 181500; 223500; 140000; 250000])
                        [208500; 181500; 223500; 140000; 250000]) 0
      then None else Some 1%R).
Proof. apply corr_self; vm_compute; reflexivity. Defined.

Lemma corr_matrix_entries_witness :
  exists a b, In ("GrLivArea", a) (numeric_columns corr_frame) /\
    In ("SalePrice", b) (numeric_columns corr_frame) /\
    corr a b = Ok (match pairs grliv saleprice with Ok ps => pearson_nc ps | Err _ => None end).
Proof.
  eapply (corr_matrix_entries corr_frame "GrLivArea" _ "SalePrice").
  - simpl; left; reflexivity.
  - simpl; right; left; reflexivity.
Defined.
(** A two-column correlation matrix: 1 on the diagonal, .5 off it. *)
Definition half_matrix : list (string * list (string * option R)) :=
  [("GrLivArea"%string, [("GrLivArea"%string, Some 1%R); ("SalePrice"%string, Some (1/2)%R)]);
   ("SalePrice"%string, [("GrLivArea"%string, Some (1/2)%R); ("SalePrice"%string, Some 1%R)])].

Lemma heatmap_white_witness :
  exists h, heatmap half_matrix = Ok h /\
  exists vmin, h = shade vmin half_matrix /\ Forall (fun v => vmin <= v)%R (entries half_matrix) /\
    (vmin <= vmax_heat)%R /\
    ((vmin < vmax_heat)%R -> forall v, In v (entries half_matrix) ->
       heat_level vmin v = 1%R <-> (vmax_heat <= v)%R).
Proof.
  destruct (heatmap half_matrix) as [h|e] eqn:E.
  - exists h; split; [reflexivity|exact (heatmap_white _ _ E)].
  - exfalso; unfold heatmap in E; simpl in E.
    destruct (Rlt_dec _ _) as [Hl|]; [|discriminate].
    pose proof (Rmin_r 1 (1/2)); pose proof (Rmin_r (Rmin 1 (1/2)) (1/2)).
    pose proof (Rmin_l (Rmin (Rmin 1 (1/2)) (1/2)) 1); unfold vmax_heat in Hl; lra.
Defined.
Lemma corr_rescale_witness :
  0 < 1 # 1000 /\ corr grliv (rescale (1 # 1000) 0 saleprice) = corr grliv saleprice.
Proof. split; [reflexivity|apply corr_rescale; reflexivity]. Defined.
End Runs.

End Corr.
