(* ===== verification/Script.v ===== *)
(** * The notebook: the cleaning cells over a shared session

    [src/house_prices_eda.py] is run cell by cell, the analyst uncommenting
    and re-running statements; the variables [df_train] and
    [missing_data] live in the session between cells.  This file models
    the cells that change that state, in the script's order:
    - [Load]: line 12, [df_train = pd.read_csv(...)];
    - [Audit]: lines 131-133, [missing_data = pd.concat(...)];
    - [PrintHead]: line 134, [print(missing_data.head(20))];
    - [DropSparse]: line 164, [df_train = df_train.drop(...)];
    - [DropElectrical]: line 165;
    - [PrintMax]: line 166.
    A cell reading a variable not yet assigned raises NameError; Python
    evaluates [df_train.drop] before its argument, so line 164 names
    [df_train] first.

    The cells are written against an interface, the class [FrameApi] of
    the frame operations they call with the laws [FrameApiLaws] they rely
    on; [frame_api] and [frame_api_laws] discharge it with the models of
    [Frame], [ReadCsv] and [MissingData].  [step] is one cell run on the
    session and [reach] any sequence of cells, in any order and with any
    repetition, as a notebook allows.  The laws give, for any
    implementation, that the cells keep the frame well formed
    ([reach_wf_api]) and that re-running line 164 raises KeyError
    ([rerun_drop_sparse_api]); [notebook_wf] and [rerun_drop_sparse]
    state both of the frame model, whose operations discharge the laws. *)

From S2P Require Import Prelude Cell Frame ReadCsv MissingData.

Module Script.
Import Frame ReadCsv MissingData.

(** ** The interface between the cells and the frame *)

Class FrameApi (F : Type) := {
  api_wf : F -> Prop;
  api_labels : F -> list string;
  api_read_csv : string -> result F;
  api_audit : F -> list md_row;
  api_drop_columns : F -> list string -> result F;
  api_drop_null_rows : F -> string -> result F;
  api_max_missing : F -> option nat
}.

Class FrameApiLaws (F : Type) `{FrameApi F} := {
  api_read_csv_wf : forall t df, api_read_csv t = Ok df -> api_wf df;
  api_drop_columns_wf :
    forall df ls df', api_wf df -> api_drop_columns df ls = Ok df' -> api_wf df';
  api_drop_null_rows_wf :
    forall df c df', api_wf df -> api_drop_null_rows df c = Ok df' -> api_wf df';
  api_drop_columns_gone :
    forall df ls df', api_drop_columns df ls = Ok df' -> forall l, In l ls -> ~ In l (api_labels df');
  api_drop_columns_absent :
    forall df ls l, In l ls -> ~ In l (api_labels df) ->
    exists ks, api_drop_columns df ls = Err (KeyError ks) /\ In l ks
}.

(** ** Cells and sessions *)

Inductive stmt :=
| Load (text : string)   (** line 12 *)
| Audit                  (** lines 131-133 *)
| PrintHead              (** line 134 *)
| DropSparse             (** line 164 *)
| DropElectrical         (** line 165 *)
| PrintMax.              (** line 166 *)

Inductive output :=
| OHead (rows : list md_row)
| OMax (m : option nat).

Section Notebook.
Context {F : Type} `{FrameApi F}.

Record session := mkSession {
  s_df : option F;                  (** [df_train] *)
  s_md : option (list md_row);      (** [missing_data] *)
  s_out : list output               (** what the cells printed *)
}.

Definition empty_session : session := mkSession None None [].

Definition df_train (s : session) : result F :=
  match s_df s with Some d => Ok d | None => Err (NameError "df_train"%string) end.

Definition missing_data (s : session) : result (list md_row) :=
  match s_md s with Some m => Ok m | None => Err (NameError "missing_data"%string) end.

Definition set_df (s : session) (d : F) : session := mkSession (Some d) (s_md s) (s_out s).

Definition print (s : session) (o : output) : session :=
  mkSession (s_df s) (s_md s) (s_out s ++ [o]).

Definition exec (c : stmt) (s : session) : result session :=
  match c with
  | Load t => d <- api_read_csv t ;; Ok (set_df s d)
  | Audit => d <- df_train s ;; Ok (mkSession (s_df s) (Some (api_audit d)) (s_out s))
  | PrintHead => m <- missing_data s ;; Ok (print s (OHead (head_md m)))
  | DropSparse =>
      d <- df_train s ;; m <- missing_data s ;;
      d' <- api_drop_columns d (sparse_labels m) ;; Ok (set_df s d')
  | DropElectrical => d <- df_train s ;; d' <- api_drop_null_rows d electrical ;; Ok (set_df s d')
  | PrintMax => d <- df_train s ;; Ok (print s (OMax (api_max_missing d)))
  end.

(** Cells run one after the other; the first exception stops the run. *)
Fixpoint run (cs : list stmt) (s : session) : result session :=
  match cs with
  | [] => Ok s
  | c :: cs' => s' <- exec c s ;; run cs' s'
  end.

Inductive step : session -> session -> Prop :=
| step_exec c s s' : exec c s = Ok s' -> step s s'.

Inductive reach : session -> session -> Prop :=
| reach_refl s : reach s s
| reach_step s s' s'' : step s s' -> reach s' s'' -> reach s s''.

Definition session_wf (s : session) : Prop := forall d, s_df s = Some d -> api_wf d.

End Notebook.

Arguments session F : clear implicits.

(** The cells of the script, in its order. *)
Definition script (text : string) : list stmt :=
  [Load text; Audit; PrintHead; DropSparse; DropElectrical; PrintMax].

(** ** The frame model implements the interface *)

Definition drop_null_rows (df : frame) (c : string) : result frame :=
  e <- getitem df c ;; drop_rows df (loc_index df (map isnull e)).

#[export] Instance frame_api : FrameApi frame := {
  api_wf := wf;
  api_labels := col_labels;
  api_read_csv := read_csv;
  api_audit := audit;
  api_drop_columns := drop_columns;
  api_drop_null_rows := drop_null_rows;
  api_max_missing := max_missing
}.

(** ** What the cells guarantee, from the interface alone *)

Section NotebookLaws.
Context {F : Type} `{FrameApiLaws F}.

Lemma df_train_Ok (s : session F) d : df_train s = Ok d -> s_df s = Some d.
Proof. unfold df_train; destruct (s_df s); congruence. Qed.

Lemma missing_data_Ok (s : session F) m : missing_data s = Ok m -> s_md s = Some m.
Proof. unfold missing_data; destruct (s_md s); congruence. Qed.

Lemma set_df_wf (s : session F) d : api_wf d -> session_wf (set_df s d).
Proof. intros Hd d' [= <-]; exact Hd. Qed.

(** Every cell keeps the frame of the session well formed. *)
Lemma exec_wf (c : stmt) (s s' : session F) :
  session_wf s -> exec c s = Ok s' -> session_wf s'.
Proof.
  intros Hs; destruct c; cbn [exec]; intros E; repeat (bind_inv E); inv E;
    repeat match goal with
    | Hd : df_train _ = Ok _ |- _ => apply df_train_Ok in Hd
    end;
    try (apply set_df_wf); eauto using api_read_csv_wf, api_drop_columns_wf, api_drop_null_rows_wf.
Qed.

(** From the laws: whatever cells run, the frame stays well formed. *)
Lemma reach_wf_api (s s' : session F) : reach s s' -> session_wf s -> session_wf s'.
Proof.
  induction 1 as [s|s s1 s2 Hstep _ IH]; [auto|].
  intros Hs; apply IH; inv Hstep; eapply exec_wf; eauto.
Qed.

Lemma run_reach (cs : list stmt) (s s' : session F) : run cs s = Ok s' -> reach s s'.
Proof.
  revert s; induction cs as [|c cs IH]; intros s E; simpl in E; [inv E; constructor|].
  bind_inv E; econstructor; [econstructor; eauto|auto].
Qed.

(** From the laws: re-running line 164 raises KeyError on a label the
    first run dropped. *)
Lemma rerun_drop_sparse_api (s s1 : session F) m l :
  s_md s = Some m -> In l (sparse_labels m) -> exec DropSparse s = Ok s1 ->
  exists ks, exec DropSparse s1 = Err (KeyError ks) /\ In l ks.
Proof.
  intros Hm Hl E; cbn [exec] in E.
  bind_inv E; rename a into d; bind_inv E; rename a into m'; bind_inv E; rename a into d'.
  apply missing_data_Ok in Ha0; rewrite Hm in Ha0; injection Ha0 as <-.
  injection E as <-.
  destruct (api_drop_columns_absent d' (sparse_labels m) l Hl
              (api_drop_columns_gone _ _ _ Ha1 l Hl)) as (ks & Eks & Hks).
  exists ks; split; [|exact Hks].
  unfold exec, df_train, missing_data, set_df; cbn [s_df s_md]; rewrite Hm; simpl.
  rewrite Eks; reflexivity.
Qed.

End NotebookLaws.

(** ** The frame model discharges the laws *)

Lemma drop_columns_absent (df : frame) ls l :
  In l ls -> ~ In l (col_labels df) ->
  exists ks, drop_columns df ls = Err (KeyError ks) /\ In l ks.
Proof.
  intros Hl Hn; unfold drop_columns.
  assert (Hin : In l (filter (fun l => negb (existsb (String.eqb l) (col_labels df))) ls)).
  { apply filter_In; split; [exact Hl|].
    destruct (existsb (String.eqb l) (col_labels df)) eqn:E; [|reflexivity].
    apply existsb_eqb_string_In in E; contradiction. }
  destruct (filter _ ls) as [|k ks]; [destruct Hin|]; eauto.
Qed.

Lemma drop_columns_gone (df : frame) ls df' :
  drop_columns df ls = Ok df' -> forall l, In l ls -> ~ In l (col_labels df').
Proof.
  intros E l Hl; rewrite (drop_columns_labels _ _ _ E); intros (_ & Hf)%filter_In.
  apply negb_true_iff, not_true_iff_false in Hf; apply Hf, existsb_eqb_string_In, Hl.
Qed.

Lemma drop_null_rows_wf (df : frame) c df' : wf df -> drop_null_rows df c = Ok df' -> wf df'.
Proof. unfold drop_null_rows; intros Hwf E; bind_inv E; eauto using drop_rows_wf. Qed.

#[export] Instance frame_api_laws : FrameApiLaws frame := {
  api_read_csv_wf := read_csv_Ok_wf;
  api_drop_columns_wf := fun df ls df' => drop_columns_wf df df' ls;
  api_drop_null_rows_wf := drop_null_rows_wf;
  api_drop_columns_gone := drop_columns_gone;
  api_drop_columns_absent := drop_columns_absent
}.

(** ** The script's cells on the frame model *)

(** C37 (invariant). On the frame model, whatever cells of lines 12,
    131-134 and 164-166 the analyst runs, in any order and any number of
    times, from a session whose frame is well formed (the empty session
    included), every frame the session later holds is well formed: unique
    row labels, unique column labels, every column as long as the index.
    [pd.read_csv], [drop(labels, 1)] and the row drop of line 165 each
    discharge their law of [frame_api_laws]. *)
Theorem notebook_wf (s s' : session frame) :
  reach s s' -> (forall d, s_df s = Some d -> wf d) -> forall d, s_df s' = Some d -> wf d.
Proof. intros Hr Hs; exact (reach_wf_api s s' Hr Hs). Qed.

(** C38 (error). On the frame model, re-running the cell of line 164
    after it dropped a column raises KeyError naming that column:
    [missing_data] still lists the labels the first run dropped, and
    [DataFrame.drop] raises on a label it does not find. *)
Theorem rerun_drop_sparse (s s1 : session frame) m l :
  s_md s = Some m -> In l (sparse_labels m) -> exec DropSparse s = Ok s1 ->
  exists ks, exec DropSparse s1 = Err (KeyError ks) /\ In l ks.
Proof. intros Hm Hl E; exact (rerun_drop_sparse_api s s1 m l Hm Hl E). Qed.

Definition audited (df : frame) : session frame := mkSession (Some df) (Some (audit df)) [].

(** Four houses of the training file: Alley missing (the category NA)
    three times, Electrical once. *)
Definition train_text : string :=
  file_of ["Id,Alley,Electrical,SalePrice"; "1,NA,SBrkr,208500"; "2,NA,,181500";
           "3,Pave,FuseA,223500"; "4,NA,SBrkr,140000"]%string.

(** On four houses of the training file, the script's
    cells drop Alley (its category NA read as missing three times) and the
    house whose Electrical is empty, and line 166 prints 0. *)
Example script_train_text :
  match run (script train_text) empty_session with
  | Ok s => option_map (fun d => (col_labels d, index d)) (s_df s) =
              Some (["Id"; "Electrical"; "SalePrice"]%string, [0; 2; 3]) /\
            last (s_out s) (OMax None) = OMax (Some 0)
  | Err _ => False
  end.
Proof. vm_compute; auto. Qed.

Lemma notebook_wf_witness :
  exists s', run (script train_text) empty_session = Ok s' /\
  reach empty_session s' /\ (forall d, s_df (empty_session (F:=frame)) = Some d -> wf d) /\
  forall d, s_df s' = Some d -> wf d.
Proof.
  destruct (run (script train_text) empty_session) as [s'|e] eqn:E; [|vm_compute in E; discriminate].
  assert (Hr : reach empty_session s') by (apply (run_reach _ _ _ E)).
  assert (H0 : forall d, s_df (empty_session (F:=frame)) = Some d -> wf d) by (intros d Hd; discriminate Hd).
  exists s'; split; [reflexivity|split; [exact Hr|split; [exact H0|exact (notebook_wf _ _ Hr H0)]]].
Defined.

Lemma rerun_drop_sparse_witness :
  exists s1 ks, exec DropSparse (audited train_sample) = Ok s1 /\
  exec DropSparse s1 = Err (KeyError ks) /\ In "PoolQC"%string ks.
Proof.
  destruct (exec DropSparse (audited train_sample)) as [s1|e] eqn:E; [|vm_compute in E; discriminate].
  destruct (rerun_drop_sparse (audited train_sample) s1 (audit train_sample) "PoolQC"%string
              eq_refl ltac:(vm_compute; auto) E) as (ks & Eks & Hks).
  exists s1, ks; auto.
Defined.

End Script.
