(* ===== verification/Warnings.v ===== *)
(** * Python's warnings machinery: line 9 and the warnings of the plot calls

    [warnings.filterwarnings('ignore')] (line 9) puts a filter matching
    every warning at the front of [warnings.filters]; every
    [warnings.warn] afterwards finds it first and shows nothing.  This file
    models CPython's [_warnings] module as the script exercises it:
    - [category]: the warning classes and their hierarchy ([subclass]);
    - [filt]: one entry of [warnings.filters] (action, category, module,
      line number; no filter of the program carries a message pattern);
    - [wstate]: the filters, the [__warningregistry__] of [__main__] (the
      warnings already met on a line), [onceregistry], and the warnings
      written to stderr;
    - [filterwarnings]: [warnings.filterwarnings(action, category=...)]
      with [append=False]: the filter moves to the front and the registry
      is invalidated (the filters' version changes);
    - [warn_explicit]: the registry short cut, the first matching filter
      or the default action, then, per action, what is recorded and
      whether the message is shown.
    The "error" action (raise the warning) is not modelled: no filter of
    the program or of Python's defaults has it. *)

From S2P Require Import Prelude.

Module Warnings.

(** ** Categories, actions, filters *)

Inductive category :=
| Warning | UserWarning | DeprecationWarning | PendingDeprecationWarning
| FutureWarning | ImportWarning | ResourceWarning | RuntimeWarning.

Scheme Equality for category.

(** [issubclass(c, p)]: every built-in category derives directly from
    [Warning]. *)
Definition subclass (c p : category) : bool :=
  match p with
  | Warning => true
  | _ => category_beq c p
  end.

(** The actions a filter names: 'ignore', 'default', 'always', 'once',
    'module'. *)
Inductive action := Ignore | Default | Always | Once | ModuleA.

Record filt := mkFilt {
  f_action : action;
  f_category : category;
  f_module : option string;   (** [None] matches every module *)
  f_lineno : nat              (** [0] matches every line *)
}.

(** The filters CPython installs at start-up (a release build). *)
Definition default_filters : list filt :=
  [mkFilt Default DeprecationWarning (Some "__main__"%string) 0;
   mkFilt Ignore DeprecationWarning None 0;
   mkFilt Ignore PendingDeprecationWarning None 0;
   mkFilt Ignore ImportWarning None 0;
   mkFilt Ignore ResourceWarning None 0].

Definition action_eqb (a b : action) : bool :=
  match a, b with
  | Ignore, Ignore | Default, Default | Always, Always | Once, Once
  | ModuleA, ModuleA => true
  | _, _ => false
  end.

Definition filt_eqb (f g : filt) : bool :=
  action_eqb (f_action f) (f_action g) && category_beq (f_category f) (f_category g) &&
  match f_module f, f_module g with
  | None, None => true
  | Some m, Some m' => String.eqb m m'
  | _, _ => false
  end && Nat.eqb (f_lineno f) (f_lineno g).

(** ** The state of the module *)

(** A registry key: the text, the category and the line warned from. *)
Definition wkey : Type := (string * category * nat)%type.

Definition wkey_eqb (k k' : wkey) : bool :=
  let '(t, c, l) := k in let '(t', c', l') := k' in
  String.eqb t t' && category_beq c c' && Nat.eqb l l'.

Definition once_eqb (k k' : string * category) : bool :=
  String.eqb (fst k) (fst k') && category_beq (snd k) (snd k').

Record wstate := mkWstate {
  filters : list filt;
  registry : list wkey;                  (** [__main__.__warningregistry__] *)
  onceregistry : list (string * category);
  stderr : list (category * string * nat)  (** the warnings shown *)
}.

Definition init_wstate : wstate := mkWstate default_filters [] [] [].

(** ** [warnings.filterwarnings] *)

(** [filters.remove(item)]: the first equal entry, if any. *)
Fixpoint remove_first (f : filt) (fs : list filt) : list filt :=
  match fs with
  | [] => []
  | g :: gs => if filt_eqb f g then gs else g :: remove_first f gs
  end.

(** [filterwarnings(action, category=cat)]: [_add_filter] with
    [append=False] moves the entry to the front; [_filters_mutated]
    changes the version, which empties the registry. *)
Definition filterwarnings (a : action) (cat : category) (st : wstate) : wstate :=
  let f := mkFilt a cat None 0 in
  mkWstate (f :: remove_first f (filters st)) [] (onceregistry st) (stderr st).

(** Line 9. *)
Definition filterwarnings_ignore (st : wstate) : wstate := filterwarnings Ignore Warning st.

(** ** [warnings.warn] *)

Definition matches (cat : category) (module : string) (lineno : nat) (f : filt) : bool :=
  subclass cat (f_category f) &&
  match f_module f with None => true | Some m => String.eqb m module end &&
  (Nat.eqb (f_lineno f) 0 || Nat.eqb (f_lineno f) lineno).

(** The first matching filter's action, or [defaultaction = 'default']. *)
Definition find_action (fs : list filt) (cat : category) (module : string) (lineno : nat) : action :=
  match find (matches cat module lineno) fs with
  | Some f => f_action f
  | None => Default
  end.

Definition record (k : wkey) (st : wstate) : wstate :=
  mkWstate (filters st) (k :: registry st) (onceregistry st) (stderr st).

Definition showwarning (text : string) (cat : category) (lineno : nat) (st : wstate) : wstate :=
  mkWstate (filters st) (registry st) (onceregistry st) (stderr st ++ [(cat, text, lineno)]).

(** [warn_explicit(text, cat, filename, lineno, module, registry)] as
    CPython's [_warnings] runs it: a key already in the registry returns at
    once; every action but 'always' records the key; 'once' and 'module'
    then look up their coarser key. *)
Definition warn_explicit (text : string) (cat : category) (module : string) (lineno : nat)
    (st : wstate) : wstate :=
  let key := (text, cat, lineno) in
  if existsb (wkey_eqb key) (registry st) then st
  else
    match find_action (filters st) cat module lineno with
    | Always => showwarning text cat lineno st
    | Ignore => record key st
    | Default => showwarning text cat lineno (record key st)
    | Once =>
        let st := record key st in
        if existsb (once_eqb (text, cat)) (onceregistry st) then st
        else showwarning text cat lineno
               (mkWstate (filters st) (registry st) ((text, cat) :: onceregistry st) (stderr st))
    | ModuleA =>
        let st := record key st in
        if existsb (wkey_eqb (text, cat, 0)) (registry st) then st
        else showwarning text cat lineno (record (text, cat, 0) st)
    end.

(** ** Lemmas *)

Lemma warn_explicit_filters text cat module lineno st :
  filters (warn_explicit text cat module lineno st) = filters st.
Proof.
  unfold warn_explicit; destruct (existsb _ _); [reflexivity|].
  destruct (find_action _ _ _ _); cbv zeta;
    repeat match goal with |- context [if ?b then _ else _] => destruct b end; reflexivity.
Qed.

(** The filter line 9 installs. *)
Definition ignore_all : filt := mkFilt Ignore Warning None 0.

(** Every warning meets [ignore_all] first. *)
Definition silenced (st : wstate) : Prop := hd_error (filters st) = Some ignore_all.

Lemma find_action_silenced st cat module lineno :
  silenced st -> find_action (filters st) cat module lineno = Ignore.
Proof.
  unfold silenced, find_action; destruct (filters st) as [|f fs]; [discriminate|].
  intros [= ->]; reflexivity.
Qed.

Lemma warn_explicit_silenced text cat module lineno st :
  silenced st ->
  silenced (warn_explicit text cat module lineno st) /\
  stderr (warn_explicit text cat module lineno st) = stderr st.
Proof.
  intros H; unfold silenced; rewrite warn_explicit_filters; split; [exact H|].
  unfold warn_explicit; destruct (existsb _ _); [reflexivity|].
  rewrite find_action_silenced by exact H; reflexivity.
Qed.

Lemma filterwarnings_ignore_silenced st : silenced (filterwarnings_ignore st).
Proof. reflexivity. Qed.

Lemma filterwarnings_stderr a cat st : stderr (filterwarnings a cat st) = stderr st.
Proof. reflexivity. Qed.

Lemma wkey_eqb_refl k : wkey_eqb k k = true.
Proof.
  destruct k as [[t c] l]; cbn; rewrite String.eqb_refl, Nat.eqb_refl.
  destruct c; reflexivity.
Qed.

(** A key in the registry silences its warning. *)
Lemma warn_explicit_registered text cat module lineno st :
  existsb (wkey_eqb (text, cat, lineno)) (registry st) = true ->
  warn_explicit text cat module lineno st = st.
Proof. unfold warn_explicit; intros ->; reflexivity. Qed.

(** Under the 'default' action a new warning is shown once and its key
    recorded. *)
Lemma warn_explicit_default text cat module lineno st :
  find_action (filters st) cat module lineno = Default ->
  existsb (wkey_eqb (text, cat, lineno)) (registry st) = false ->
  stderr (warn_explicit text cat module lineno st) = stderr st ++ [(cat, text, lineno)] /\
  existsb (wkey_eqb (text, cat, lineno)) (registry (warn_explicit text cat module lineno st)) = true /\
  filters (warn_explicit text cat module lineno st) = filters st.
Proof.
  intros Ha Hr; unfold warn_explicit; rewrite Hr, Ha.
  cbn [record showwarning registry stderr filters existsb]; rewrite wkey_eqb_refl; auto.
Qed.

End Warnings.
