(* ===== verification/Pyplot.v ===== *)
(** * matplotlib's pyplot state: the figures the plot statements draw on

    Every plot of the script goes through pyplot's global state: seaborn's
    [distplot], [boxplot] and [heatmap] draw on [plt.gca()], the current
    axes, creating a figure when none is open; [plt.subplots(figsize=...)]
    (lines 64, 71, 98) and pandas' [DataFrame.plot.scatter] (lines 48, 53)
    open a new figure; [plt.show()] (lines 18, 49, 54, 67, 75, 100)
    displays the open figures and closes them.  This file models that
    state:
    - [artist]: what a plot call adds to an axes (the histogram bars and
      the density line of [distplot], the scatter points, one box per
      level, the heatmap's mesh of shades);
    - [Axes]: the artists in drawing order, the y limits, the rotation of
      the x tick labels; [Figure]: its identity, its number, its size and
      its axes (a figure of the script has at most one);
    - [pstate]: the open figures, the current one first, and the figures
      displayed so far;
    - [figure], [gcf], [gca], [subplots], [on_current], [on_axes] and
      [show] as pyplot defines them: a new figure takes the number one
      above the largest open number; [gca] adds an axes to a figure that
      has none.
    [pwf] is the state's invariant (distinct figure numbers and
    identities), which every operation preserves.
    Rendering itself (colours, labels, ticks, layout, the canvas) is not
    modelled: the displayed figure is the record of what was drawn. *)

From S2P Require Import Prelude Cell BoxPlot.
From Stdlib Require Import ZArith Reals.

Module Pyplot.
Import BoxPlot.

(** ** Artists, axes, figures *)

Inductive artist :=
| Bars (k : nat) (heights : list Q)                   (** [ax.hist(a, k, density=True)] *)
| Line (pts : list (R * R))                           (** the [kdeplot] curve *)
| Points (ps : list (Q * Q))                          (** [ax.scatter] *)
| BoxAt (o : orient) (pos : nat) (b : box)            (** [ax.boxplot(..., vert=(o == "v"), positions=[pos])] *)
| Mesh (m : list (string * list (string * option R))). (** the heatmap's shades *)

Record Axes := mkAxes {
  artists : list artist;
  ylim : option (Q * Q);   (** [None]: autoscaled *)
  xrotation : Z            (** degrees, of the x tick labels *)
}.

Definition empty_axes : Axes := mkAxes [] None 0.

Record Figure := mkFigure {
  fid : nat;               (** the object's identity *)
  num : nat;               (** [fig.number] *)
  figsize : Q * Q;
  fax : option Axes
}.

Record pstate := mkPstate {
  figs : list Figure;      (** the open figures, the current one first *)
  next_fid : nat;
  shown : list Figure      (** the figures displayed, in order *)
}.

Definition init_pstate : pstate := mkPstate [] 0 [].

(** [rcParams['figure.figsize'] = [6.4, 4.8]] *)
Definition default_figsize : Q * Q := (32 # 5, 24 # 5).

(** ** Drawing on an axes *)

(** The artists a plot call adds, after those already drawn. *)
Definition draw (xs : list artist) (a : Axes) : Axes := mkAxes (artists a ++ xs) (ylim a) (xrotation a).

(** [ax.set_ylim(lo, hi)], as [ax.axis(ymin=lo, ymax=hi)] and pandas'
    [ylim=(lo, hi)] call it. *)
Definition set_ylim (lo hi : Q) (a : Axes) : Axes := mkAxes (artists a) (Some (lo, hi)) (xrotation a).

Definition set_xrotation (r : Z) (a : Axes) : Axes := mkAxes (artists a) (ylim a) r.

(** ** pyplot's figure manager *)

(** [max(get_fignums()) + 1 if get_fignums() else 1] *)
Definition next_num (fs : list Figure) : nat := S (fold_right (fun f m => Nat.max (num f) m) 0 fs).

(** [plt.figure(figsize=size)]: a new figure, made current. *)
Definition figure (size : Q * Q) (ps : pstate) : pstate :=
  mkPstate (mkFigure (next_fid ps) (next_num (figs ps)) size None :: figs ps)
           (S (next_fid ps)) (shown ps).

(** [plt.gcf()]: the current figure, a new one when none is open. *)
Definition gcf (ps : pstate) : pstate :=
  match figs ps with
  | [] => figure default_figsize ps
  | _ :: _ => ps
  end.

(** Apply [g] to the axes of a figure, adding the axes if it has none. *)
Definition set_axes (g : Axes -> Axes) (f : Figure) : Figure :=
  mkFigure (fid f) (num f) (figsize f)
    (Some (g (match fax f with Some a => a | None => empty_axes end))).

(** Apply [g] to the current axes. *)
Definition on_current (g : Axes -> Axes) (ps : pstate) : pstate :=
  match figs ps with
  | f :: fs => mkPstate (set_axes g f :: fs) (next_fid ps) (shown ps)
  | [] => ps
  end.

(** [plt.gca()]: the current figure's axes, added when it has none. *)
Definition gca (ps : pstate) : pstate := on_current (fun a => a) (gcf ps).

(** The identity of the current axes, the value [plt.gca()] returns. *)
Definition current (ps : pstate) : option nat := option_map fid (hd_error (figs ps)).

(** [fig, ax = plt.subplots(figsize=size)]: a new figure with one axes. *)
Definition subplots (size : Q * Q) (ps : pstate) : pstate := on_current (fun a => a) (figure size ps).

(** Apply [g] to the axes of the open figure [id] (a method call on an
    [Axes] object the script holds); a closed figure is never displayed
    again, so a call on it changes nothing that is shown. *)
Definition on_axes (id : nat) (g : Axes -> Axes) (ps : pstate) : pstate :=
  mkPstate (map (fun f => if Nat.eqb (fid f) id then set_axes g f else f) (figs ps))
           (next_fid ps) (shown ps).

(** [plt.show()]: the open figures are displayed in the order they were
    opened and closed ([Gcf.destroy_all] once the windows are closed, or
    the inline backend's [close('all')]). *)
Definition show (ps : pstate) : pstate := mkPstate [] (next_fid ps) (shown ps ++ rev (figs ps)).

(** ** Well-formed states *)

(** The open figures have distinct numbers, every number at least 1, and
    distinct identities below [next_fid]: [plt.figure(n)] and the
    variables holding an [Axes] name one figure. *)
Definition pwf (ps : pstate) : Prop :=
  NoDup (map num (figs ps)) /\ NoDup (map fid (figs ps)) /\
  Forall (fun f => 1 <= num f /\ fid f < next_fid ps) (figs ps).

Lemma next_num_gt (fs : list Figure) f : In f fs -> num f < next_num fs.
Proof.
  unfold next_num; induction fs as [|g fs IH]; [intros []|]; intros [->|H]; cbn [fold_right]; [lia|].
  specialize (IH H); lia.
Qed.

Lemma figure_pwf size ps : pwf ps -> pwf (figure size ps).
Proof.
  intros (H1 & H2 & H3); unfold figure, pwf; cbn [figs next_fid map]; split; [|split].
  - constructor; [|exact H1]; intros Hin; apply in_map_iff in Hin as (f & Ef & Hf).
    pose proof (next_num_gt _ _ Hf); cbn in Ef; lia.
  - constructor; [|exact H2]; intros Hin; apply in_map_iff in Hin as (f & Ef & Hf).
    rewrite Forall_forall in H3; specialize (H3 f Hf); cbn in Ef; lia.
  - constructor; [cbn; unfold next_num; lia|].
    eapply Forall_impl; [|exact H3]; intros f; cbn; lia.
Qed.

(** Drawing on an axes changes no number and no identity. *)
Lemma map_keys_set_axes (p : Figure -> bool) g fs :
  map num (map (fun f => if p f then set_axes g f else f) fs) = map num fs /\
  map fid (map (fun f => if p f then set_axes g f else f) fs) = map fid fs /\
  (forall P : Figure -> Prop, (forall f, P f -> P (set_axes g f)) ->
     Forall P fs -> Forall P (map (fun f => if p f then set_axes g f else f) fs)).
Proof.
  rewrite !map_map; split; [|split]; [apply map_ext; intros f; destruct (p f); reflexivity..|].
  intros P HP HF; apply Forall_map; eapply Forall_impl; [|exact HF]; intros f Hf; destruct (p f); auto.
Qed.

Lemma on_axes_pwf id g ps : pwf ps -> pwf (on_axes id g ps).
Proof.
  intros (H1 & H2 & H3); unfold on_axes, pwf; cbn [figs next_fid].
  destruct (map_keys_set_axes (fun f => Nat.eqb (fid f) id) g (figs ps)) as (E1 & E2 & E3).
  rewrite E1, E2; split; [exact H1|split; [exact H2|]].
  apply E3; [intros f Hf; exact Hf|exact H3].
Qed.

Lemma on_current_pwf g ps : pwf ps -> pwf (on_current g ps).
Proof.
  intros H; unfold on_current; destruct (figs ps) as [|f fs] eqn:E; [exact H|].
  destruct H as (H1 & H2 & H3); rewrite E in H1, H2, H3; unfold pwf; cbn [figs next_fid map] in *.
  inversion H3; subst; split; [exact H1|split; [exact H2|constructor; assumption]].
Qed.

Lemma gca_pwf ps : pwf ps -> pwf (gca ps).
Proof.
  intros H; unfold gca, gcf; apply on_current_pwf; destruct (figs ps); [apply figure_pwf|]; exact H.
Qed.

Lemma subplots_pwf size ps : pwf ps -> pwf (subplots size ps).
Proof. intros H; apply on_current_pwf, figure_pwf, H. Qed.

Lemma show_pwf ps : pwf (show ps).
Proof. unfold pwf; cbn; split; [constructor|split; constructor]. Qed.

Lemma init_pstate_pwf : pwf init_pstate.
Proof. unfold pwf; cbn; split; [constructor|split; constructor]. Qed.

End Pyplot.
