(* ===== verification/Plots.v ===== *)
(** * The plotting statements of the script on pyplot and the warnings

    The plots of [src/house_prices_eda.py] are blocks of statements, each
    ending in [plt.show()]; the analyst runs them one by one, after line 9
    has silenced the warnings.  This file runs those statements on the
    state of [Pyplot] and [Warnings], with the frame [df_train] fixed:
    - [pstmt]: one statement, or a statement with the assignment of
      [data] or [corrmat] it uses; [exec_plot] runs it and returns the new
      session with the exception it raised, if any: a plot call that fails
      after [plt.gca()] leaves the figure it opened, and a warning it has
      already shown stays shown;
    - [box_artists]: the boxes of [BoxPlot.boxplot_by] in their
      orientation, one position per level; seaborn builds its plotter
      (the orientation and its TypeError) before [plt.gca()], so a box
      plot that raises opens no figure;
    - [block], [block_stmts], [script_blocks]: the six plot blocks of the
      script (lines 17-18, 47-49, 52-54, 63-67, 70-75, 97-100);
    - [chart]: what a block is meant to show, stated with the models of
      [Distplot], [Corr] and [BoxPlot]: one figure of the block's size
      holding exactly its plot.
    The ValueError of matplotlib's [Normalize] when every correlation
    exceeds [vmax = .8] is raised where [Corr.heatmap] raises it, before
    the mesh is added to the axes; matplotlib raises it while building the
    colour bar, after the mesh (a partial figure that is not modelled).
    Theorems: the open figures keep distinct numbers and identities
    whatever statements run ([preach_pwf]); the blocks run in any order
    display exactly their charts ([run_blocks_refines]); once line 9 has
    run, no statement writes a warning ([filter_silences_warnings]);
    without it, the deprecation warning of
    [distplot] is shown once however often line 17 is run
    ([distplot_warns_once]). *)

From S2P Require Import Prelude Cell Frame Stats BoxPlot Distplot Corr Warnings Pyplot.
From Stdlib Require Import ZArith Reals.

Module Plots.
Import Frame Stats BoxPlot Distplot Corr Warnings Pyplot.

(** ** Statements *)

Inductive pstmt :=
| FilterIgnore                                (** line 9 *)
| DistplotSalePrice                           (** line 17 *)
| ScatterSalePrice (feature : string) (lo hi : Q) (** lines 47-48, 52-53 *)
| Subplots (size : Q * Q)                     (** lines 64, 71, 98 *)
| BoxplotSalePrice (feature : string)         (** lines 63 and 65, 70 and 72 *)
| AxisY (lo hi : Q)                           (** lines 66, 73: [fig.axis(ymin=lo, ymax=hi)] *)
| XticksRotation (r : Z)                      (** line 74 *)
| HeatmapCorr                                 (** lines 97 and 99 *)
| Show.                                       (** lines 18, 49, 54, 67, 75, 100 *)

Record psession := mkPsession {
  pyplot : pstate;
  warns : wstate;
  fig_var : option nat   (** [fig], the axes [sns.boxplot] returned (lines 65, 72) *)
}.

(** The state the imports (lines 1-8) leave: pyplot with no figure open,
    warnings with CPython's start-up filters, no axes held. *)
Definition init_psession : psession := mkPsession init_pstate init_wstate None.

Definition main : string := "__main__".

(** The [UserWarning] seaborn's [distplot] raises, reported at its caller
    (stacklevel 2, line 17). *)
Definition distplot_msg : string :=
  "`distplot` is a deprecated function and will be removed in seaborn v0.14.0.".

(** The [UserWarning] of [kdeplot] on singular data (stacklevel 4: line 17). *)
Definition singular_msg : string :=
  "Dataset has 0 variance; skipping density estimate. Pass `warn_singular=False` to disable this warning.".

Definition set_pyplot (p : pstate) (s : psession) : psession := mkPsession p (warns s) (fig_var s).

(** The boxes of [BoxPlot.boxplot_by] in their orientation, at their
    positions; a level without a box keeps its position. *)
Fixpoint box_artists (o : orient) (i : nat) (bs : list (cell * option box)) : list artist :=
  match bs with
  | [] => []
  | (_, Some b) :: r => BoxAt o i b :: box_artists o (S i) r
  | (_, None) :: r => box_artists o (S i) r
  end.

(** One statement on the session, and the exception it raises. *)
Definition exec_plot (df : frame) (c : pstmt) (s : psession) : psession * option pyerror :=
  match c with
  | FilterIgnore => (mkPsession (pyplot s) (filterwarnings_ignore (warns s)) (fig_var s), None)
  | DistplotSalePrice =>
      match getitem df BoxPlot.saleprice with
      | Err e => (s, Some e)
      | Ok col =>
          let w := warn_explicit distplot_msg UserWarning main 17 (warns s) in
          let p := gca (pyplot s) in
          match distplot col with
          | Err e => (mkPsession p w (fig_var s), Some e)
          | Ok (k, hs, Some pts) =>
              (mkPsession (on_current (draw [Bars k hs; Line pts]) p) w (fig_var s), None)
          | Ok (k, hs, None) =>
              (mkPsession (on_current (draw [Bars k hs]) p)
                 (warn_explicit singular_msg UserWarning main 17 w) (fig_var s), None)
          end
      end
  | ScatterSalePrice f lo hi =>
      match scatter_by df f with
      | Err e => (s, Some e)
      | Ok ps =>
          (set_pyplot (on_current (fun a => set_ylim lo hi (draw [Points ps] a))
                         (subplots default_figsize (pyplot s))) s, None)
      end
  | Subplots size => (set_pyplot (subplots size (pyplot s)) s, None)
  | BoxplotSalePrice f =>
      match boxplot_by df f with
      | Err e => (s, Some e)
      | Ok (o, bs) =>
          let p := gca (pyplot s) in
          (mkPsession (on_current (draw (box_artists o 0 bs)) p) (warns s) (current p), None)
      end
  | AxisY lo hi =>
      match fig_var s with
      | None => (s, Some (NameError "fig"))
      | Some id => (set_pyplot (on_axes id (set_ylim lo hi) (pyplot s)) s, None)
      end
  | XticksRotation r => (set_pyplot (on_current (set_xrotation r) (gca (pyplot s))) s, None)
  | HeatmapCorr =>
      let p := gca (pyplot s) in
      match heatmap (corr_matrix df) with
      | Err e => (set_pyplot p s, Some e)
      | Ok m => (set_pyplot (on_current (draw [Mesh m]) p) s, None)
      end
  | Show => (set_pyplot (show (pyplot s)) s, None)
  end.

(** Statements run in order; an exception stops the run. *)
Fixpoint run_stmts (df : frame) (cs : list pstmt) (s : psession) : psession * option pyerror :=
  match cs with
  | [] => (s, None)
  | c :: cs' =>
      let '(s', e) := exec_plot df c s in
      match e with
      | None => run_stmts df cs' s'
      | Some _ => (s', e)
      end
  end.

(** ** The plot blocks of the script *)

Inductive block :=
| BDist                                              (** lines 17-18 *)
| BScatter (feature : string)                        (** lines 47-49, 52-54 *)
| BBox (feature : string) (size : Q * Q) (rot : option Z) (** lines 63-67, 70-75 *)
| BHeat.                                             (** lines 97-100 *)

Definition block_stmts (b : block) : list pstmt :=
  match b with
  | BDist => [DistplotSalePrice; Show]
  | BScatter f => [ScatterSalePrice f 0 800000; Show]
  | BBox f size rot =>
      [Subplots size; BoxplotSalePrice f; AxisY 0 800000] ++
      match rot with Some r => [XticksRotation r] | None => [] end ++ [Show]
  | BHeat => [Subplots (12%Q, 9%Q); HeatmapCorr; Show]
  end.

(** Lines 17-18: [sns.distplot(df_train['SalePrice'])], [plt.show()]. *)
Definition distplot_block : block := BDist.

(** Lines 47-49: the concatenation, [data.plot.scatter(x='GrLivArea',
    y='SalePrice', ylim=(0,800000))], [plt.show()]. *)
Definition scatter_grlivarea_block : block := BScatter "GrLivArea".

(** Lines 52-54, with TotalBsmtSF. *)
Definition scatter_totalbsmtsf_block : block := BScatter "TotalBsmtSF".

(** Lines 63-67: the concatenation, [plt.subplots(figsize=(8, 6))], the
    box plot by OverallQual, [fig.axis(ymin=0, ymax=800000)], [plt.show()]. *)
Definition boxplot_overallqual_block : block := BBox overallqual (8%Q, 6%Q) None.

(** Lines 70-75: the same by YearBuilt on a (16, 8) figure, with
    [plt.xticks(rotation=90)]. *)
Definition boxplot_yearbuilt_block : block := BBox yearbuilt (16%Q, 8%Q) (Some 90%Z).

(** Lines 97-100: [corrmat = df_train.corr()], [plt.subplots(figsize=(12,
    9))], [sns.heatmap(corrmat, vmax=.8, square=True)], [plt.show()]. *)
Definition heatmap_block : block := BHeat.

Definition script_blocks : list block :=
  [distplot_block; scatter_grlivarea_block; scatter_totalbsmtsf_block;
   boxplot_overallqual_block; boxplot_yearbuilt_block; heatmap_block].

Definition run_blocks (df : frame) (bs : list block) (s : psession) : psession * option pyerror :=
  run_stmts df (flat_map block_stmts bs) s.

(** ** What a block shows *)

(** The size and the axes of the one figure a block shows. *)
Definition chart (df : frame) (b : block) : result (Q * Q * Axes) :=
  match b with
  | BDist =>
      col <- getitem df BoxPlot.saleprice ;; r <- distplot col ;;
      let '(k, hs, kde) := r in
      Ok (default_figsize,
          mkAxes (Bars k hs :: match kde with Some pts => [Line pts] | None => [] end) None 0)
  | BScatter f => ps <- scatter_by df f ;; Ok (default_figsize, mkAxes [Points ps] (Some (0%Q, 800000%Q)) 0)
  | BBox f size rot =>
      r <- boxplot_by df f ;;
      Ok (size, mkAxes (box_artists (fst r) 0 (snd r)) (Some (0%Q, 800000%Q)) (match rot with Some r => r | None => 0%Z end))
  | BHeat => m <- heatmap (corr_matrix df) ;; Ok ((12%Q, 9%Q), mkAxes [Mesh m] None 0)
  end.

Fixpoint charts (df : frame) (bs : list block) : result (list (Q * Q * Axes)) :=
  match bs with
  | [] => Ok []
  | b :: r => c <- chart df b ;; cs <- charts df r ;; Ok (c :: cs)
  end.

(** What the display records of a figure: its number, size and axes. *)
Definition looks (f : Figure) : nat * (Q * Q) * option Axes := (num f, figsize f, fax f).

(** ** Sample frames *)

(** The first three houses of train.csv, with the columns the plots use. *)
Definition plot_frame : frame :=
  mkFrame [0; 1; 2]
    [("SalePrice"%string, [Num 208500; Num 181500; Num 223500]);
     ("GrLivArea"%string, [Num 1710; Num 1262; Num 1786]);
     ("TotalBsmtSF"%string, [Num 856; Num 1262; Num 920]);
     ("OverallQual"%string, [Num 7; Num 6; Num 7]);
     ("YearBuilt"%string, [Num 2003; Num 1976; Num 2001])].

(** One house. *)
Definition one_house : frame :=
  mkFrame [0] [("SalePrice"%string, [Num 208500]); ("OverallQual"%string, [Num 7])].

(** A SalePrice typed as text on a house whose OverallQual is missing. *)
Definition text_price : frame :=
  mkFrame [0; 1]
    [("SalePrice"%string, [Num 208500; Str "unknown"]); ("OverallQual"%string, [Num 7; NaN])].

(** Any sequence of statements, as the analyst runs them: a statement
    that raises leaves the session it reached. *)
Inductive pstep (df : frame) : psession -> psession -> Prop :=
| pstep_exec c s : pstep df s (fst (exec_plot df c s)).

Inductive preach (df : frame) : psession -> psession -> Prop :=
| preach_refl s : preach df s s
| preach_step s s' s'' : pstep df s s' -> preach df s' s'' -> preach df s s''.

(** ** Running statements *)

Lemma run_stmts_app df l1 l2 s :
  run_stmts df (l1 ++ l2) s =
  let '(s', e) := run_stmts df l1 s in
  match e with None => run_stmts df l2 s' | Some _ => (s', e) end.
Proof.
  revert s; induction l1 as [|c l1 IH]; intros s; simpl; [reflexivity|].
  destruct (exec_plot df c s) as [s' [e|]]; [reflexivity|apply IH].
Qed.

(** One block, run with no figure open, shows its chart as figure 1 and
    closes it. *)
Lemma run_block df b s sz ax :
  figs (pyplot s) = [] -> chart df b = Ok (sz, ax) ->
  exists s', run_stmts df (block_stmts b) s = (s', None) /\ figs (pyplot s') = [] /\
    map looks (shown (pyplot s')) = map looks (shown (pyplot s)) ++ [(1, sz, Some ax)].
Proof.
  destruct s as [[fs n sh] w fv]; cbn [pyplot figs shown]; intros -> Hc.
  destruct b as [|f|f size rot|]; cbn [chart] in Hc.
  - apply bind_Ok in Hc as (col & Hcol & Hc); apply bind_Ok in Hc as ([[k hs] kde] & Hd & Hc); inv Hc.
    cbn [block_stmts run_stmts exec_plot]; rewrite Hcol, Hd.
    destruct kde; eexists; (split; [reflexivity|split; [reflexivity|]]); cbn; rewrite map_app; reflexivity.
  - apply bind_Ok in Hc as (ps & Hps & Hc); inv Hc; cbn [block_stmts run_stmts exec_plot]; rewrite Hps.
    eexists; (split; [reflexivity|split; [reflexivity|]]); cbn; rewrite map_app; reflexivity.
  - apply bind_Ok in Hc as ([o bs] & Hbs & Hc); inv Hc.
    cbn [block_stmts app run_stmts exec_plot]; rewrite Hbs.
    destruct rot; eexists; (split; [reflexivity|split; [reflexivity|]]); cbn;
      rewrite Nat.eqb_refl, map_app; reflexivity.
  - apply bind_Ok in Hc as (m & Hm & Hc); inv Hc; cbn [block_stmts run_stmts exec_plot]; rewrite Hm.
    eexists; (split; [reflexivity|split; [reflexivity|]]); cbn; rewrite map_app; reflexivity.
Qed.

(** ** Every warning goes through [warnings.warn] *)

(** The transitions of the warnings state the statements make. *)
Inductive wsteps : wstate -> wstate -> Prop :=
| ws_refl w : wsteps w w
| ws_warn w w' t c m l : wsteps w w' -> wsteps w (warn_explicit t c m l w')
| ws_ignore w w' : wsteps w w' -> wsteps w (filterwarnings_ignore w').

Lemma exec_plot_wsteps df c s : wsteps (warns s) (warns (fst (exec_plot df c s))).
Proof.
  destruct c; cbn [exec_plot];
    repeat match goal with
           | |- context [match ?x with _ => _ end] => destruct x
           end; cbn [fst warns set_pyplot]; eauto 6 using wsteps.
Qed.

(** [ignore_all] at the front stays there, and nothing is written. *)
Lemma wsteps_silenced w w' :
  wsteps w w' -> silenced w -> silenced w' /\ stderr w' = stderr w.
Proof.
  induction 1 as [w|w w' t c m l _ IH|w w' _ IH]; intros Hs; [auto| |].
  - destruct (IH Hs) as [H1 H2]; destruct (warn_explicit_silenced t c m l w' H1); split; congruence.
  - destruct (IH Hs) as [_ H2]; split; [apply filterwarnings_ignore_silenced|exact H2].
Qed.

(** The deprecation warning of line 17, then the singular-data warning
    when the curve is skipped. *)
Lemma run_dist_block df col k hs kde s :
  getitem df BoxPlot.saleprice = Ok col -> distplot col = Ok (k, hs, kde) ->
  exists s', run_stmts df (block_stmts BDist) s = (s', None) /\
    warns s' = (match kde with
                | Some _ => fun w => w
                | None => warn_explicit singular_msg UserWarning main 17
                end) (warn_explicit distplot_msg UserWarning main 17 (warns s)).
Proof.
  intros Hc Hd; cbn [block_stmts run_stmts exec_plot]; rewrite Hc, Hd.
  destruct kde; eexists; split; reflexivity.
Qed.

Lemma run_dist_blocks df col k hs kde n s :
  getitem df BoxPlot.saleprice = Ok col -> distplot col = Ok (k, hs, kde) ->
  exists s', run_stmts df (concat (repeat (block_stmts BDist) n)) s = (s', None) /\
    warns s' = Nat.iter n (fun w => (match kde with
                | Some _ => fun w => w
                | None => warn_explicit singular_msg UserWarning main 17
                end) (warn_explicit distplot_msg UserWarning main 17 w)) (warns s).
Proof.
  intros Hc Hd; induction n as [|n IH]; [exists s; split; reflexivity|].
  destruct IH as (s1 & E1 & W1).
  replace (concat (repeat (block_stmts BDist) (S n)))
    with (concat (repeat (block_stmts BDist) n) ++ block_stmts BDist)
    by (cbn [repeat]; rewrite repeat_cons, concat_app; cbn [concat]; rewrite app_nil_r; reflexivity).
  rewrite run_stmts_app, E1; destruct (run_dist_block df col k hs kde s1 Hc Hd) as (s2 & E2 & W2).
  exists s2; split; [exact E2|]; rewrite W2, W1; reflexivity.
Qed.

Lemma preach_silenced df s s' :
  preach df s s' -> silenced (warns s) -> silenced (warns s') /\ stderr (warns s') = stderr (warns s).
Proof.
  induction 1 as [s|s s' s'' Hst _ IH]; intros Hs; [auto|].
  inversion Hst as [c s0 E1 E2]; subst.
  destruct (wsteps_silenced _ _ (exec_plot_wsteps df c s) Hs) as [H1 H2].
  destruct (IH H1) as [H3 H4]; split; congruence.
Qed.

Lemma iter_idem {A} (f : A -> A) x n : f (f x) = f x -> Nat.iter (S n) f x = f x.
Proof. intros H; induction n as [|n IH]; [reflexivity|]; rewrite Nat.iter_succ, IH; exact H. Qed.

(** Every statement keeps pyplot's state well formed. *)
Lemma exec_plot_pwf df c s : pwf (pyplot s) -> pwf (pyplot (fst (exec_plot df c s))).
Proof.
  intros H; destruct c; cbn [exec_plot];
    repeat match goal with
           | |- context [match ?x with _ => _ end] => destruct x
           end; cbn [fst pyplot set_pyplot];
    eauto using gca_pwf, subplots_pwf, on_current_pwf, on_axes_pwf, show_pwf.
Qed.


(** C34 (refinement). The plot blocks of the script, run in any order
    and any number of times from a session with no open figure, each
    display one figure, numbered 1, of the block's size, holding exactly
    the block's chart ([chart]: the histogram and density curve of
    [Distplot], the points of [Corr.scatter_by] with y limits
    (0, 800000), the boxes of [BoxPlot.boxplot_by] at their positions with
    the same limits and the tick rotation of line 74, the heatmap shades),
    and leave no figure open. *)
Theorem run_blocks_refines df bs s cs :
  figs (pyplot s) = [] -> charts df bs = Ok cs ->
  exists s', run_blocks df bs s = (s', None) /\ figs (pyplot s') = [] /\
    map looks (shown (pyplot s')) =
      map looks (shown (pyplot s)) ++ map (fun c => (1, fst c, Some (snd c))) cs.
Proof.
  unfold run_blocks; revert s cs; induction bs as [|b bs IH]; intros s cs Hf Hc.
  - inv Hc; exists s; rewrite app_nil_r; auto.
  - cbn [charts] in Hc; apply bind_Ok in Hc as ([sz ax] & Hb & Hc).
    apply bind_Ok in Hc as (cs' & Hcs & Hc); inv Hc.
    destruct (run_block df b s sz ax Hf Hb) as (s1 & E1 & F1 & S1).
    cbn [flat_map]; rewrite run_stmts_app, E1.
    destruct (IH s1 cs' F1 Hcs) as (s2 & E2 & F2 & S2).
    exists s2; split; [exact E2|split; [exact F2|]]; rewrite S2, S1, <- app_assoc; reflexivity.
Qed.

(** C33 (safety). Once line 9, [warnings.filterwarnings('ignore')], has
    run, no plot statement of the script writes a warning, whatever
    statements follow, in any order, raising or not. *)
Theorem filter_silences_warnings df s s' :
  preach df (fst (exec_plot df FilterIgnore s)) s' -> stderr (warns s') = stderr (warns s).
Proof.
  intros H; apply preach_silenced in H as [_ H]; [exact H|apply filterwarnings_ignore_silenced].
Qed.


(** ** Interleavings *)

(** Line 17 run before the box plot's [plt.show()]: [distplot] draws on
    the current axes, the box plot's, and one figure shows both plots. *)
Example distplot_overlays_boxplot :
  exists b h,
    map looks (shown (pyplot (fst (run_stmts one_house
      [Subplots (8%Q, 6%Q); BoxplotSalePrice overallqual; AxisY 0 800000; DistplotSalePrice; Show]
      init_psession)))) =
    [(1, (8%Q, 6%Q), Some (mkAxes [BoxAt Vertical 0 b; Bars 1 h] (Some (0%Q, 800000%Q)) 0))].
Proof. do 2 eexists; vm_compute; reflexivity. Qed.

(** Line 17 raises ValueError on a string SalePrice after [plt.gca()]
    has opened figure 1; the next block's [plt.show()] displays that
    empty figure before the box plot, which becomes figure 2 and, the
    SalePrice column holding a string, lays its box horizontally. *)
Example failed_distplot_figure_shown :
  snd (run_stmts text_price (block_stmts BDist) init_psession) =
    Some (ValueError "could not convert string to float") /\
  exists b,
    map looks (shown (pyplot (fst (run_stmts text_price (block_stmts (BBox overallqual (8%Q, 6%Q) None))
      (fst (run_stmts text_price (block_stmts BDist) init_psession)))))) =
    [(1, default_figsize, Some empty_axes);
     (2, (8%Q, 6%Q), Some (mkAxes [BoxAt Horizontal 0 b] (Some (0%Q, 800000%Q)) 0))].
Proof. split; [reflexivity|eexists; vm_compute; reflexivity]. Qed.

(** ** Witnesses *)

Lemma run_blocks_refines_witness :
  exists cs, figs (pyplot init_psession) = [] /\ charts plot_frame (firstn 5 script_blocks) = Ok cs /\
  exists s', run_blocks plot_frame (firstn 5 script_blocks) init_psession = (s', None) /\
    figs (pyplot s') = [] /\
    map looks (shown (pyplot s')) =
      map looks (shown (pyplot init_psession)) ++ map (fun c => (1, fst c, Some (snd c))) cs.
Proof.
  eexists; split; [reflexivity|split; [reflexivity|]].
  apply run_blocks_refines; reflexivity.
Defined.



Lemma filter_silences_warnings_witness :
  let s1 := fst (exec_plot plot_frame FilterIgnore init_psession) in
  let s2 := fst (exec_plot plot_frame DistplotSalePrice s1) in
  preach plot_frame s1 s2 /\ stderr (warns s2) = stderr (warns init_psession).
Proof.
  intros s1 s2.
  assert (H : preach plot_frame s1 s2) by (eapply preach_step; [apply pstep_exec|apply preach_refl]).
  split; [exact H|exact (filter_silences_warnings _ _ _ H)].
Defined.

End Plots.
