(* ===== verification/Features.v ===== *)
(** * Reading the box plots: lines 86-88

    Lines 86-88 read the box plot of OverallQual (line 65) as showing
    "how sales prices increase with the overall quality".  The box plot's
    boxes are those of [BoxPlot.boxplot_by]; this file states what that
    reading means of them and when it holds:
    - [medians]: the medians of the boxes drawn, left to right;
    - [increasing]: a strictly increasing list of rationals;
    - [increases_with], [increases_withb]: SalePrice increases with the
      feature row by row (of two rows with numbers, the higher level has
      the higher price), as a proposition and as a test.
    Theorem [boxes_medians_increase]: when SalePrice increases with a
    numeric feature row by row, the boxes of the vertical box plot have
    strictly increasing medians; it rests on the numeric levels being
    sorted ([BoxPlot.categorical_order_increasing]) and on a median lying
    between two values of its group ([box_med_range]). *)

From Stdlib Require Import ZArith.
From S2P Require Import Prelude Cell Frame Stats BoxPlot.
From Stdlib Require Import Psatz.

Module Features.
Import Frame Stats BoxPlot.

Local Open Scope Q_scope.

(** ** Lines 86-88: prices increasing with the level *)

(** The medians of the boxes drawn, left to right. *)
Definition medians (bs : list (cell * option box)) : list Q :=
  flat_map (fun gb => match snd gb with Some b => [b_med b] | None => [] end) bs.

Fixpoint increasing (l : list Q) : bool :=
  match l with
  | x :: (y :: _) as l' => Qltb x y && increasing l'
  | _ => true
  end.

(** SalePrice increases with the level, row by row: of two rows whose
    level and price are numbers, the higher level has the higher price. *)
Definition increases_with (x y : list cell) : Prop :=
  forall p q p' q', In (Num p, Num q) (combine x y) -> In (Num p', Num q') (combine x y) ->
    p < p' -> q < q'.

(** The same test, executable. *)
Definition increases_withb (x y : list cell) : bool :=
  let rows := combine x y in
  forallb (fun r => forallb (fun r' =>
    match r, r' with
    | (Num p, Num q), (Num p', Num q') => negb (Qltb p p') || Qltb q q'
    | _, _ => true
    end) rows) rows.

(** ** The medians of the boxes *)

Lemma numeric_values_In (s : list cell) l q : numeric_values s = Ok l -> In q l -> In (Num q) s.
Proof.
  revert l; induction s as [|[|p|t] s IH]; intros l H Hq; cbn [numeric_values] in H.
  - injection H as <-; destruct Hq.
  - right; eapply IH; eauto.
  - apply bind_Ok in H as (l' & H' & [= <-]); destruct Hq as [<-|Hq]; [left; reflexivity|].
    right; eapply IH; eauto.
  - discriminate.
Qed.

(** A median lies between two values of its group. *)
Lemma box_med_range (v : list Q) b :
  box_stats v = Some b -> exists lo hi, In lo v /\ In hi v /\ lo <= b_med b <= hi.
Proof.
  intros H; destruct (box_stats_inv v b H) as (_ & Hm & _).
  destruct v as [|x r] eqn:Ev; [discriminate|rewrite <- Ev in *].
  destruct (qmin v) as [lo|] eqn:Hlo; [|subst; discriminate].
  destruct (qmax v) as [hi|] eqn:Hhi; [|subst; discriminate].
  exists lo, hi; split; [apply qmin_In, Hlo|split; [apply qmax_In, Hhi|]].
  eapply quantile_between; eauto; lra.
Qed.

(** A value of the group of level [q] is the price of a row whose level
    equals [q]. *)
Lemma group_row (x y : list cell) (q : Q) v w :
  length x = length y -> numeric_values (group_values x y (Num q)) = Ok v -> In w v ->
  exists p, In (Num p, Num w) (combine x y) /\ p == q.
Proof.
  intros E Hv Hw; apply (numeric_values_In _ _ _ Hv) in Hw.
  apply (group_values_In x y _ _ E) in Hw as ([| p |t] & Hin & Hc); try discriminate.
  exists p; split; [exact Hin|]; apply Qeq_bool_iff in Hc; symmetry; exact Hc.
Qed.

Lemma medians_from (x y : list cell) (qs : list Q) bs :
  boxes x y (map Num qs) = Ok bs -> forall m, In m (medians bs) ->
  exists q v b, In q qs /\ numeric_values (group_values x y (Num q)) = Ok v /\
    box_stats v = Some b /\ m = b_med b.
Proof.
  revert bs; induction qs as [|q qs IH]; intros bs H m Hm; cbn [map boxes] in H.
  - injection H as <-; destruct Hm.
  - apply bind_Ok in H as (v & Hv & H); apply bind_Ok in H as (r & Hr & [= <-]).
    unfold medians in Hm; cbn [flat_map snd] in Hm; apply in_app_or in Hm as [Hm|Hm].
    + destruct (box_stats v) as [b|] eqn:Hb; [|destruct Hm].
      destruct Hm as [<-|[]]; exists q, v, b; repeat split; auto; left; reflexivity.
    + destruct (IH r Hr m Hm) as (q' & v' & b' & Hq & R); exists q', v', b'; split; [right|]; auto.
Qed.

Lemma medians_sorted (x y : list cell) (qs : list Q) bs :
  length x = length y -> increases_with x y -> StronglySorted Qlt qs ->
  boxes x y (map Num qs) = Ok bs -> StronglySorted Qlt (medians bs).
Proof.
  intros E Inc; revert bs; induction qs as [|q qs IH]; intros bs Hs H; cbn [map boxes] in H.
  - injection H as <-; constructor.
  - inversion Hs as [|q0 qs0 Hs' Hfq]; subst.
    apply bind_Ok in H as (v & Hv & H); apply bind_Ok in H as (r & Hr & [= <-]).
    unfold medians; cbn [flat_map snd]; fold (medians r).
    destruct (box_stats v) as [b|] eqn:Hb; cbn [app]; [|apply IH; auto].
    constructor; [apply IH; auto|apply Forall_forall; intros m' Hm'].
    destruct (medians_from x y qs r Hr m' Hm') as (q' & v' & b' & Hq' & Hv' & Hb' & ->).
    destruct (box_med_range v b Hb) as (_ & hi & _ & Hhi & _ & Hle).
    destruct (box_med_range v' b' Hb') as (lo' & _ & Hlo' & _ & Hle' & _).
    destruct (group_row x y q v hi E Hv Hhi) as (p1 & R1 & P1).
    destruct (group_row x y q' v' lo' E Hv' Hlo') as (p2 & R2 & P2).
    rewrite Forall_forall in Hfq; specialize (Hfq q' Hq').
    assert (hi < lo') by (apply (Inc p1 hi p2 lo' R1 R2); rewrite P1, P2; exact Hfq).
    lra.
Qed.

Lemma increasing_sorted (l : list Q) : Sorted Qlt l -> increasing l = true.
Proof.
  induction 1 as [|x l Hs IH Hd]; [reflexivity|].
  destruct l as [|y l]; [reflexivity|]; inv Hd.
  change (Qltb x y && increasing (y :: l) = true); rewrite IH, andb_true_r; apply Qltb_iff; assumption.
Qed.

(** C29 (functional). Lines 86-88 read the box plot of line 65 as "sales
    prices increase with the overall quality": when SalePrice increases
    with a numeric feature row by row, the box plot of lines 65 and 72,
    drawn vertically (the orientation seaborn takes when SalePrice is
    numeric), has boxes whose medians increase strictly from left to
    right. *)
Theorem boxes_medians_increase (df : frame) (f : string) (x y : list cell) bs :
  wf df -> f <> BoxPlot.saleprice -> getitem df f = Ok x -> getitem df BoxPlot.saleprice = Ok y ->
  float_column x = true -> increases_with x y ->
  boxplot_by df f = Ok (Vertical, bs) -> increasing (medians bs) = true.
Proof.
  intros Hwf Hf Hx Hy Hfl Inc H; rewrite (boxplot_by_columns df f x y Hf Hx Hy) in H.
  unfold box_plotter, infer_orient in H; rewrite Hfl in H.
  assert (H' : boxes x y (categorical_order x) = Ok bs)
    by (destruct (float_column y); cbn [bind] in H; apply bind_Ok in H as (bs' & Hb & Eq); inv Eq; exact Hb).
  clear H; rename H' into H.
  assert (E : length x = length y)
    by (rewrite (getitem_length df f x Hwf Hx), (getitem_length df BoxPlot.saleprice y Hwf Hy); reflexivity).
  destruct (categorical_order_increasing x Hfl) as (qs & Eq & Hs); rewrite Eq in H.
  apply increasing_sorted, StronglySorted_Sorted.
  apply (medians_sorted x y qs bs E Inc); [|exact H].
  apply Sorted_StronglySorted; [intros a b c; apply Qlt_trans|exact Hs].
Qed.

Lemma increases_withb_spec (x y : list cell) : increases_withb x y = true -> increases_with x y.
Proof.
  unfold increases_withb, increases_with; intros H p q p' q' H1 H2 Hlt.
  rewrite forallb_forall in H; specialize (H _ H1); rewrite forallb_forall in H; specialize (H _ H2).
  apply orb_true_iff in H as [H|H]; [|apply Qltb_iff, H].
  apply negb_true_iff in H; apply Qltb_iff in Hlt; congruence.
Qed.

(** ** Runs *)

Section Samples.
Local Open Scope string_scope.

(** Five houses whose prices increase with OverallQual. *)
Definition quality_frame : frame :=
  mkFrame [0; 1; 2; 3; 4]%nat
    [("SalePrice", [Num 100000; Num 200000; Num 120000; Num 150000; Num 210000]);
     ("OverallQual", [Num 5; Num 7; Num 5; Num 6; Num 7])].

End Samples.

Lemma boxes_medians_increase_witness :
  exists x y bs, getitem quality_frame "OverallQual"%string = Ok x /\
    getitem quality_frame BoxPlot.saleprice = Ok y /\
    boxplot_by quality_frame "OverallQual"%string = Ok (Vertical, bs) /\ increasing (medians bs) = true.
Proof.
  computed E (boxplot_by quality_frame "OverallQual"%string).
  match type of E with _ = Ok (_, ?bs) =>
    exists (getcol quality_frame "OverallQual"%string), (getcol quality_frame BoxPlot.saleprice), bs end.
  split; [reflexivity|split; [reflexivity|split; [exact E|]]].
  apply (boxes_medians_increase quality_frame "OverallQual"%string
           (getcol quality_frame "OverallQual"%string) (getcol quality_frame BoxPlot.saleprice));
    [apply wfb_wf; vm_compute; reflexivity|discriminate|reflexivity|reflexivity|vm_compute; reflexivity
    |apply increases_withb_spec; vm_compute; reflexivity|exact E].
Defined.

End Features.
